(** * utils_node2vec.py: data preparation for the traffic forecaster

    A shallow embedding of [utils_node2vec.py] and the properties its
    specification states about it.

    Conventions of the embedding.
    - A Python exception is a [Raise] in the [result] monad; a statement
      sequence is a chain of binds.
    - A [for] loop over a Python iterable is [for_] over the list of the
      values it yields, threading the mutated objects as the state.
    - A 2-D numpy array indexed cell by cell is a list of rows; an index is a
      Python integer ([Z]) that numpy normalises ([np_index]): negative
      indices count from the end and anything outside [-len, len) raises
      [IndexError].
    - Where floats are only stored, copied and compared with [inf] (the
      distance and similarity matrices, the weights of the graph) they are
      an abstract type [F].
    - Where the code computes with floats ([get_normalized_adj], the split
      bounds of [generate_dataset]) the function is written over an
      interface of the operations it uses ([Arith], [Ratio]).
      [get_normalized_adj] has two instances: exact arithmetic (the reals),
      in which the algebraic properties are proved, and binary64 (the
      primitive floats), in which the code runs as the interpreter runs it.
      The split bounds are computed, and their order is proved, in
      binary64. *)

From Stdlib Require Import Floats ZArith Reals Lra Lia DecimalString.
From stdpp Require Import base tactics option list strings gmap.

#[local] Set Warnings "-clear-no-such-hyp".

(** ** Exceptions *)

Inductive value_error : Type :=
  | NotTwoDimensional   (* "The adjacency matrix A must be 2-dimensional" *)
  | CannotBroadcast     (* "operands could not be broadcast together" *)
  | SampleTooLarge      (* "Cannot take a larger sample than population" *)
  | FloatNaN            (* "cannot convert float NaN to integer" *)
  | NegativeLength      (* "__len__() should return >= 0" *)
  | NoSamples           (* "num_samples should be a positive integer value" *)
  | BatchSizeNotPositive. (* "batch_size should be a positive integer value" *)

Inductive exn : Type :=
  | IndexError
  | ValueError (why : value_error)
  | OverflowError.      (* "cannot convert float infinity to integer" *)

Inductive result (A : Type) : Type :=
  | Ok (a : A)
  | Raise (e : exn).
Arguments Ok {A} a.
Arguments Raise {A} e.

#[global] Instance result_ret : MRet result := λ A a, Ok a.
#[global] Instance result_bind : MBind result := λ A B k r,
  match r with
  | Ok a => k a
  | Raise e => Raise e
  end.

(** [for x in xs: body], the loop body mutating the state [s]. *)
Fixpoint for_ {A S : Type} (xs : list A) (body : A → S → result S) (s : S)
  : result S :=
  match xs with
  | [] => Ok s
  | x :: xs' => s' ← body x s; for_ xs' body s'
  end.

(** ** numpy indexing *)

Definition np_index (len : nat) (i : Z) : result nat :=
  if decide (0 ≤ i < Z.of_nat len)%Z then Ok (Z.to_nat i)
  else if decide (- Z.of_nat len ≤ i < 0)%Z then Ok (Z.to_nat (i + Z.of_nat len))
  else Raise IndexError.

(** [l[i]] *)
Definition getitem {A : Type} (l : list A) (i : Z) : result A :=
  k ← np_index (length l) i;
  match l !! k with
  | Some x => Ok x
  | None => Raise IndexError
  end.

(** [l[i] = x] *)
Definition setitem {A : Type} (l : list A) (i : Z) (x : A) : result (list A) :=
  k ← np_index (length l) i;
  Ok (<[k := x]> l).

(** [M[i][j]] and [M[i, j]] *)
Definition getitem2 {A : Type} (M : list (list A)) (i j : Z) : result A :=
  row ← getitem M i;
  getitem row j.

(** [M[i][j] = x] and [M[i, j] = x]: the row is a view, so the write lands in
    [M]. *)
Definition setitem2 {A : Type} (M : list (list A)) (i j : Z) (x : A)
  : result (list (list A)) :=
  row ← getitem M i;
  row' ← setitem row j x;
  setitem M i row'.

(** [np.zeros((n, m))] with [fill] for the zero, and [np.zeros(...) + fill]. *)
Definition np_full {A : Type} (n m : nat) (fill : A) : list (list A) :=
  replicate n (replicate m fill).

(** The cell [(i, j)] of a matrix, when it has one. *)
Definition cell {A : Type} (M : list (list A)) (i j : nat) : option A :=
  M !! i ≫= λ row, row !! j.

(** [M] is an [n]×[m] array whose cell [(i, j)] holds [g i j]. *)
Definition mat_spec {A : Type} (n m : nat) (M : list (list A))
    (g : nat → nat → A) : Prop :=
  length M = n ∧
  ∀ i, i < n → ∃ row, M !! i = Some row ∧ length row = m ∧
    ∀ j, j < m → row !! j = Some (g i j).

(** [g] with the cell [(i, j)] overwritten by [v]. *)
Definition upd {A : Type} (g : nat → nat → A) (i j : nat) (v : A)
  : nat → nat → A :=
  λ a b, if decide (a = i ∧ b = j) then v else g a b.

(** ** Sequence-alignment distance matrix ([read_data], the DTW block) *)

Section DtwDistance.
(** A node's daily profile (a row of [data_mean]), the float scalars, and
    [fastdtw(a, b, radius=6)[0]]. Nothing is assumed of the engine. *)
Context {P F : Type} (zero : F) (fastdtw : P → P → F).

Definition dtw_fill (data_mean : list P) (M : list (list F))
  : result (list (list F)) :=
  let n := length data_mean in
  for_ (seq 0 n) (λ i M,
    for_ (seq i (n - i)) (λ j M,
      a ← getitem data_mean (Z.of_nat i);
      b ← getitem data_mean (Z.of_nat j);
      setitem2 M (Z.of_nat i) (Z.of_nat j) (fastdtw a b)) M) M.

Definition dtw_mirror (n : nat) (M : list (list F)) : result (list (list F)) :=
  for_ (seq 0 n) (λ i M,
    for_ (seq 0 i) (λ j M,
      v ← getitem2 M (Z.of_nat j) (Z.of_nat i);
      setitem2 M (Z.of_nat i) (Z.of_nat j) v) M) M.

(** The block guarded by [if not os.path.exists(...)], up to [np.save]. *)
Definition dtw_distance (data_mean : list P) : result (list (list F)) :=
  let n := length data_mean in
  M ← dtw_fill data_mean (np_full n n zero);
  dtw_mirror n M.

(** The engine's distance between the profiles of nodes [a] and [b]. *)
Definition dtw_of (data_mean : list P) (a b : nat) : F :=
  default zero (pa ← data_mean !! a; pb ← data_mean !! b; Some (fastdtw pa pb)).

(** The matrix while [dtw_fill] is at row [i], column [k]. *)
Definition fill_state (data_mean : list P) (i k : nat) : nat → nat → F :=
  λ a b, if decide ((a < i ∧ a ≤ b) ∨ (a = i ∧ i ≤ b < k))
         then dtw_of data_mean a b else zero.

(** The matrix while [dtw_mirror] is at row [i], column [k]. *)
Definition mirror_state (data_mean : list P) (i k : nat) : nat → nat → F :=
  λ a b, if decide (b < a ∧ (a < i ∨ (a = i ∧ b < k)))
         then dtw_of data_mean b a
         else if decide (a ≤ b) then dtw_of data_mean a b else zero.
End DtwDistance.


(** ** Spatial distance matrix ([read_data], the edge-list block) *)

(** Where numpy looks when given the index [i] on an axis of length [len]. *)
Definition np_pos (len : nat) (i : Z) : nat :=
  Z.to_nat (if decide (0 ≤ i)%Z then i else i + Z.of_nat len)%Z.

(** The indices numpy accepts on an axis of length [len]. *)
Definition np_valid (len : nat) (i : Z) : Prop :=
  (- Z.of_nat len ≤ i < Z.of_nat len)%Z.

Section SpatialDistance.
(** The float scalars and [float('inf')]. *)
Context {F : Type} (inf : F).

(** A row of the edge list below the header, as the loop reads it:
    [(int(line[0]), int(line[1]), float(line[2]))]. *)
Definition edge_row : Type := Z * Z * F.

(** The block guarded by [if not os.path.exists(...)], from
    [np.zeros((N, N)) + float('inf')] up to [np.save]; [rows] is what the
    second [for line in file] yields, the header being consumed by the
    first. *)
Definition spatial_distance (num_nodes : nat) (rows : list edge_row)
  : result (list (list F)) :=
  for_ rows (λ '(start, end_, d) dist_matrix,
    dist_matrix ← setitem2 dist_matrix start end_ d;
    setitem2 dist_matrix end_ start d)
    (np_full num_nodes num_nodes inf).

(** The row writes the cell [(i, j)]. *)
Definition touches (num_nodes : nat) (row : edge_row) (i j : nat) : Prop :=
  let '(start, end_, _) := row in
  (np_pos num_nodes start = i ∧ np_pos num_nodes end_ = j) ∨
  (np_pos num_nodes end_ = i ∧ np_pos num_nodes start = j).

(** The two writes of one row, on the cells seen as a function. *)
Definition edge_step (num_nodes : nat) (g : nat → nat → F) (row : edge_row)
  : nat → nat → F :=
  let '(start, end_, d) := row in
  upd (upd g (np_pos num_nodes start) (np_pos num_nodes end_) d)
      (np_pos num_nodes end_) (np_pos num_nodes start) d.

(** The cells after the rows [rows], in order. *)
Definition spatial_cells (num_nodes : nat) (rows : list edge_row)
  : nat → nat → F :=
  foldl (edge_step num_nodes) (λ _ _, inf) rows.
End SpatialDistance.

(** A three-node edge list; distances are [option nat] with [None] for
    infinity, and the last row names node 2 from the end. *)
Definition sample_rows : list (@edge_row (option nat)) :=
  [(0%Z, 1%Z, Some 5); (1%Z, 2%Z, Some 7); ((-1)%Z, 0%Z, Some 9)].

(** ** Similarity matrices ([read_data], from [np.zeros] to the [return]) *)

Section SimilarityDeriver.
(** An embedding vector ([model.wv[node]]), the float scalars, the float
    zero, and [np.linalg.norm(a - b)]. *)
Context {V F : Type} (zero : F) (norm_diff : V → V → F).

(** The two loops over [selected_nodes]; [node_embeddings] is the dict
    [{int(node): model.wv[node] ...}]. *)
Definition derive_similarity (num_nodes : nat) (selected_nodes : list nat)
    (node_embeddings : gmap nat V)
  : result (list (list F) * list (list F)) :=
  for_ selected_nodes (λ i matrices,
    for_ selected_nodes (λ j '(dtw_matrix, sp_matrix),
      match decide (i ≠ j), node_embeddings !! i, node_embeddings !! j with
      | left _, Some ei, Some ej =>
          dtw_matrix ← setitem2 dtw_matrix (Z.of_nat i) (Z.of_nat j) (norm_diff ei ej);
          sp_matrix ← setitem2 sp_matrix (Z.of_nat i) (Z.of_nat j) (norm_diff ei ej);
          Ok (dtw_matrix, sp_matrix)
      | _, _, _ => Ok (dtw_matrix, sp_matrix)
      end) matrices)
    (np_full num_nodes num_nodes zero, np_full num_nodes num_nodes zero).

(** What a visited pair [(i, j)] leaves in its cell. *)
Definition pair_distance (node_embeddings : gmap nat V) (i j : nat) : F :=
  match decide (i ≠ j), node_embeddings !! i, node_embeddings !! j with
  | left _, Some ei, Some ej => norm_diff ei ej
  | _, _, _ => zero
  end.

(** The cells once the outer loop has done the nodes [pre], and the inner
    loop, at the node [i], the nodes [pre2]. *)
Definition similarity_state (selected_nodes : list nat)
    (node_embeddings : gmap nat V) (pre : list nat) (i : nat) (pre2 : list nat)
  : nat → nat → F :=
  λ a b, if decide ((a ∈ pre ∧ b ∈ selected_nodes) ∨ (a = i ∧ b ∈ pre2))
         then pair_distance node_embeddings a b else zero.
End SimilarityDeriver.

(** A run on four nodes: scalars for embeddings, their absolute difference
    for the norm; node 3 was sampled but has no embedding, node 1 was not
    sampled. *)
Definition sample_embeddings : gmap nat nat := {[ 0 := 10; 2 := 4 ]}.
Definition sample_norm (a b : nat) : nat := (a - b) + (b - a).

(** ** Node subset ([read_data], the sampling block) *)

(** [x[i], x[j] = x[j], x[i]] *)
Definition swap (x : list nat) (i j : nat) : list nat :=
  match x !! i, x !! j with
  | Some xi, Some xj => <[j := xi]> (<[i := xj]> x)
  | _, _ => x
  end.

(** Where the element at the index [a] of [swap x i j] comes from. *)
Definition transpose (i j a : nat) : nat :=
  if decide (a = i) then j else if decide (a = j) then i else a.

Section NodeSubset.
(** numpy's generator: its state, and [random_interval(max)], a draw from
    [0..max] that advances the state. Nothing is assumed of the draws. *)
Context {G : Type} (random_interval : G → nat → nat * G).

(** [RandomState.shuffle] on a 1-D array, from the index [i] down to 1:
    [for i in reversed(range(1, n)): j = random_interval(i); swap]. The
    draw is at most [i], so both reads of [swap] succeed. *)
Fixpoint shuffle_from (i : nat) (x : list nat) (g : G) : list nat * G :=
  match i with
  | 0 => (x, g)
  | S i' =>
      let '(j, g') := random_interval g i in
      shuffle_from i' (swap x i j) g'
  end.

(** [RandomState.permutation(n)]: [arange(n)], shuffled. *)
Definition permutation (n : nat) (g : G) : list nat * G :=
  shuffle_from (n - 1) (seq 0 n) g.

(** [np.random.choice(n, size, replace=False)] without weights:
    [permutation(n)[:size]]. *)
Definition choice (n size : nat) (g : G) : result (list nat * G) :=
  if decide (n < size) then Raise (ValueError SampleTooLarge)
  else let '(idx, g') := permutation n g in Ok (take size idx, g').

(** [selected_nodes], with the generator state left behind. *)
Definition select_nodes (num_nodes : nat) (g : G) : result (list nat * G) :=
  if decide (100 < num_nodes) then choice num_nodes 100 g
  else Ok (seq 0 num_nodes, g).
End NodeSubset.

(** A generator for running the model: the state is a counter, a draw is
    the counter reduced into range. *)
Definition counter_interval (g m : nat) : nat * nat :=
  (g `mod` S m, (7 * g + 3) `mod` 1009).

(** ** Graph constructor ([generate_graph]) *)

Section GraphConstructor.
(** The float scalars, [==] on them, and [float('inf')]. *)
Context {F : Type} `{EqDecision F} (inf : F).

(** [nx.Graph]: the adjacency dict [_adj], node to neighbour to the edge's
    [weight]. The edge between [u] and [v] is the entry [v] of [_adj[u]]
    and the entry [u] of [_adj[v]]. *)
Definition add_edge (u v : nat) (w : F) (G : gmap nat (gmap nat F))
  : gmap nat (gmap nat F) :=
  let G := if decide (is_Some (G !! u)) then G else <[u := ∅]> G in
  let G := if decide (is_Some (G !! v)) then G else <[v := ∅]> G in
  let G := <[u := <[v := w]> (default ∅ (G !! u))]> G in
  <[v := <[u := w]> (default ∅ (G !! v))]> G.

Definition generate_graph (num_nodes : nat) (dist_matrix : list (list F))
    (selected_nodes : list nat) : result (gmap nat (gmap nat F)) :=
  for_ selected_nodes (λ i G,
    for_ selected_nodes (λ j G,
      d ← getitem2 dist_matrix (Z.of_nat i) (Z.of_nat j);
      if decide (d ≠ inf) then Ok (add_edge i j d G) else Ok G) G) ∅.

(** [G[u][v]['weight']], when [u] and [v] are adjacent. *)
Definition weight (G : gmap nat (gmap nat F)) (u v : nat) : option F :=
  G !! u ≫= λ nbrs, nbrs !! v.

(** [G.has_edge(u, v)] *)
Definition has_edge (G : gmap nat (gmap nat F)) (u v : nat) : Prop :=
  is_Some (weight G u v).

(** [G.edges]: every edge once, as the pair of its ends in order; a
    self-loop is [(u, u)]. *)
Definition edges (G : gmap nat (gmap nat F)) : gset (nat * nat) :=
  ⋃ ((λ '(u, nbrs), set_map (C := gset nat) (pair u) (filter (λ v, u ≤ v) (dom nbrs)))
       <$> map_to_list G).

(** [G.number_of_edges()] *)
Definition number_of_edges (G : gmap nat (gmap nat F)) : nat := size (edges G).


(** The entry [(i, j)] of the distance matrix is not [inf]. *)
Definition finite_at (dist_matrix : list (list F)) (i j : nat) : Prop :=
  ∃ d, cell dist_matrix i j = Some d ∧ d ≠ inf.

(** One visit of the inner loop body at [(i, j)], on the weights seen as a
    function of the two ends; [g] gives the matrix entries. *)
Definition visit (g : nat → nat → F) (wt : nat → nat → option F) (p : nat * nat)
  : nat → nat → option F :=
  let '(i, j) := p in
  if decide (g i j ≠ inf)
  then upd (upd wt i j (Some (g i j))) j i (Some (g i j))
  else wt.

(** The weights after the visits [pairs], in order. *)
Definition weights_after (g : nat → nat → F) (pairs : list (nat * nat))
  : nat → nat → option F :=
  foldl (visit g) (λ _ _, None) pairs.

(** The visits of the two loops once the outer one has done [pre]. *)
Definition visits (pre selected_nodes : list nat) : list (nat * nat) :=
  pre ≫= λ i, pair i <$> selected_nodes.
End GraphConstructor.

(** Four nodes, distances [option nat] with [None] for infinity: finite only
    between 0 and 1 and between 2 and 3. *)
Definition two_pairs : list (list (option nat)) :=
  [[None; Some 5; None; None];
   [Some 5; None; None; None];
   [None; None; None; Some 7];
   [None; None; Some 7; None]].

(** The same with a zero diagonal. *)
Definition two_pairs_zero_diagonal : list (list (option nat)) :=
  [[Some 0; Some 5; None; None];
   [Some 5; Some 0; None; None];
   [None; None; Some 0; Some 7];
   [None; None; Some 7; Some 0]].

(** ** Windowed dataset ([MyDataset]) and the three splits
       ([generate_dataset]) *)

(** The float arithmetic [generate_dataset] does on the ratios, as an
    interface: the conversion of the row count, [*], [+] and [int(...)]. *)
Class Ratio (F : Type) : Type := {
  float_of_int : Z → F;
  rmul : F → F → F;
  radd : F → F → F;
  int_of_float : F → result Z
}.

(** A Python number handed to [int(...)]: an [int] or a [float]. *)
Inductive pynum (F : Type) : Type :=
  | PyInt (z : Z)
  | PyFloat (x : F).
Arguments PyInt {F} z.
Arguments PyFloat {F} x.

(** [int(x)] *)
Definition int_ {F : Type} `{Ratio F} (x : pynum F) : result Z :=
  match x with
  | PyInt z => Ok z
  | PyFloat q => int_of_float q
  end.

(** The bound [i] of a slice over [len] items, as Python and torch resolve
    it: a negative bound counts from the end, and the result is clamped to
    [0, len]. *)
Definition slice_bound (len : nat) (i : Z) : nat :=
  Z.to_nat (if decide (i < 0)%Z then Z.max (i + Z.of_nat len) 0
            else Z.min i (Z.of_nat len)).

(** [l[start:stop]]; never raises. *)
Definition py_slice {A : Type} (l : list A) (start stop : Z) : list A :=
  let a := slice_bound (length l) start in
  let b := slice_bound (length l) stop in
  take (b - a) (drop a l).

(** [t.permute(1, 0)] and [t.permute(1, 0, 2)] on a tensor whose second
    dimension has size [n]: the first two axes are exchanged. The tensor is
    the list of its slices along the first axis. *)
Fixpoint permute10 {B : Type} (n : nat) (t : list (list B)) : list (list B) :=
  match t with
  | [] => replicate n []
  | r :: t' => zip_with cons r (permute10 n t')
  end.

(** [f] on every item, stopping at the first exception. *)
Fixpoint mapR {A B : Type} (f : A → result B) (l : list A) : result (list B) :=
  match l with
  | [] => Ok []
  | x :: l' => y ← f x; ys ← mapR f l'; Ok (y :: ys)
  end.

Section WindowedDataset.
(** The scalars of the tensor, and the floats of the split bounds. *)
Context {A F : Type} `{Ratio F}.

(** A 3-D tensor of shape (time steps, [nodes], [channels]): the list of
    its time steps, each the list of its nodes' feature vectors. *)
Record tensor : Type := Tensor {
  nodes : nat;
  channels : nat;
  steps : list (list (list A))
}.

(** Every time step has [nodes] feature vectors of [channels] scalars. *)
Definition tensor_wf (t : tensor) : Prop :=
  Forall (λ step, length step = nodes t ∧
                  Forall (λ v, length v = channels t) step) (steps t).

(** [t.shape[0]] *)
Definition shape0 (t : tensor) : Z := Z.of_nat (length (steps t)).

(** [t[start:stop]] *)
Definition tensor_slice (t : tensor) (start stop : Z) : tensor :=
  {| nodes := nodes t; channels := channels t;
     steps := py_slice (steps t) start stop |}.

(** [t[:, :, 0]]: the first channel; [IndexError] on a tensor without
    channels. *)
Definition channel0 (t : tensor) : result (list (list A)) :=
  if decide (channels t = 0) then Raise IndexError
  else mapR (mapR (λ v : list A, getitem v 0)) (steps t).

Record MyDataset : Type := {
  data : tensor;
  his_length : Z;
  pred_length : Z
}.

(** [MyDataset.__init__] *)
Definition MyDataset_init (data : tensor) (split_start split_end : pynum F)
    (his_length pred_length : Z) : result MyDataset :=
  split_start ← int_ split_start;
  split_end ← int_ split_end;
  Ok {| data := tensor_slice data split_start split_end;
        his_length := his_length;
        pred_length := pred_length |}.

(** [MyDataset.__getitem__]: the pair [(x, y)], [x] of shape (nodes,
    history, channels) and [y] of shape (nodes, prediction). *)
Definition MyDataset_getitem (self : MyDataset) (index : Z)
  : result (list (list (list A)) * list (list A)) :=
  let x := permute10 (nodes (data self))
             (steps (tensor_slice (data self) index (index + his_length self))) in
  y ← channel0 (tensor_slice (data self) (index + his_length self)
                  (index + his_length self + pred_length self));
  Ok (x, permute10 (nodes (data self)) y).

(** [MyDataset.__len__]: the value the method computes ([len()] itself
    rejects a negative one). *)
Definition MyDataset_len (self : MyDataset) : Z :=
  shape0 (data self) - his_length self - pred_length self + 1.

(** A [torch.utils.data.DataLoader]: the dataset it reads and its batch
    size. *)
Record DataLoader : Type := {
  dataset : MyDataset;
  batch_size : Z
}.

(** [DataLoader(dataset, batch_size=batch_size, shuffle=True)], as far as
    the constructor goes. With [shuffle=True] it first makes a
    [RandomSampler] over the dataset, which takes [len(dataset)]: [len]
    rejects a negative [__len__], the sampler a length of 0. Then it makes
    a [BatchSampler], which rejects a batch size that is not positive.
    Each rejection is a [ValueError]. Iterating the loader is not
    modelled. *)
Definition DataLoader_init (dataset : MyDataset) (batch_size : Z)
  : result DataLoader :=
  if decide (MyDataset_len dataset < 0)%Z then Raise (ValueError NegativeLength)
  else if decide (MyDataset_len dataset = 0%Z) then Raise (ValueError NoSamples)
  else if decide (batch_size ≤ 0)%Z then Raise (ValueError BatchSizeNotPositive)
  else Ok {| dataset := dataset; batch_size := batch_size |}.

(** [generate_dataset]: the datasets and their loaders, in the order the
    code makes them: train, validation, test. The fields of [args] are the
    parameters. *)
Definition generate_dataset (data : tensor) (batch_size : Z)
    (train_ratio valid_ratio : F) (his_length pred_length : Z)
  : result (DataLoader * DataLoader * DataLoader) :=
  let rows := shape0 data in
  train_dataset ←
    MyDataset_init data (PyInt 0)
      (PyFloat (rmul (float_of_int rows) train_ratio)) his_length pred_length;
  train_dataloader ← DataLoader_init train_dataset batch_size;
  valid_dataset ←
    MyDataset_init data (PyFloat (rmul (float_of_int rows) train_ratio))
      (PyFloat (rmul (float_of_int rows) (radd train_ratio valid_ratio)))
      his_length pred_length;
  valid_dataloader ← DataLoader_init valid_dataset batch_size;
  test_dataset ←
    MyDataset_init data
      (PyFloat (rmul (float_of_int rows) (radd train_ratio valid_ratio)))
      (PyInt rows) his_length pred_length;
  test_dataloader ← DataLoader_init test_dataset batch_size;
  Ok (train_dataloader, valid_dataloader, test_dataloader).

(** The scalar at time step [t], node [n], channel [c]. *)
Definition at3 (d : list (list (list A))) (t n c : nat) : option A :=
  d !! t ≫= λ step, step !! n ≫= λ v, v !! c.

(** The scalar at row [n], column [t] of a 2-D tensor. *)
Definition at2 (d : list (list A)) (n t : nat) : option A :=
  d !! n ≫= λ row, row !! t.
End WindowedDataset.
Arguments tensor A : clear implicits.
Arguments MyDataset A : clear implicits.
Arguments DataLoader A : clear implicits.

(** *** binary64 *)

(** The conversion of an integer below 2^53 in absolute value. *)
Definition f64_of_Z (z : Z) : float :=
  match z with
  | Z0 => PrimFloat.zero
  | Zpos _ => PrimFloat.of_uint63 (Uint63.of_Z z)
  | Zneg p => PrimFloat.opp (PrimFloat.of_uint63 (Uint63.of_Z (Zpos p)))
  end.

(** [int(x)] of a float. *)
Definition f64_int (x : float) : result Z :=
  match Prim2SF x with
  | S754_zero _ => Ok 0%Z
  | S754_finite s m e =>
      let v := if (0 <=? e)%Z then (Zpos m * 2 ^ e)%Z else (Zpos m / 2 ^ (- e))%Z in
      Ok (if s then (- v)%Z else v)
  | S754_infinity _ => Raise OverflowError
  | S754_nan => Raise (ValueError FloatNaN)
  end.

(** The arithmetic the interpreter does on the ratios. *)
#[global] Instance binary64_ratio : Ratio float := {|
  float_of_int := f64_of_Z;
  rmul := PrimFloat.mul;
  radd := PrimFloat.add;
  int_of_float := f64_int
|}.

(** *** The value of a binary64 number *)

(** 2^e *)
Definition bpow (e : Z) : R := powerRZ 2 e.

(** The real number a float denotes; 0 for infinities and NaN. *)
Definition SF2R (x : spec_float) : R :=
  match x with
  | S754_finite s m e => ((if s then -1 else 1) * IZR (Zpos m) * bpow e)%R
  | _ => 0%R
  end.

(** [k] is the integer nearest to [x], the even one when two are. *)
Definition nearest_even (x : R) (k : Z) : Prop :=
  (Rabs (IZR k - x) <= 1 / 2)%R ∧ (Rabs (IZR k - x) = (1 / 2)%R → Z.even k = true).

(** [r] is [v > 0] rounded to nearest even at the precision of its binade:
    to a multiple of 2^g, g the exponent binary64 gives the numbers of
    [2^(E-1), 2^E). *)
Definition rounds_to (v r : R) : Prop :=
  ∃ E k, (bpow (E - 1) <= v < bpow E)%R ∧
         nearest_even (v * bpow (- fexp prec emax E)) k ∧
         r = (IZR k * bpow (fexp prec emax E))%R.

(** [y >= 0] is a binary64 number, overflow aside: zero, or a multiple of
    the unit of its binade. *)
Definition representable (y : R) : Prop :=
  y = 0%R ∨
  ∃ E j, (bpow (E - 1) <= y < bpow E)%R ∧ y = (IZR j * bpow (fexp prec emax E))%R.

(** A float that is zero or positive and finite. *)
Definition nonneg_finite (x : spec_float) : Prop :=
  (∃ s, x = S754_zero s) ∨ ∃ m e, x = S754_finite false m e.

(** A tensor of [T] time steps, 2 nodes and 1 channel whose scalar at time
    step [t] and node [n] is [10 * t + n]. *)
Definition ramp (T : nat) : tensor nat :=
  {| nodes := 2; channels := 1;
     steps := (λ t, [[10 * t]; [10 * t + 1]]) <$> seq 0 T |}.

(** ** Adjacency normalizer ([get_normalized_adj]) *)

(** The arithmetic of numpy's float64 arrays, as an interface: the function
    below is written over it, so that what is proved of it by computation
    alone holds for any arithmetic, binary64 included. *)
Class Arith (F : Type) : Type := {
  f0 : F;                       (* 0.0 *)
  f1 : F;                       (* 1.0 *)
  fadd : F → F → F;             (* + *)
  fmul : F → F → F;             (* * *)
  fdiv : F → F → F;             (* / *)
  fsqrt : F → F;                (* np.sqrt *)
  fleb : F → F → bool;          (* <= *)
  flit : Z → Z → F;             (* the literal [m e k]: m × 10^k *)
  fsum : list F → F;            (* np.sum of one row *)
  f32 : F → F                   (* astype(np.float32) *)
}.

Section AdjacencyNormalizer.
Context {F : Type} `{Arith F}.

(** A numpy array: its shape and its items in row-major order. *)
Record ndarray : Type := NdArray {
  shape : list nat;
  items : list F
}.

(** [A.ndim] *)
Definition ndim (A : ndarray) : nat := length (shape A).

(** [v[i]] of a 1-D array and [A[i, j]] of a 2-D array, for indices inside
    the array. *)
Definition at1 (v : ndarray) (i : nat) : F := default f0 (items v !! i).
Definition at2d (A : ndarray) (i j : nat) : F :=
  match shape A with
  | [_; m] => default f0 (items A !! (i * m + j))
  | _ => f0
  end.

(** The 1-D array of the [f i] and the 2-D array of the [f i j]. *)
Definition tab1 (n : nat) (f : nat → F) : ndarray :=
  {| shape := [n]; items := f <$> seq 0 n |}.
Definition tab2 (n m : nat) (f : nat → nat → F) : ndarray :=
  {| shape := [n; m]; items := seq 0 n ≫= λ i, f i <$> seq 0 m |}.

(** [v.reshape(...)] to a shape with as many items. *)
Definition reshape (v : ndarray) (new_shape : list nat) : ndarray :=
  {| shape := new_shape; items := items v |}.

(** Broadcasting of two axis lengths: equal, or one of them 1. *)
Definition broadcast_dim (a c : nat) : option nat :=
  if decide (a = c) then Some a
  else if decide (a = 1) then Some c
  else if decide (c = 1) then Some a
  else None.

(** The index read on an axis of length [a] for the output index [i]. *)
Definition broadcast_index (a i : nat) : nat := if decide (a = 1) then 0 else i.

(** An elementwise binary ufunc ([np.multiply], [+]) on two 2-D arrays. *)
Definition ufunc2 (op : F → F → F) (X Y : ndarray) : result ndarray :=
  match shape X, shape Y with
  | [a; b], [c; d] =>
      match broadcast_dim a c, broadcast_dim b d with
      | Some n, Some m =>
          Ok (tab2 n m (λ i j,
                op (at2d X (broadcast_index a i) (broadcast_index b j))
                   (at2d Y (broadcast_index c i) (broadcast_index d j))))
      | _, _ => Raise (ValueError CannotBroadcast)
      end
  | _, _ => Raise (ValueError CannotBroadcast)
  end.

(** [np.eye(n)] *)
Definition np_eye (n : nat) : ndarray :=
  tab2 n n (λ i j, if decide (i = j) then f1 else f0).

(** An elementwise unary operation, the shape kept. *)
Definition np_map (f : F → F) (X : ndarray) : ndarray :=
  {| shape := shape X; items := f <$> items X |}.

(** [np.sum(A, axis=1)] of a 2-D array with [n] rows of [m] items. *)
Definition np_sum_axis1 (n m : nat) (A : ndarray) : ndarray :=
  tab1 n (λ i, fsum ((λ j, at2d A i j) <$> seq 0 m)).

Definition get_normalized_adj (A : ndarray) : result ndarray :=
  match shape A with
  | [n; m] =>
      let alpha := flit 8 (-1) in
      let D := reshape (np_sum_axis1 n m A) [n] in
      let D := np_map (λ d, if fleb d (flit 10 (-5)) then flit 10 (-5) else d) D in
      let diag := np_map (λ d, fdiv f1 (fsqrt d)) D in
      X ← ufunc2 fmul (reshape diag [n; 1]) A;
      A_wave ← ufunc2 fmul X (reshape diag [1; n]);
      S ← ufunc2 fadd (np_eye n) A_wave;
      let A_reg := np_map (fmul (fdiv alpha (flit 2 0))) S in
      Ok (np_map f32 A_reg)
  | _ => Raise (ValueError NotTwoDimensional)
  end.

(** *** The normalizer in the specification's words *)

(** The degree of node [i]: the sum of row [i], floored at 1e-4. *)
Definition degree (A : ndarray) (m i : nat) : F :=
  let d := fsum ((λ j, at2d A i j) <$> seq 0 m) in
  if fleb d (flit 1 (-4)) then flit 1 (-4) else d.

(** The entry [i] of D^-1/2. *)
Definition inv_sqrt_degree (A : ndarray) (m i : nat) : F :=
  fdiv f1 (fsqrt (degree A m i)).

(** A_wave = D^-1/2 · A · D^-1/2, entry [(i, j)]. *)
Definition A_wave_spec (A : ndarray) (m i j : nat) : F :=
  fmul (fmul (inv_sqrt_degree A m i) (at2d A i j)) (inv_sqrt_degree A m j).

(** A_reg = (0.8 / 2) · (I + A_wave), entry [(i, j)], as a float32. *)
Definition A_reg_spec (A : ndarray) (m i j : nat) : F :=
  f32 (fmul (fdiv (flit 8 (-1)) (flit 2 0))
         (fadd (if decide (i = j) then f1 else f0) (A_wave_spec A m i j))).
End AdjacencyNormalizer.
Arguments ndarray F : clear implicits.

(** Exact arithmetic: the reals, with the conversion to float32 the
    identity. Rounding is not modelled in this instance. *)
#[global] Instance real_arith : Arith R := {|
  f0 := 0%R;
  f1 := 1%R;
  fadd := Rplus;
  fmul := Rmult;
  fdiv := Rdiv;
  fsqrt := sqrt;
  fleb := λ x y, if Rle_dec x y then true else false;
  flit := λ m k, (IZR m * powerRZ 10 k)%R;
  fsum := λ l, foldr Rplus 0%R l;
  f32 := λ x, x
|}.

(** A symmetric 2×2 array of reals. *)
Definition path2 : ndarray R := {| shape := [2; 2]; items := [0; 1; 1; 0]%R |}.

(** The literal [m e k] as a correctly rounded parser reads it, for [m] and
    [10^|k|] below 2^53: both convert exactly and the division rounds
    once. *)
Definition f64_lit (m k : Z) : float :=
  if (k <? 0)%Z then PrimFloat.div (f64_of_Z m) (f64_of_Z (10 ^ (- k)))
  else f64_of_Z (m * 10 ^ k).

(** [astype(np.float32)], the result kept as the binary64 of equal value:
    rounding to nearest even at precision 24. *)
Definition f64_to_f32 (x : float) : float :=
  match Prim2SF x with
  | S754_finite s m e => SF2Prim (binary_round_aux 24 128 s (Zpos m) e loc_Exact)
  | _ => x
  end.

(** binary64, as numpy computes on a float64 array; [np.sum] adds a row of
    fewer than 8 items from left to right, starting from 0. *)
#[global] Instance binary64_arith : Arith float := {|
  f0 := PrimFloat.zero;
  f1 := PrimFloat.one;
  fadd := PrimFloat.add;
  fmul := PrimFloat.mul;
  fdiv := PrimFloat.div;
  fsqrt := PrimFloat.sqrt;
  fleb := PrimFloat.leb;
  flit := f64_lit;
  fsum := λ l, foldl PrimFloat.add PrimFloat.zero l;
  f32 := f64_to_f32
|}.

(** Arrays of binary64: the adjacency matrix of a star on three nodes, a
    2×3 array, and a 1-D array. *)
Definition star3 : ndarray float :=
  {| shape := [3; 3]; items := f64_of_Z <$> [0; 1; 1; 1; 0; 0; 1; 0; 0]%Z |}.
Definition wide : ndarray float :=
  {| shape := [2; 3]; items := f64_of_Z <$> [1; 2; 3; 4; 5; 6]%Z |}.
Definition flat : ndarray float :=
  {| shape := [4]; items := f64_of_Z <$> [0; 1; 1; 0]%Z |}.

(** A symmetric, non-negative 2×2 array of binary64. *)
Definition weighted2 : ndarray float :=
  {| shape := [2; 2]; items := f64_of_Z <$> [151; 610; 610; 1435]%Z |}.

(** A 3×1 array of binary64: one column. *)
Definition column3 : ndarray float :=
  {| shape := [3; 1]; items := f64_of_Z <$> [1; 2; 3]%Z |}.

(** ** Normalisation of the data ([read_data], the statistics) *)

(** The operations of the statistics that [Arith] lacks: the difference,
    and the mean of the values a reduction runs over (their sum over their
    number), as [np.mean] and [np.std] compute it. *)
Class Stats (F : Type) : Type := {
  fsub : F → F → F;
  fmean : list F → F
}.

(** An elementwise operation on a tensor. *)
Definition tensor_map {A B : Type} (f : A → B) (t : tensor A) : tensor B :=
  {| nodes := nodes t; channels := channels t;
     steps := (λ step : list (list A), (λ v : list A, f <$> v) <$> step) <$> steps t |}.

(** An item of [data_mean] after [squeeze().T]: a scalar when the data has
    one node, a node's series of 288 values otherwise. *)
Inductive profile (F : Type) : Type :=
  | Scalar (x : F)
  | Series (xs : list F).
Arguments Scalar {F} x.
Arguments Series {F} xs.

Section Normalization.
Context {F : Type} {arith : Arith F} {stats : Stats F}.

(** The scalars of channel [c]: what a reduction over the axes (0, 1)
    runs over. *)
Definition channel_values (data : tensor F) (c : nat) : list F :=
  (λ v : list F, default f0 (v !! c)) <$> concat (steps data).

(** [np.mean(data, axis=(0, 1))]: one entry per channel. *)
Definition np_mean01 (data : tensor F) : list F :=
  (λ c, fmean (channel_values data c)) <$> seq 0 (channels data).

(** [np.std(data, axis=(0, 1))]: the square root of the mean of the squared
    differences to the mean. *)
Definition np_std01 (data : tensor F) : list F :=
  (λ c, let values := channel_values data c in
        let arrmean := fmean values in
        fsqrt (fmean ((λ x, fmul (fsub x arrmean) (fsub x arrmean)) <$> values)))
  <$> seq 0 (channels data).

(** From [mean_value = np.mean(...)] to [std_value = std_value.reshape(-1)[0]]:
    the normalised data, and the mean and deviation of the first channel.
    The statistics, of shape (1, 1, channels), broadcast along the last
    axis. *)
Definition normalize (data : tensor F) : result (tensor F * F * F) :=
  let mean_value := np_mean01 data in
  let std_value := np_std01 data in
  let data :=
    {| nodes := nodes data; channels := channels data;
       steps :=
         (λ step : list (list F),
            (λ v : list F, zip_with fdiv (zip_with fsub v mean_value) std_value)
              <$> step) <$> steps data |} in
  mean_value ← getitem mean_value 0;
  std_value ← getitem std_value 0;
  Ok (data, mean_value, std_value).

(** [data_mean]: the first channel cut into days of 24 * 12 time steps, the
    days averaged, the result squeezed and transposed. Without a complete
    day the mean is a scalar and [data_mean.shape[0]] raises. *)
Definition daily_profiles (data : tensor F) : result (list (profile F)) :=
  let days := length (steps data) `div` (24 * 12) in
  slices ←
    mapR (λ i, first_channel ← channel0 data;
               Ok (py_slice first_channel (24 * 12 * Z.of_nat i)
                     (24 * 12 * (Z.of_nat i + 1))))
         (seq 0 days);
  if decide (days = 0) then Raise IndexError
  else
    let mean := λ s n, fmean ((λ day, default f0 (at2 day s n)) <$> slices) in
    if decide (nodes data = 1)
    then Ok ((λ s, Scalar (mean s 0)) <$> seq 0 (24 * 12))
    else Ok ((λ n, Series ((λ s, mean s n) <$> seq 0 (24 * 12)))
               <$> seq 0 (nodes data)).
End Normalization.

(** Exact statistics on the reals. *)
#[global] Instance real_stats : Stats R := {|
  fsub := Rminus;
  fmean := λ l, (foldr Rplus 0 l / INR (length l))%R
|}.

(** ** Files, caches and [read_data] *)

(** [files]: the archive and the edge list of each dataset. *)
Definition files : gmap string (list string) :=
  list_to_map
    [("pems03", ["PEMS03/pems03.npz"; "PEMS03/distance.csv"]);
     ("pems04", ["PEMS04/pems04.npz"; "PEMS04/distance.csv"]);
     ("pems07", ["PEMS07/pems07.npz"; "PEMS07/distance.csv"]);
     ("pems08", ["PEMS08/pems08.npz"; "PEMS08/distance.csv"]);
     ("pemsbay", ["PEMSBAY/pems_bay.npz"; "PEMSBAY/distance.csv"]);
     ("pemsD7M", ["PeMSD7M/PeMSD7M.npz"; "PeMSD7M/distance.csv"]);
     ("pemsD7L", ["PeMSD7L/PeMSD7L.npz"; "PeMSD7L/distance.csv"])]%string.

(** The attributes of [args] that [read_data] reads. *)
Record Args : Type := {
  filename : string;
  remote : bool
}.

(** [f'data/{filename}_dtw_distance.npy'] and
    [f'data/{filename}_spatial_distance.npy'] *)
Definition dtw_path (filename : string) : string :=
  ("data/" +:+ filename +:+ "_dtw_distance.npy")%string.
Definition spatial_path (filename : string) : string :=
  ("data/" +:+ filename +:+ "_spatial_distance.npy")%string.

(** What [read_data] raises: the exceptions of the array code, and those
    of the dict, the files, the literals of the edge list and the
    embedding library. *)
Inductive io_exn : Type :=
  | KeyError                 (* files[filename] *)
  | FileNotFoundError        (* np.load, open *)
  | WrongFileKind            (* a file that is not of the kind read *)
  | InvalidLiteral           (* the ValueError of int(...) and float(...) *)
  | TrainerError             (* an exception of the embedding library *)
  | ArrayError (e : exn).

Inductive outcome (A : Type) : Type :=
  | Return (a : A)
  | Throw (e : io_exn).
Arguments Return {A} a.
Arguments Throw {A} e.

Section FileSystem.
(** The float scalars and the state of the random sources. *)
Context {F Rng : Type}.

(** A file: an archive holding the array ['data'], a saved 2-D array, or a
    text file as [csv.reader] yields it, line by line, field by field. *)
Inductive file : Type :=
  | Npz (data : tensor F)
  | Npy (array : list (list F))
  | Csv (lines : list (list string)).

(** What [read_data] reads and changes: the files by path, and the random
    sources. A path is the string the code passes to the file system: two
    strings are two files, [./] and the working directory not being
    resolved. *)
Record world : Type := World {
  disk : gmap string file;
  rng : Rng
}.

(** A statement sequence: it ends normally with a value or with an
    exception, and leaves a world behind in both cases. *)
Definition io (A : Type) : Type := world → outcome A * world.

#[global] Instance io_ret : MRet io := λ A a w, (Return a, w).
#[global] Instance io_bind : MBind io := λ A B k c w,
  match c w with
  | (Return a, w') => k a w'
  | (Throw e, w') => (Throw e, w')
  end.

(** Array code, run in a world it does not touch. *)
Definition pure {A : Type} (r : result A) : io A := λ w,
  (match r with Ok a => Return a | Raise e => Throw (ArrayError e) end, w).

(** [os.path.exists(path)] *)
Definition os_path_exists (path : string) : io bool := λ w,
  (Return (bool_decide (is_Some (disk w !! path))), w).

(** [np.load(path)] of a saved array. *)
Definition np_load (path : string) : io (list (list F)) := λ w,
  (match disk w !! path with
   | Some (Npy array) => Return array
   | Some _ => Throw WrongFileKind
   | None => Throw FileNotFoundError
   end, w).

(** [np.load(path)['data']] *)
Definition np_load_data (path : string) : io (tensor F) := λ w,
  (match disk w !! path with
   | Some (Npz data) => Return data
   | Some _ => Throw WrongFileKind
   | None => Throw FileNotFoundError
   end, w).

(** [csv.reader(open(path, 'r'))], read to the end. *)
Definition open_csv (path : string) : io (list (list string)) := λ w,
  (match disk w !! path with
   | Some (Csv lines) => Return lines
   | Some _ => Throw WrongFileKind
   | None => Throw FileNotFoundError
   end, w).

(** [np.save(path, array)] *)
Definition np_save (path : string) (array : list (list F)) : io unit := λ w,
  (Return tt, {| disk := <[path := Npy array]> (disk w); rng := rng w |}).

(** A call that draws from the random sources. *)
Definition with_rng {A : Type} (call : Rng → result (A * Rng)) : io A := λ w,
  match call (rng w) with
  | Ok (a, g) => (Return a, {| disk := disk w; rng := g |})
  | Raise e => (Throw (ArrayError e), w)
  end.

(** A call into the embedding library, which draws from the random sources
    and may raise. *)
Definition library_call {A : Type} (call : Rng → option (A * Rng)) : io A := λ w,
  match call (rng w) with
  | Some (a, g) => (Return a, {| disk := disk w; rng := g |})
  | None => (Throw TrainerError, w)
  end.

(** [int(field)] and [float(field)] *)
Definition literal {A : Type} (parse : string → option A) (field : string) : io A :=
  λ w, (match parse field with Some a => Return a | None => Throw InvalidLiteral end, w).

(** [for x in xs: body], in a world. *)
Fixpoint io_for {A S : Type} (xs : list A) (body : A → S → io S) (s : S) : io S :=
  match xs with
  | [] => mret s
  | x :: xs' => s' ← body x s; io_for xs' body s'
  end.

(** [w'] holds the files of [w], unchanged, and saved arrays at paths in
    [allowed] where [w] had no file. *)
Definition grows (allowed : string → Prop) (w w' : world) : Prop :=
  ∀ q, disk w' !! q = disk w !! q ∨
       (disk w !! q = None ∧ allowed q ∧ ∃ array, disk w' !! q = Some (Npy array)).

(** The two worlds have the same random sources and the same files, the
    path [p] aside. *)
Definition agree_except (p : string) (w1 w2 : world) : Prop :=
  rng w1 = rng w2 ∧ ∀ q, q ≠ p → disk w1 !! q = disk w2 !! q.

(** Two statement sequences that worlds agreeing except at [p] cannot tell
    apart: they end the same way and leave worlds that still agree. *)
Definition alike (p : string) {A : Type} (c1 c2 : io A) : Prop :=
  ∀ w1 w2, agree_except p w1 w2 →
    (c1 w1).1 = (c2 w2).1 ∧ agree_except p (c1 w1).2 (c2 w2).2.
End FileSystem.
Arguments file F : clear implicits.
Arguments world F Rng : clear implicits.
Arguments io F Rng A : clear implicits.

Section ReadData.
(** The float scalars with their arithmetic and [float('inf')]; the
    embedding vectors; the random sources; [int] and [float] on a field of
    the edge list; [fastdtw(a, b, radius=6)[0]]; numpy's [random_interval];
    [train_node2vec] followed by the collection of [model.wv] into a dict;
    and [np.linalg.norm(a - b)]. Nothing is assumed of them. *)
Context {F V Rng : Type} `{EqDecision F} {arith : Arith F} {stats : Stats F}.
Context (inf : F)
        (py_int : string → option Z) (py_float : string → option F)
        (fastdtw : profile F → profile F → F)
        (random_interval : Rng → nat → nat * Rng)
        (train_node2vec : gmap nat (gmap nat F) → Rng → option (gmap nat V * Rng))
        (norm_diff : V → V → F).

(** The body of the second [for line in file]. *)
Definition edge_line (line : list string) (dist_matrix : list (list F))
  : io F Rng (list (list F)) :=
  start ← (field ← pure (getitem line 0); literal py_int field);
  end_ ← (field ← pure (getitem line 1); literal py_int field);
  d ← (field ← pure (getitem line 2); literal py_float field);
  dist_matrix ← pure (setitem2 dist_matrix start end_ d);
  d ← (field ← pure (getitem line 2); literal py_float field);
  pure (setitem2 dist_matrix end_ start d).

(** The line holds at least three fields, and [int], [int] and [float]
    convert the first three to the row. *)
Definition parses (line : list string) (row : @edge_row F) : Prop :=
  ∃ start end_ d rest,
    line = start :: end_ :: d :: rest ∧
    py_int start = Some row.1.1 ∧ py_int end_ = Some row.1.2 ∧
    py_float d = Some row.2.

(** The loops over the lines of the edge list: the first consumes the
    header, if there is one, and the second reads the others. *)
Definition spatial_from_csv (num_nodes : nat) (lines : list (list string))
  : io F Rng (list (list F)) :=
  io_for (drop 1 lines) edge_line (np_full num_nodes num_nodes inf).

(** [if not os.path.exists(...)] on the DTW cache, up to [np.save]. *)
Definition dtw_block (filename : string) (data : tensor F) : io F Rng () :=
  cached ← os_path_exists (dtw_path filename);
  if (cached : bool) then mret ()
  else
    data_mean ← pure (daily_profiles data);
    dtw_distance ← pure (dtw_distance f0 fastdtw data_mean);
    np_save (dtw_path filename) dtw_distance.

(** [if not os.path.exists(...)] on the spatial cache, up to [np.save];
    [file] is the entry of [files]. *)
Definition spatial_block (filepath : string) (file : list string)
    (filename : string) (num_nodes : nat) : io F Rng () :=
  cached ← os_path_exists (spatial_path filename);
  if (cached : bool) then mret ()
  else
    name ← pure (getitem file 1);
    lines ← open_csv (filepath +:+ name);
    dist_matrix ← spatial_from_csv num_nodes lines;
    np_save (spatial_path filename) dist_matrix.

Definition read_data (args : Args)
  : io F Rng (tensor F * F * F * list (list F) * list (list F)) :=
  let filename := filename args in
  file ← (λ w, (match files !! filename with
                 | Some file => Return file
                 | None => Throw KeyError
                 end, w));
  let filepath :=
    (if remote args then "/home/lantu.lqq/ftemp/data/" else "./data/")%string in
  name ← pure (getitem file 0);
  data ← np_load_data (filepath +:+ name);
  '(data, mean_value, std_value) ← pure (normalize data);
  dtw_block filename data;;
  dist_matrix ← np_load (dtw_path filename);
  spatial_block filepath file filename (nodes data);;
  dist_matrix ← np_load (spatial_path filename);
  let num_nodes := nodes data in
  selected_nodes ← with_rng (select_nodes random_interval num_nodes);
  G ← pure (generate_graph inf num_nodes dist_matrix selected_nodes);
  node_embeddings ← library_call (train_node2vec G);
  '(dtw_matrix, sp_matrix) ←
    pure (derive_similarity f0 norm_diff num_nodes selected_nodes node_embeddings);
  mret (tensor_map f32 data, mean_value, std_value, dtw_matrix, sp_matrix).
End ReadData.

(** Converters for running the model: a field of decimal digits, with a
    sign or without, as an integer, and as a distance in [option nat], [None]
    being infinity. *)
Definition sample_int (field : string) : option Z :=
  Z.of_int <$> NilZero.int_of_string field.
Definition sample_float (field : string) : option (option nat) :=
  (λ z, Some (Z.to_nat z)) <$> sample_int field.

(** An edge list on three nodes as a file: a header, and the rows of
    [sample_rows], the last with a fourth field. *)
Definition sample_lines : list (list string) :=
  [["from"; "to"; "cost"]; ["0"; "1"; "5"]; ["1"; "2"; "7"]; ["-1"; "0"; "9"; "note"]].

(** Equality of reals, for [!=] in exact arithmetic. *)
#[global] Instance R_eq_dec : EqDecision R := Req_dec_T.

(** A run of [read_data] in exact arithmetic: two time steps of two nodes
    and one channel as the archive of pems03; the random sources are a
    counter; the engine finds every distance zero; the embedding of a node
    is its number of neighbours; -1 stands for infinity. *)
Definition sample_data : tensor R :=
  {| nodes := 2; channels := 1; steps := [[[1]; [3]]; [[3]; [1]]]%R |}.
Definition sample_args : Args := {| filename := "pems03"; remote := false |}.
Definition sample_engine (a b : profile R) : R := 0%R.
Definition sample_trainer (G : gmap nat (gmap nat R)) (g : nat)
  : option (gmap nat nat * nat) :=
  Some (size <$> G, S g).
Definition sample_norm_diff (a b : nat) : R := INR (sample_norm a b).

(** The archive alone on disk, and the archive with both caches, the DTW
    cache holding [dtw]. *)
Definition sample_world_cold : world R nat :=
  {| disk := {[ "./data/PEMS03/pems03.npz" := Npz sample_data ]}; rng := 0 |}.
Definition sample_world (dtw : list (list R)) : world R nat :=
  {| disk := <[dtw_path "pems03" := Npy dtw]>
               (<[spatial_path "pems03" := Npy [[-1; 4]; [4; -1]]%R]>
                  (disk sample_world_cold));
     rng := 0 |}.

(** A disk with the edge list of pems03 on three nodes, and the matrix of
    that edge list. *)
Definition sample_csv_world : world (option nat) nat :=
  {| disk := {[ "./data/PEMS03/distance.csv" := Csv sample_lines ]}; rng := 0 |}.
Definition sample_matrix : list (list (option nat)) :=
  [[None; Some 5; Some 9]; [Some 5; None; Some 7]; [Some 9; Some 7; None]].

(** 300 time steps of two nodes and one channel: a day and twelve steps. *)
Definition sample_long : tensor R :=
  {| nodes := 2; channels := 1; steps := replicate 300 [[1]; [3]]%R |}.
(** * Properties *)

(** ** The result monad and loops *)

Lemma bind_Ok {A B : Type} (r : result A) (k : A → result B) (a : A) :
  r = Ok a → (r ≫= k) = k a.
Proof. by intros ->. Qed.

(** Invariant rule for a loop over [range(a, a + len)]. *)
Lemma for_seq_inv {S : Type} (I : nat → S → Prop) (a len : nat)
    (body : nat → S → result S) (s : S) :
  I a s →
  (∀ k s, a ≤ k < a + len → I k s → ∃ s', body k s = Ok s' ∧ I (Datatypes.S k) s') →
  ∃ s', for_ (seq a len) body s = Ok s' ∧ I (a + len) s'.
Proof.
  revert a s. induction len as [|len IH]; intros a s Ha Hstep; simpl.
  - exists s. by rewrite Nat.add_0_r.
  - destruct (Hstep a s) as (s1 & Hb & H1); [lia | done |].
    rewrite Hb. simpl.
    destruct (IH (Datatypes.S a) s1) as (s2 & Hf & H2); [done | |].
    + intros k s' Hk. apply Hstep. lia.
    + exists s2. split; [done |]. by replace (a + Datatypes.S len) with (Datatypes.S a + len) by lia.
Qed.

(** Invariant rule for a loop over any list: [I] is indexed by the elements
    already visited. *)
Lemma for_list_inv {A S : Type} (I : list A → S → Prop) (xs : list A)
    (body : A → S → result S) (s : S) :
  I [] s →
  (∀ pre x s, x ∈ xs → I pre s → ∃ s', body x s = Ok s' ∧ I (pre ++ [x]) s') →
  ∃ s', for_ xs body s = Ok s' ∧ I xs s'.
Proof.
  intros H0 Hstep.
  cut (∀ pre s, I pre s → (∀ x, x ∈ xs → x ∈ xs) →
         ∀ rest, (∀ x, x ∈ rest → x ∈ xs) →
         ∃ s', for_ rest body s = Ok s' ∧ I (pre ++ rest) s').
  { intros Hcut. destruct (Hcut [] s H0 (λ _ h, h) xs (λ _ h, h)) as (s' & ? & ?).
    by exists s'. }
  intros pre s0 Hpre _ rest. revert pre s0 Hpre.
  induction rest as [|x rest IH]; intros pre s0 Hpre Hin; simpl.
  - exists s0. by rewrite app_nil_r.
  - destruct (Hstep pre x s0) as (s1 & Hb & H1); [apply Hin; left | done |].
    rewrite Hb. simpl.
    destruct (IH (pre ++ [x]) s1 H1) as (s2 & Hf & H2).
    + intros y Hy. apply Hin. by right.
    + exists s2. split; [done |]. by rewrite <- app_assoc in H2.
Qed.

(** ** numpy indexing *)

Lemma np_index_nat (len i : nat) : i < len → np_index len (Z.of_nat i) = Ok i.
Proof.
  intros Hi. unfold np_index. rewrite decide_True by lia. by rewrite Nat2Z.id.
Qed.

Lemma np_index_pos (len : nat) (i : Z) :
  np_valid len i → np_index len i = Ok (np_pos len i) ∧ np_pos len i < len.
Proof.
  unfold np_valid, np_index, np_pos. intros Hi.
  destruct (decide (0 ≤ i < Z.of_nat len)%Z) as [Hin | Hout].
  - rewrite decide_True by lia. split; [done | lia].
  - rewrite (decide_True (P := (- Z.of_nat len ≤ i < 0)%Z)) by lia.
    rewrite decide_False by lia. split; [done | lia].
Qed.

Lemma np_index_Ok (len : nat) (i : Z) (k : nat) :
  np_index len i = Ok k → k < len ∧ k = np_pos len i.
Proof.
  unfold np_index, np_pos. intros H. repeat case_decide; simplify_eq; lia.
Qed.

Lemma np_pos_nat (len i : nat) : np_pos len (Z.of_nat i) = i.
Proof. unfold np_pos. rewrite decide_True by lia. apply Nat2Z.id. Qed.

Lemma getitem_Ok {A : Type} (l : list A) (i : Z) (k : nat) (x : A) :
  np_index (length l) i = Ok k → l !! k = Some x → getitem l i = Ok x.
Proof. intros Hk Hx. unfold getitem. rewrite Hk. simpl. by rewrite Hx. Qed.

Lemma getitem_nat {A : Type} (l : list A) (i : nat) (x : A) :
  l !! i = Some x → getitem l (Z.of_nat i) = Ok x.
Proof.
  intros Hx. eapply getitem_Ok; [| exact Hx].
  apply np_index_nat. by eapply lookup_lt_Some.
Qed.

Lemma setitem_Ok {A : Type} (l : list A) (i : Z) (k : nat) (x : A) :
  np_index (length l) i = Ok k → setitem l i x = Ok (<[k := x]> l).
Proof. intros Hk. unfold setitem. by rewrite Hk. Qed.

Lemma mat_spec_ext {A : Type} (n m : nat) (M : list (list A)) (g h : nat → nat → A) :
  (∀ i j, i < n → j < m → g i j = h i j) → mat_spec n m M g → mat_spec n m M h.
Proof.
  intros Hgh [Hlen Hrows]. split; [done |].
  intros i Hi. destruct (Hrows i Hi) as (row & Hrow & Hl & Hc).
  exists row. repeat split; try done.
  intros j Hj. rewrite <- Hgh by done. by apply Hc.
Qed.

Lemma mat_spec_cell {A : Type} (n m : nat) (M : list (list A)) (g : nat → nat → A)
    (i j : nat) :
  mat_spec n m M g → i < n → j < m → cell M i j = Some (g i j).
Proof.
  intros [_ Hrows] Hi Hj. destruct (Hrows i Hi) as (row & Hrow & _ & Hc).
  unfold cell. rewrite Hrow. simpl. by apply Hc.
Qed.

Lemma mat_spec_full {A : Type} (n m : nat) (fill : A) :
  mat_spec n m (np_full n m fill) (λ _ _, fill).
Proof.
  split; [apply length_replicate |].
  intros i Hi. exists (replicate m fill). repeat split.
  - by apply lookup_replicate_2.
  - apply length_replicate.
  - intros j Hj. by apply lookup_replicate_2.
Qed.

Lemma getitem2_spec {A : Type} (n m : nat) (M : list (list A)) (g : nat → nat → A)
    (i j : nat) :
  mat_spec n m M g → i < n → j < m →
  getitem2 M (Z.of_nat i) (Z.of_nat j) = Ok (g i j).
Proof.
  intros [_ Hrows] Hi Hj. destruct (Hrows i Hi) as (row & Hrow & _ & Hc).
  unfold getitem2. rewrite (getitem_nat _ _ _ Hrow). simpl.
  apply getitem_nat. by apply Hc.
Qed.

Lemma setitem2_spec_pos {A : Type} (n m : nat) (M : list (list A))
    (g : nat → nat → A) (i j : Z) (v : A) :
  mat_spec n m M g → np_valid n i → np_valid m j →
  ∃ M', setitem2 M i j v = Ok M' ∧ mat_spec n m M' (upd g (np_pos n i) (np_pos m j) v).
Proof.
  intros [Hlen Hrows] Hvi Hvj.
  destruct (np_index_pos n i Hvi) as [Hi Hin].
  destruct (np_index_pos m j Hvj) as [Hj Hjm].
  set (a := np_pos n i) in *. set (b := np_pos m j) in *.
  destruct (Hrows a Hin) as (row & Hrow & Hl & Hc).
  exists (<[a := <[b := v]> row]> M). split.
  - unfold setitem2. rewrite (getitem_Ok M i a row) by (by rewrite ?Hlen).
    simpl. rewrite (setitem_Ok row j b) by (by rewrite Hl). simpl.
    apply setitem_Ok. by rewrite Hlen.
  - split; [by rewrite length_insert |].
    intros a' Ha. destruct (decide (a' = a)) as [-> | Hne].
    + exists (<[b := v]> row). repeat split.
      * apply list_lookup_insert_eq. lia.
      * by rewrite length_insert.
      * intros b' Hb. unfold upd. destruct (decide (b' = b)) as [-> | Hbj].
        -- rewrite decide_True by done. apply list_lookup_insert_eq. lia.
        -- rewrite decide_False by (intros [? ?]; done).
           rewrite list_lookup_insert_ne by done. by apply Hc.
    + destruct (Hrows a' Ha) as (row' & Hrow' & Hl' & Hc').
      exists row'. repeat split; try done.
      * by rewrite list_lookup_insert_ne.
      * intros b' Hb. unfold upd. rewrite decide_False by (intros [? ?]; done).
        by apply Hc'.
Qed.

Lemma setitem2_spec {A : Type} (n m : nat) (M : list (list A)) (g : nat → nat → A)
    (i j : nat) (v : A) :
  mat_spec n m M g → i < n → j < m →
  ∃ M', setitem2 M (Z.of_nat i) (Z.of_nat j) v = Ok M' ∧ mat_spec n m M' (upd g i j v).
Proof.
  intros HM Hi Hj.
  destruct (setitem2_spec_pos n m M g (Z.of_nat i) (Z.of_nat j) v HM) as (M' & H1 & H2).
  - unfold np_valid. lia.
  - unfold np_valid. lia.
  - exists M'. split; [done |]. by rewrite !np_pos_nat in H2.
Qed.

(** ** Sequence-alignment distance matrix *)

Section DtwDistanceProofs.
Context {P F : Type} (zero : F) (fastdtw : P → P → F).

Lemma dtw_fill_spec (data_mean : list P) :
  let n := length data_mean in
  ∃ M, dtw_fill fastdtw data_mean (np_full n n zero) = Ok M ∧
       mat_spec n n M (fill_state zero fastdtw data_mean n n).
Proof.
  intros n. unfold dtw_fill. fold n.
  destruct (for_seq_inv (λ i M, mat_spec n n M (fill_state zero fastdtw data_mean i i)) 0 n
    (λ i M, for_ (seq i (n - i)) (λ j M,
       a ← getitem data_mean (Z.of_nat i);
       b ← getitem data_mean (Z.of_nat j);
       setitem2 M (Z.of_nat i) (Z.of_nat j) (fastdtw a b)) M)
    (np_full n n zero)) as (M & HM & Hspec).
  - eapply mat_spec_ext; [| apply mat_spec_full].
    intros a b _ _. unfold fill_state. rewrite decide_False; [done | lia].
  - intros i M [_ Hi] HI. simpl in Hi.
    destruct (for_seq_inv (λ k M, mat_spec n n M (fill_state zero fastdtw data_mean i k))
      i (n - i) (λ j M,
       a ← getitem data_mean (Z.of_nat i);
       b ← getitem data_mean (Z.of_nat j);
       setitem2 M (Z.of_nat i) (Z.of_nat j) (fastdtw a b)) M HI)
      as (M' & HM' & Hspec').
    + intros j M0 Hj HI0.
      destruct (lookup_lt_is_Some_2 data_mean i) as [pa Hpa]; [fold n; lia |].
      destruct (lookup_lt_is_Some_2 data_mean j) as [pb Hpb]; [fold n; lia |].
      rewrite (getitem_nat _ _ _ Hpa). simpl.
      rewrite (getitem_nat _ _ _ Hpb). simpl.
      destruct (setitem2_spec n n M0 _ i j (fastdtw pa pb) HI0) as (M1 & HM1 & Hs1);
        [lia | lia |].
      exists M1. split; [done |].
      eapply mat_spec_ext; [| exact Hs1].
      intros a b Ha Hb. unfold upd, fill_state, dtw_of.
      repeat case_decide; try lia; try done.
      destruct H as [-> ->]. by rewrite Hpa, Hpb.
    + exists M'. split; [done |].
      eapply mat_spec_ext; [| exact Hspec'].
      intros a b Ha Hb. unfold fill_state. repeat case_decide; try lia; done.
  - exists M. split; [done |]. by rewrite Nat.add_0_l in Hspec.
Qed.

Lemma dtw_mirror_spec (data_mean : list P) (M : list (list F)) :
  let n := length data_mean in
  mat_spec n n M (fill_state zero fastdtw data_mean n n) →
  ∃ M', dtw_mirror n M = Ok M' ∧ mat_spec n n M' (mirror_state zero fastdtw data_mean n 0).
Proof.
  intros n HM. unfold dtw_mirror.
  destruct (for_seq_inv (λ i M, mat_spec n n M (mirror_state zero fastdtw data_mean i 0)) 0 n
    (λ i M, for_ (seq 0 i) (λ j M,
       v ← getitem2 M (Z.of_nat j) (Z.of_nat i);
       setitem2 M (Z.of_nat i) (Z.of_nat j) v) M) M) as (M' & HM' & Hspec).
  - eapply mat_spec_ext; [| exact HM].
    intros a b Ha Hb. unfold fill_state, mirror_state.
    repeat case_decide; try lia; done.
  - intros i M0 [_ Hi] HI. simpl in Hi.
    destruct (for_seq_inv (λ k M, mat_spec n n M (mirror_state zero fastdtw data_mean i k))
      0 i (λ j M,
       v ← getitem2 M (Z.of_nat j) (Z.of_nat i);
       setitem2 M (Z.of_nat i) (Z.of_nat j) v) M0) as (M1 & HM1 & Hspec1).
    + exact HI.
    + intros j M2 Hj HI2. simpl in Hj.
      rewrite (getitem2_spec n n M2 _ j i HI2) by lia. simpl.
      destruct (setitem2_spec n n M2 _ i j (mirror_state zero fastdtw data_mean i j j i) HI2)
        as (M3 & HM3 & Hs3); [lia | lia |].
      exists M3. split; [done |].
      eapply mat_spec_ext; [| exact Hs3].
      intros a b Ha Hb. unfold upd, mirror_state.
      repeat case_decide; try lia; try done.
      by destruct H as [-> ->].
    + exists M1. split; [done |].
      eapply mat_spec_ext; [| exact Hspec1].
      intros a b Ha Hb. unfold mirror_state. repeat case_decide; try lia; done.
  - exists M'. split; [done |]. by rewrite Nat.add_0_l in Hspec.
Qed.
End DtwDistanceProofs.

(** C5. The semantic distance matrix is built without error, is N×N, holds the
    engine's distance of the profiles of [min i j] and [max i j] at the cell
    [(i, j)] (the upper triangle is computed, the lower one copied from it),
    and is therefore symmetric: [dist[i][j] == dist[j][i]] for all nodes. *)
Theorem dtw_distance_symmetric {P F : Type} (zero : F) (fastdtw : P → P → F)
    (data_mean : list P) :
  ∃ dist, dtw_distance zero fastdtw data_mean = Ok dist ∧
    length dist = length data_mean ∧
    ∀ i j, i < length data_mean → j < length data_mean →
      ∃ a b, data_mean !! (i `min` j) = Some a ∧
             data_mean !! (i `max` j) = Some b ∧
             cell dist i j = Some (fastdtw a b) ∧
             cell dist j i = cell dist i j.
Proof.
  destruct (dtw_fill_spec zero fastdtw data_mean) as (M & HM & Hfill).
  destruct (dtw_mirror_spec zero fastdtw data_mean M Hfill) as (M' & HM' & Hmir).
  exists M'. split; [| split].
  - unfold dtw_distance. by rewrite HM.
  - by destruct Hmir.
  - intros i j Hi Hj.
    destruct (lookup_lt_is_Some_2 data_mean (i `min` j)) as [a Ha]; [lia |].
    destruct (lookup_lt_is_Some_2 data_mean (i `max` j)) as [b Hb]; [lia |].
    exists a, b. split; [done |]. split; [done |].
    rewrite (mat_spec_cell _ _ _ _ i j Hmir Hi Hj).
    rewrite (mat_spec_cell _ _ _ _ j i Hmir Hj Hi).
    assert (mirror_state zero fastdtw data_mean (length data_mean)
              0 i j = fastdtw a b) as Hij.
    { unfold mirror_state, dtw_of. repeat case_decide; try lia.
      - replace (i `min` j) with j in Ha by lia.
        replace (i `max` j) with i in Hb by lia. by rewrite Ha, Hb.
      - replace (i `min` j) with i in Ha by lia.
        replace (i `max` j) with j in Hb by lia. by rewrite Ha, Hb. }
    assert (mirror_state zero fastdtw data_mean (length data_mean)
              0 j i = fastdtw a b) as Hji.
    { unfold mirror_state, dtw_of. repeat case_decide; try lia.
      - replace (i `min` j) with i in Ha by lia.
        replace (i `max` j) with j in Hb by lia. by rewrite Ha, Hb.
      - replace (i `min` j) with j in Ha by lia.
        replace (i `max` j) with i in Hb by lia. by rewrite Ha, Hb. }
    by rewrite Hij, Hji.
Qed.

(** ** Spatial distance matrix *)

Lemma mat_spec_rows {A : Type} (n m : nat) (M : list (list A)) (g : nat → nat → A) :
  mat_spec n m M g → Forall (λ row, length row = m) M.
Proof.
  intros [Hlen Hrows]. apply Forall_lookup. intros i row Hi.
  destruct (Hrows i) as (row' & Hrow' & Hl & _).
  - rewrite <- Hlen. by eapply lookup_lt_Some.
  - by simplify_eq.
Qed.

Section SpatialDistanceProofs.
Context {F : Type} (inf : F).
Implicit Types (rows : list (@edge_row F)) (row : @edge_row F).

Lemma spatial_cells_snoc (N : nat) rows row :
  spatial_cells inf N (rows ++ [row]) = edge_step N (spatial_cells inf N rows) row.
Proof. unfold spatial_cells. by rewrite foldl_app. Qed.

Lemma touches_sym (N : nat) row (i j : nat) : touches N row i j → touches N row j i.
Proof. destruct row as [[s e] d]. unfold touches. tauto. Qed.

Lemma edge_step_touched (N : nat) (g : nat → nat → F) (s e : Z) (d : F) (i j : nat) :
  touches N (s, e, d) i j → edge_step N g (s, e, d) i j = d.
Proof.
  unfold touches, edge_step, upd. intros Ht.
  repeat case_decide; try done. exfalso. intuition.
Qed.

Lemma edge_step_untouched (N : nat) (g : nat → nat → F) row (i j : nat) :
  ¬ touches N row i j → edge_step N g row i j = g i j.
Proof.
  destruct row as [[s e] d]. unfold touches, edge_step, upd. intros Ht.
  repeat case_decide; try done; exfalso; intuition.
Qed.

Lemma spatial_cells_sym (N : nat) rows (i j : nat) :
  spatial_cells inf N rows i j = spatial_cells inf N rows j i.
Proof.
  induction rows as [|row rows IH] using rev_ind; [done |].
  rewrite spatial_cells_snoc. destruct row as [[s e] d].
  destruct (decide (touches N (s, e, d) i j)) as [Ht | Hn].
  - rewrite !edge_step_touched; [done | by apply touches_sym | done].
  - rewrite !edge_step_untouched; [done | | done].
    intros Ht. by apply Hn, touches_sym.
Qed.

Lemma spatial_cells_untouched (N : nat) rows (i j : nat) :
  (∀ row, row ∈ rows → ¬ touches N row i j) → spatial_cells inf N rows i j = inf.
Proof.
  induction rows as [|row rows IH] using rev_ind; intros Hn; [done |].
  rewrite spatial_cells_snoc, edge_step_untouched.
  - apply IH. intros r Hr. apply Hn. apply elem_of_app. by left.
  - apply Hn. apply elem_of_app. right. by apply list_elem_of_singleton.
Qed.

Lemma spatial_cells_last (N : nat) rows (s e : Z) (d : F) post (i j : nat) :
  touches N (s, e, d) i j →
  (∀ row, row ∈ post → ¬ touches N row i j) →
  spatial_cells inf N (rows ++ (s, e, d) :: post) i j = d.
Proof.
  intros Ht. induction post as [|row post IH] using rev_ind; intros Hn.
  - rewrite spatial_cells_snoc. by apply edge_step_touched.
  - replace (rows ++ (s, e, d) :: post ++ [row])
      with ((rows ++ (s, e, d) :: post) ++ [row]) by (by rewrite <- app_assoc).
    rewrite spatial_cells_snoc, edge_step_untouched.
    + apply IH. intros r Hr. apply Hn. apply elem_of_app. by left.
    + apply Hn. apply elem_of_app. right. by apply list_elem_of_singleton.
Qed.

Lemma spatial_distance_spec (N : nat) rows :
  Forall (λ row, np_valid N row.1.1 ∧ np_valid N row.1.2) rows →
  ∃ M, spatial_distance inf N rows = Ok M ∧ mat_spec N N M (spatial_cells inf N rows).
Proof.
  intros Hvalid. unfold spatial_distance.
  apply (for_list_inv (λ pre M, mat_spec N N M (spatial_cells inf N pre))).
  - apply mat_spec_full.
  - intros pre [[s e] d] M Hin HM.
    rewrite Forall_forall in Hvalid. destruct (Hvalid _ Hin) as [Hs He]. simpl in Hs, He.
    destruct (setitem2_spec_pos N N M _ s e d HM Hs He) as (M1 & HM1 & Hs1).
    rewrite HM1. simpl.
    destruct (setitem2_spec_pos N N M1 _ e s d Hs1 He Hs) as (M2 & HM2 & Hs2).
    exists M2. split; [done |]. by rewrite spatial_cells_snoc.
Qed.
End SpatialDistanceProofs.

(** C6. From an edge list whose node ids index the matrix, the spatial
    distance matrix is built without error and is N×N; each row
    [(start, end, d)] sets the cells [start][end] and [end][start] to [d]
    (the last row to write a cell gives it its value); a cell no row writes
    holds infinity; and the matrix is symmetric. *)
Theorem spatial_distance_symmetric {F : Type} (inf : F) (N : nat)
    (rows : list (@edge_row F)) :
  Forall (λ row, np_valid N row.1.1 ∧ np_valid N row.1.2) rows →
  ∃ M, spatial_distance inf N rows = Ok M ∧
    length M = N ∧ Forall (λ r, length r = N) M ∧
    (∀ pre start end_ d post,
        rows = pre ++ (start, end_, d) :: post →
        (∀ row, row ∈ post → ¬ touches N row (np_pos N start) (np_pos N end_)) →
        cell M (np_pos N start) (np_pos N end_) = Some d ∧
        cell M (np_pos N end_) (np_pos N start) = Some d) ∧
    (∀ i j, i < N → j < N →
        (∀ row, row ∈ rows → ¬ touches N row i j) → cell M i j = Some inf) ∧
    (∀ i j, i < N → j < N → cell M i j = cell M j i).
Proof.
  intros Hvalid.
  destruct (spatial_distance_spec inf N rows Hvalid) as (M & HM & Hspec).
  exists M. split; [done |]. split; [by destruct Hspec |].
  split; [by eapply mat_spec_rows |]. split; [| split].
  - intros pre s e d post -> Hpost.
    rewrite Forall_forall in Hvalid.
    destruct (Hvalid (s, e, d)) as [Hs He].
    { apply elem_of_app. right. by left. }
    simpl in Hs, He.
    destruct (np_index_pos N s Hs) as [_ Hs'].
    destruct (np_index_pos N e He) as [_ He'].
    rewrite !(mat_spec_cell N N M _ _ _ Hspec) by done.
    split; f_equal; apply spatial_cells_last; try done.
    + by left.
    + by right.
    + intros row Hrow Ht. apply (Hpost row Hrow). by apply touches_sym.
  - intros i j Hi Hj Hn.
    rewrite (mat_spec_cell N N M _ i j Hspec) by done.
    f_equal. by apply spatial_cells_untouched.
  - intros i j Hi Hj.
    rewrite !(mat_spec_cell N N M _ _ _ Hspec) by done.
    f_equal. apply spatial_cells_sym.
Qed.

Lemma spatial_distance_symmetric_witness :
  Forall (λ row, np_valid 3 row.1.1 ∧ np_valid 3 row.1.2) sample_rows ∧
  ∃ M, spatial_distance None 3 sample_rows = Ok M ∧
    length M = 3 ∧ Forall (λ r, length r = 3) M ∧
    (∀ pre start end_ d post,
        sample_rows = pre ++ (start, end_, d) :: post →
        (∀ row, row ∈ post → ¬ touches 3 row (np_pos 3 start) (np_pos 3 end_)) →
        cell M (np_pos 3 start) (np_pos 3 end_) = Some d ∧
        cell M (np_pos 3 end_) (np_pos 3 start) = Some d) ∧
    (∀ i j, i < 3 → j < 3 →
        (∀ row, row ∈ sample_rows → ¬ touches 3 row i j) → cell M i j = Some None) ∧
    (∀ i j, i < 3 → j < 3 → cell M i j = cell M j i).
Proof.
  assert (Forall (λ row : @edge_row (option nat), np_valid 3 row.1.1 ∧ np_valid 3 row.1.2)
            sample_rows) as Hvalid.
  { repeat constructor; unfold np_valid; simpl; lia. }
  split; [exact Hvalid |].
  exact (spatial_distance_symmetric None 3 sample_rows Hvalid).
Defined.

(** The matrix of [sample_rows], computed: the row [(-1, 0, 9)] lands on
    node 2. *)
Example spatial_distance_example :
  spatial_distance None 3 sample_rows
  = Ok [[None; Some 5; Some 9]; [Some 5; None; Some 7]; [Some 9; Some 7; None]].
Proof. vm_compute. reflexivity. Qed.

(** A node id outside the matrix stops the build. *)
Example spatial_distance_out_of_range :
  spatial_distance None 3 [(0%Z, 3%Z, Some 5)] = Raise IndexError.
Proof. vm_compute. reflexivity. Qed.

(** ** Similarity matrices *)

Section SimilarityDeriverProofs.
Context {V F : Type} (zero : F) (norm_diff : V → V → F).

(** Both sides are conditionals on list membership: split them and leave
    the membership facts to [set_solver]. *)
Local Ltac cells_eq :=
  intros ? ? _ _; unfold upd, similarity_state;
  repeat case_decide; destruct_and?; simplify_eq; try done;
  try (exfalso; set_solver).

Lemma similarity_state_start (S : list nat) (E : gmap nat V) (a b : nat) :
  similarity_state zero norm_diff S E [] 0 [] a b = zero.
Proof. unfold similarity_state. case_decide; [exfalso; set_solver | done]. Qed.

Lemma similarity_inner_step (N : nat) (S : list nat) (E : gmap nat V)
    (pre : list nat) (i : nat) (pre2 : list nat) (j : nat)
    (dtw sp : list (list F)) :
  i < N → j < N →
  dtw = sp →
  mat_spec N N dtw (similarity_state zero norm_diff S E pre i pre2) →
  ∃ st,
    match decide (i ≠ j), E !! i, E !! j with
    | left _, Some ei, Some ej =>
        dtw_matrix ← setitem2 dtw (Z.of_nat i) (Z.of_nat j) (norm_diff ei ej);
        sp_matrix ← setitem2 sp (Z.of_nat i) (Z.of_nat j) (norm_diff ei ej);
        Ok (dtw_matrix, sp_matrix)
    | _, _, _ => Ok (dtw, sp)
    end = Ok st ∧
    st.1 = st.2 ∧
    mat_spec N N st.1 (similarity_state zero norm_diff S E pre i (pre2 ++ [j])).
Proof.
  intros HiN HjN <- Hst.
  assert (∀ M, mat_spec N N M (upd (similarity_state zero norm_diff S E pre i pre2)
                                 i j (pair_distance zero norm_diff E i j)) →
               mat_spec N N M (similarity_state zero norm_diff S E pre i (pre2 ++ [j])))
    as Hupd.
  { intros M. apply mat_spec_ext. cells_eq. }
  assert (pair_distance zero norm_diff E i j = zero →
          mat_spec N N dtw (similarity_state zero norm_diff S E pre i (pre2 ++ [j])))
    as Hskip.
  { intros Hz. eapply mat_spec_ext; [| exact Hst].
    intros a b _ _. unfold similarity_state.
    repeat case_decide; try done.
    - exfalso. set_solver.
    - assert (a = i ∧ b = j) as [-> ->] by set_solver. done. }
  unfold pair_distance in Hupd, Hskip.
  destruct (decide (i ≠ j)) as [Hne | Heq];
    [destruct (E !! i) as [ei |]; [destruct (E !! j) as [ej |] |] |];
    try (exists (dtw, dtw); split; [done |]; split; [done |]; by apply Hskip).
  destruct (setitem2_spec N N dtw _ i j (norm_diff ei ej) Hst HiN HjN)
    as (M1 & HM1 & Hs1).
  rewrite HM1. simpl.
  exists (M1, M1). split; [done |]. split; [done |]. by apply Hupd.
Qed.

Lemma derive_similarity_spec (N : nat) (S : list nat) (E : gmap nat V) :
  Forall (λ i, i < N) S →
  ∃ M, derive_similarity zero norm_diff N S E = Ok (M, M) ∧
       mat_spec N N M (similarity_state zero norm_diff S E S 0 []).
Proof.
  intros Hin. rewrite Forall_forall in Hin. unfold derive_similarity.
  destruct (for_list_inv
    (λ pre (st : list (list F) * list (list F)),
       st.1 = st.2 ∧ mat_spec N N st.1 (similarity_state zero norm_diff S E pre 0 []))
    S
    (λ i matrices,
      for_ S (λ j '(dtw_matrix, sp_matrix),
        match decide (i ≠ j), E !! i, E !! j with
        | left _, Some ei, Some ej =>
            dtw_matrix ← setitem2 dtw_matrix (Z.of_nat i) (Z.of_nat j) (norm_diff ei ej);
            sp_matrix ← setitem2 sp_matrix (Z.of_nat i) (Z.of_nat j) (norm_diff ei ej);
            Ok (dtw_matrix, sp_matrix)
        | _, _, _ => Ok (dtw_matrix, sp_matrix)
        end) matrices)
    (np_full N N zero, np_full N N zero)) as ([M M'] & HM & Heq & Hspec).
  - split; [done |]. simpl.
    eapply mat_spec_ext; [| apply mat_spec_full].
    intros a b _ _. by rewrite similarity_state_start.
  - intros pre i st Hi [Heq Hst].
    destruct (for_list_inv
      (λ pre2 (st : list (list F) * list (list F)),
         st.1 = st.2 ∧
         mat_spec N N st.1 (similarity_state zero norm_diff S E pre i pre2))
      S
      (λ j '(dtw_matrix, sp_matrix),
        match decide (i ≠ j), E !! i, E !! j with
        | left _, Some ei, Some ej =>
            dtw_matrix ← setitem2 dtw_matrix (Z.of_nat i) (Z.of_nat j) (norm_diff ei ej);
            sp_matrix ← setitem2 sp_matrix (Z.of_nat i) (Z.of_nat j) (norm_diff ei ej);
            Ok (dtw_matrix, sp_matrix)
        | _, _, _ => Ok (dtw_matrix, sp_matrix)
        end) st) as (st' & Hst' & Heq' & Hspec').
    + cbn beta. split; [done |]. eapply mat_spec_ext; [| exact Hst]. cells_eq.
    + cbn beta. intros pre2 j [dtw sp] Hj [Heq2 Hst2]. simpl in Heq2, Hst2.
      apply similarity_inner_step; try done; by apply Hin.
    + exists st'. split; [done |]. split; [done |].
      eapply mat_spec_ext; [| exact Hspec']. cells_eq.
  - simpl in Heq. subst M'. exists M. split; [done |].
    simpl in Hspec. exact Hspec.
Qed.
End SimilarityDeriverProofs.

(** C1. For any node count, any sampled subset inside [0, N) and any
    embedding table, the derivation step returns the same matrix twice
    ([dtw_matrix == sp_matrix]): N×N, holding the norm of the embedding
    difference at every cell [(i, j)] with [i], [j] sampled, distinct and both
    embedded, and zero at every other cell. *)
Theorem similarity_matrices_equal {V F : Type} (zero : F) (norm_diff : V → V → F)
    (N : nat) (S : list nat) (E : gmap nat V) :
  Forall (λ i, i < N) S →
  ∃ M, derive_similarity zero norm_diff N S E = Ok (M, M) ∧
    length M = N ∧ Forall (λ r, length r = N) M ∧
    ∀ i j, i < N → j < N →
      (∀ ei ej, i ∈ S → j ∈ S → i ≠ j → E !! i = Some ei → E !! j = Some ej →
         cell M i j = Some (norm_diff ei ej)) ∧
      (¬ (i ∈ S ∧ j ∈ S ∧ i ≠ j ∧ is_Some (E !! i) ∧ is_Some (E !! j)) →
         cell M i j = Some zero).
Proof.
  intros Hin.
  destruct (derive_similarity_spec zero norm_diff N S E Hin) as (M & HM & Hspec).
  exists M. split; [done |]. split; [by destruct Hspec |].
  split; [by eapply mat_spec_rows |].
  intros i j Hi Hj. rewrite (mat_spec_cell N N M _ i j Hspec Hi Hj).
  unfold similarity_state, pair_distance. split.
  - intros ei ej HiS HjS Hne Hei Hej.
    rewrite decide_True by (left; done).
    rewrite decide_True by done. by rewrite Hei, Hej.
  - intros Hnot. f_equal. case_decide as Hvis; [| done].
    destruct Hvis as [[HiS HjS] | [_ Hnil]]; [| inversion Hnil].
    destruct (decide (i ≠ j)) as [Hne |]; [| done].
    destruct (E !! i) as [ei |] eqn:Hei; [| done].
    destruct (E !! j) as [ej |] eqn:Hej; [| done].
    exfalso. apply Hnot. eauto 10.
Qed.

Lemma similarity_matrices_equal_witness :
  Forall (λ i, i < 4) [0; 2; 3] ∧
  ∃ M, derive_similarity 0 sample_norm 4 [0; 2; 3] sample_embeddings = Ok (M, M) ∧
    length M = 4 ∧ Forall (λ r, length r = 4) M ∧
    ∀ i j, i < 4 → j < 4 →
      (∀ ei ej, i ∈ [0; 2; 3] → j ∈ [0; 2; 3] → i ≠ j →
         sample_embeddings !! i = Some ei → sample_embeddings !! j = Some ej →
         cell M i j = Some (sample_norm ei ej)) ∧
      (¬ (i ∈ [0; 2; 3] ∧ j ∈ [0; 2; 3] ∧ i ≠ j ∧
          is_Some (sample_embeddings !! i) ∧ is_Some (sample_embeddings !! j)) →
         cell M i j = Some 0).
Proof.
  assert (Forall (λ i, i < 4) [0; 2; 3]) as Hin by (repeat constructor; lia).
  split; [exact Hin |].
  exact (similarity_matrices_equal 0 sample_norm 4 [0; 2; 3] sample_embeddings Hin).
Defined.

(** The run of the witness, computed. *)
Example derive_similarity_example :
  derive_similarity 0 sample_norm 4 [0; 2; 3] sample_embeddings
  = Ok ([[0; 0; 6; 0]; [0; 0; 0; 0]; [6; 0; 0; 0]; [0; 0; 0; 0]],
        [[0; 0; 6; 0]; [0; 0; 0; 0]; [6; 0; 0; 0]; [0; 0; 0; 0]]).
Proof. vm_compute. reflexivity. Qed.

(** A sampled node outside the matrix stops the derivation once a write to
    its row is due. *)
Example derive_similarity_out_of_range :
  derive_similarity 0 sample_norm 2 [0; 2] sample_embeddings = Raise IndexError.
Proof. vm_compute. reflexivity. Qed.

(** ** Node subset *)

Lemma transpose_inj (i j : nat) : Inj (=) (=) (transpose i j).
Proof. intros a b. unfold transpose. repeat case_decide; lia. Qed.

Lemma swap_length (x : list nat) (i j : nat) : length (swap x i j) = length x.
Proof.
  unfold swap. destruct (x !! i), (x !! j); try done. by rewrite !length_insert.
Qed.

Lemma swap_lookup (x : list nat) (i j a : nat) :
  i < length x → j < length x → swap x i j !! a = x !! transpose i j a.
Proof.
  intros Hi Hj. unfold swap, transpose.
  destruct (lookup_lt_is_Some_2 x i Hi) as [xi Hxi].
  destruct (lookup_lt_is_Some_2 x j Hj) as [xj Hxj].
  rewrite Hxi, Hxj. rewrite !list_lookup_insert, !length_insert.
  repeat case_decide; destruct_and?; simplify_eq; try done; lia.
Qed.

Lemma swap_Permutation (x : list nat) (i j : nat) : swap x i j ≡ₚ x.
Proof.
  destruct (decide (i < length x ∧ j < length x)) as [[Hi Hj] | Hout].
  - apply Permutation_inj. split; [apply swap_length |].
    exists (transpose i j). split; [apply transpose_inj |].
    intros a. by apply swap_lookup.
  - unfold swap.
    destruct (x !! i) as [xi |] eqn:Hxi; [| done].
    destruct (x !! j) as [xj |] eqn:Hxj; [| done].
    apply lookup_lt_Some in Hxi, Hxj. tauto.
Qed.

Section NodeSubsetProofs.
Context {G : Type} (random_interval : G → nat → nat * G).

Lemma shuffle_from_Permutation (i : nat) (x : list nat) (g : G) :
  (shuffle_from random_interval i x g).1 ≡ₚ x.
Proof.
  revert x g. induction i as [|i IH]; intros x g; simpl; [done |].
  destruct (random_interval g (S i)) as [j g'].
  rewrite IH. apply swap_Permutation.
Qed.

Lemma permutation_Permutation (n : nat) (g : G) :
  (permutation random_interval n g).1 ≡ₚ seq 0 n.
Proof. apply shuffle_from_Permutation. Qed.
End NodeSubsetProofs.

(** C8. Whatever the generator draws: with at most 100 nodes the subset is
    all the node indices 0..N-1 (in order); with more than 100 it is 100
    indices, pairwise distinct, each in [0, N). *)
Theorem select_nodes_spec {G : Type} (random_interval : G → nat → nat * G)
    (num_nodes : nat) (g : G) :
  ∃ selected_nodes g',
    select_nodes random_interval num_nodes g = Ok (selected_nodes, g') ∧
    (num_nodes ≤ 100 → selected_nodes = seq 0 num_nodes) ∧
    (100 < num_nodes →
       length selected_nodes = 100 ∧ NoDup selected_nodes ∧
       ∀ i, i ∈ selected_nodes → i < num_nodes).
Proof.
  unfold select_nodes. destruct (decide (100 < num_nodes)) as [Hbig | Hsmall].
  - unfold choice. rewrite decide_False by lia.
    pose proof (permutation_Permutation random_interval num_nodes g) as Hperm.
    destruct (permutation random_interval num_nodes g) as [idx g']. simpl in Hperm.
    exists (take 100 idx), g'. split; [done |]. split; [lia |]. intros _.
    assert (length idx = num_nodes) as Hlen.
    { by rewrite Hperm, length_seq. }
    split; [| split].
    + rewrite length_take_le; lia.
    + eapply sublist_NoDup; [| apply sublist_take].
      rewrite Hperm. apply NoDup_seq.
    + intros i Hi. apply subseteq_take in Hi. rewrite Hperm in Hi.
      apply elem_of_seq in Hi. lia.
  - exists (seq 0 num_nodes), g. split; [done |]. split; [done | lia].
Qed.

(** A draw on 103 nodes with the counter generator: the first six of the
    hundred sampled nodes. *)
Example select_nodes_example :
  (λ r, match r with Ok (s, _) => take 6 s | Raise _ => [] end)
    (select_nodes counter_interval 103 1) = [20; 48; 76; 88; 60; 15].
Proof. vm_compute. reflexivity. Qed.

(** ** Graph constructor *)

Lemma mat_spec_of_dims {A : Type} (d : A) (n m : nat) (M : list (list A)) :
  length M = n → Forall (λ r, length r = m) M →
  mat_spec n m M (λ i j, default d (cell M i j)).
Proof.
  intros Hlen Hrows. split; [done |]. intros i Hi.
  destruct (lookup_lt_is_Some_2 M i) as [row Hrow]; [lia |].
  exists row. split; [done |].
  rewrite Forall_lookup in Hrows. pose proof (Hrows i row Hrow) as Hl.
  split; [done |]. intros j Hj.
  destruct (lookup_lt_is_Some_2 row j) as [x Hx]; [lia |].
  unfold cell. rewrite Hrow. simpl. by rewrite Hx.
Qed.

Section GraphConstructorProofs.
Context {F : Type} `{EqDecision F} (inf : F).
Implicit Types (G : gmap nat (gmap nat F)) (g : nat → nat → F).

Lemma weight_default G (u v : nat) :
  weight G u v = default ∅ (G !! u) !! v.
Proof. unfold weight. by destruct (G !! u). Qed.

Lemma add_edge_weight (i j : nat) (d : F) G (u v : nat) :
  weight (add_edge i j d G) u v
  = upd (upd (weight G) i j (Some d)) j i (Some d) u v.
Proof.
  unfold upd. rewrite !weight_default. unfold add_edge.
  set (G1 := if decide (is_Some (G !! i)) then G else <[i := ∅]> G).
  set (G2 := if decide (is_Some (G1 !! j)) then G1 else <[j := ∅]> G1).
  assert (∀ x, default ∅ (G1 !! x) = default ∅ (G !! x)) as H1.
  { intros x. unfold G1. case_decide as Hs; [done |].
    destruct (decide (i = x)) as [-> | Hne].
    - rewrite lookup_insert_eq. simpl.
      destruct (G !! x) eqn:Hx; [exfalso; apply Hs; eauto | done].
    - by rewrite lookup_insert_ne. }
  assert (∀ x, default ∅ (G2 !! x) = default ∅ (G !! x)) as H2.
  { intros x. rewrite <- H1. unfold G2. case_decide as Hs; [done |].
    destruct (decide (j = x)) as [-> | Hne].
    - rewrite lookup_insert_eq. simpl.
      destruct (G1 !! x) eqn:Hx; [exfalso; apply Hs; eauto | done].
    - by rewrite lookup_insert_ne. }
  clearbody G1 G2.
  rewrite !lookup_insert. rewrite !H2.
  repeat case_decide; destruct_and?; simplify_eq; simpl;
    rewrite ?lookup_insert_eq, ?H2; try done.
  all: rewrite ?lookup_insert; repeat case_decide; destruct_and?; simplify_eq; try done.
  all: try (exfalso; tauto).
Qed.

Lemma weights_after_snoc g (pairs : list (nat * nat)) (p : nat * nat) :
  weights_after inf g (pairs ++ [p]) = visit inf g (weights_after inf g pairs) p.
Proof. unfold weights_after. by rewrite foldl_app. Qed.

Lemma visits_snoc (pre S : list nat) (i : nat) :
  visits (pre ++ [i]) S = visits pre S ++ (pair i <$> S).
Proof. unfold visits. by rewrite bind_app, bind_singleton. Qed.

Lemma elem_of_visits (S : list nat) (i j : nat) :
  (i, j) ∈ visits S S ↔ i ∈ S ∧ j ∈ S.
Proof.
  unfold visits. rewrite list_elem_of_bind. split.
  - intros (a & Hin & Ha). apply list_elem_of_fmap in Hin as (b & Heq & Hb).
    by simplify_eq.
  - intros [Hi Hj]. exists i. split; [| done].
    apply list_elem_of_fmap. by exists j.
Qed.

(** A weight comes from a visited pair with a finite entry. *)
Lemma weights_after_sound g (pairs : list (nat * nat)) (u v : nat) (w : F) :
  weights_after inf g pairs u v = Some w →
  ∃ i j, (i, j) ∈ pairs ∧ g i j ≠ inf ∧ w = g i j ∧
         ((u = i ∧ v = j) ∨ (u = j ∧ v = i)).
Proof.
  induction pairs as [|[i j] pairs IH] using rev_ind; [done |].
  rewrite weights_after_snoc. unfold visit, upd.
  assert (∀ x, x ∈ pairs → x ∈ pairs ++ [(i, j)]) as Hmono.
  { intros x Hx. apply elem_of_app. by left. }
  assert ((i, j) ∈ pairs ++ [(i, j)]) as Hlast.
  { apply elem_of_app. right. by apply list_elem_of_singleton. }
  intros Hw. repeat case_decide; destruct_and?; simplify_eq.
  - exists i, j. eauto 10.
  - exists i, j. eauto 10.
  - destruct (IH Hw) as (a & b & Hab & ?). exists a, b. eauto.
  - destruct (IH Hw) as (a & b & Hab & ?). exists a, b. eauto.
Qed.

(** A visited pair with a finite entry is an edge, seen from both ends. *)
Lemma weights_after_complete g (pairs : list (nat * nat)) (i j : nat) :
  (i, j) ∈ pairs → g i j ≠ inf →
  is_Some (weights_after inf g pairs i j) ∧ is_Some (weights_after inf g pairs j i).
Proof.
  induction pairs as [|[a b] pairs IH] using rev_ind; intros Hin Hfin.
  - inversion Hin.
  - rewrite weights_after_snoc. unfold visit, upd.
    apply elem_of_app in Hin as [Hin | Hin].
    + destruct (IH Hin Hfin) as [H1 H2].
      repeat case_decide; destruct_and?; simplify_eq; eauto.
    + apply list_elem_of_singleton in Hin. simplify_eq.
      rewrite decide_True by done.
      repeat case_decide; destruct_and?; simplify_eq; eauto; exfalso; tauto.
Qed.


Lemma generate_graph_weights (N : nat) (M : list (list F)) g (S : list nat) :
  mat_spec N N M g → Forall (λ i, i < N) S →
  ∃ G, generate_graph inf N M S = Ok G ∧
       ∀ u v, weight G u v = weights_after inf g (visits S S) u v.
Proof.
  intros HM Hin. rewrite Forall_forall in Hin. unfold generate_graph.
  apply (for_list_inv
    (λ pre G, ∀ u v, weight G u v = weights_after inf g (visits pre S) u v)).
  - intros u v. unfold weight. by rewrite lookup_empty.
  - intros pre i G Hi HG.
    destruct (for_list_inv
      (λ pre2 G, ∀ u v,
         weight G u v = weights_after inf g (visits pre S ++ (pair i <$> pre2)) u v)
      S
      (λ j G,
         d ← getitem2 M (Z.of_nat i) (Z.of_nat j);
         if decide (d ≠ inf) then Ok (add_edge i j d G) else Ok G) G)
      as (G' & HG' & Hspec').
    + cbn beta. simpl. by rewrite app_nil_r.
    + cbn beta. intros pre2 j G0 Hj HG0.
      rewrite (getitem2_spec N N M g i j HM) by (by apply Hin). simpl.
      rewrite fmap_app, app_assoc. simpl.
      case_decide as Hfin.
      * eexists. split; [reflexivity |]. intros u v.
        rewrite add_edge_weight, weights_after_snoc. unfold visit.
        rewrite decide_True by done. unfold upd. by rewrite !HG0.
      * eexists. split; [reflexivity |]. intros u v.
        rewrite weights_after_snoc. unfold visit.
        rewrite decide_False by tauto. apply HG0.
    + exists G'. split; [done |]. by rewrite visits_snoc.
Qed.

End GraphConstructorProofs.




(** The graph of [two_pairs], computed. *)
Example generate_graph_two_pairs :
  generate_graph None 4 two_pairs [0; 1; 2; 3]
  = Ok {[ 0 := {[ 1 := Some 5 ]}; 1 := {[ 0 := Some 5 ]};
          2 := {[ 3 := Some 7 ]}; 3 := {[ 2 := Some 7 ]} ]}.
Proof. vm_compute. reflexivity. Qed.

(** With a zero diagonal every node gets a self-loop: six edges. *)
Example generate_graph_self_loops :
  ∃ G, generate_graph None 4 two_pairs_zero_diagonal [0; 1; 2; 3] = Ok G ∧
       weight G 0 0 = Some (Some 0) ∧ number_of_edges G = 6.
Proof. eexists. split; [vm_compute; reflexivity |]. split; vm_compute; reflexivity. Qed.


(** ** Windowed dataset *)

Lemma slice_bound_in_range (len : nat) (i : Z) :
  (0 ≤ i ≤ Z.of_nat len)%Z → slice_bound len i = Z.to_nat i.
Proof. intros Hi. unfold slice_bound. rewrite decide_False by lia. lia. Qed.

Lemma slice_bound_le (len : nat) (i : Z) : slice_bound len i ≤ len.
Proof. unfold slice_bound. case_decide; lia. Qed.

Lemma py_slice_length {A : Type} (l : list A) (a b : Z) :
  length (py_slice l a b) = slice_bound (length l) b - slice_bound (length l) a.
Proof.
  unfold py_slice. rewrite length_take, length_drop.
  pose proof (slice_bound_le (length l) b). lia.
Qed.

Lemma py_slice_lookup {A : Type} (l : list A) (a b : Z) (t : nat) :
  t < slice_bound (length l) b - slice_bound (length l) a →
  py_slice l a b !! t = l !! (slice_bound (length l) a + t).
Proof.
  intros Ht. unfold py_slice. rewrite lookup_take_lt by done. apply lookup_drop.
Qed.

Lemma py_slice_Forall {A : Type} (P : A → Prop) (l : list A) (a b : Z) :
  Forall P l → Forall P (py_slice l a b).
Proof. intros Hl. unfold py_slice. by apply Forall_take, Forall_drop. Qed.

Lemma permute10_length {B : Type} (n : nat) (t : list (list B)) :
  Forall (λ r, length r = n) t → length (permute10 n t) = n.
Proof.
  induction 1 as [|r t Hr _ IH]; simpl; [apply length_replicate |].
  rewrite length_zip_with. lia.
Qed.

Lemma permute10_lookup {B : Type} (n : nat) (t : list (list B)) (k : nat) :
  Forall (λ r, length r = n) t → k < n →
  ∃ col, permute10 n t !! k = Some col ∧ length col = length t ∧
         ∀ i, col !! i = t !! i ≫= λ r, r !! k.
Proof.
  intros Hwf Hk. induction Hwf as [|r t Hr Hwf IH]; simpl.
  - exists []. split; [by apply lookup_replicate_2 |]. split; [done |].
    intros i. by rewrite !lookup_nil.
  - destruct IH as (col & Hcol & Hlen & Hget).
    destruct (lookup_lt_is_Some_2 r k) as [x Hx]; [lia |].
    exists (x :: col). split.
    + rewrite lookup_zip_with, Hx. simpl. by rewrite Hcol.
    + split; [simpl; lia |]. intros [|i]; simpl; [done | apply Hget].
Qed.

Lemma mapR_Ok {A B : Type} (f : A → result B) (l : list A) :
  Forall (λ x, ∃ y, f x = Ok y) l →
  ∃ ys, mapR f l = Ok ys ∧ Forall2 (λ x y, f x = Ok y) l ys.
Proof.
  induction 1 as [|x l [y Hy] _ (ys & Hys & Hall)]; simpl.
  - exists []. by split.
  - exists (y :: ys). rewrite Hy. simpl. rewrite Hys. simpl. split; [done |].
    by constructor.
Qed.

Section WindowedDatasetProofs.
Context {A : Type}.
Implicit Types (d : tensor A) (t : tensor A).

Lemma tensor_slice_wf t (a b : Z) : tensor_wf t → tensor_wf (tensor_slice t a b).
Proof. unfold tensor_wf. simpl. apply py_slice_Forall. Qed.

Lemma channel0_spec t :
  tensor_wf t → 0 < channels t →
  ∃ ys, channel0 t = Ok ys ∧ length ys = length (steps t) ∧
        Forall (λ r, length r = nodes t) ys ∧
        ∀ i n, at2 ys i n = at3 (steps t) i n 0.
Proof.
  intros Hwf Hc. unfold channel0. rewrite decide_False by lia.
  assert (∀ step, length step = nodes t ∧ Forall (λ v, length v = channels t) step →
            ∃ row, mapR (λ v : list A, getitem v 0) step = Ok row ∧
                   length row = nodes t ∧
                   ∀ n, row !! n = step !! n ≫= λ v, v !! 0) as Hstep.
  { intros step [Hlen Hvs].
    destruct (mapR_Ok (λ v : list A, getitem v 0) step) as (row & Hrow & Hall).
    - eapply Forall_impl; [exact Hvs |]. intros v Hv. simpl in Hv.
      destruct (lookup_lt_is_Some_2 v 0) as [x Hx]; [lia |].
      exists x. by apply (getitem_nat v 0).
    - exists row. split; [done |]. split.
      + apply Forall2_length in Hall. lia.
      + intros n. destruct (step !! n) as [v |] eqn:Hv; simpl.
        * destruct (Forall2_lookup_l _ _ _ _ _ Hall Hv) as (x & Hx & Hget).
          rewrite Hx.
          rewrite Forall_lookup in Hvs. pose proof (Hvs n v Hv) as Hl. simpl in Hl.
          destruct (lookup_lt_is_Some_2 v 0) as [x0 Hx0]; [lia |].
          pose proof (getitem_nat v 0 x0 Hx0) as Hget'.
          change (Z.of_nat 0) with 0%Z in Hget'. cbn beta in Hget.
          rewrite Hx0. congruence.
        * apply lookup_ge_None. apply lookup_ge_None in Hv.
          apply Forall2_length in Hall. lia. }
  destruct (mapR_Ok (mapR (λ v : list A, getitem v 0)) (steps t)) as (ys & Hys & Hall).
  { eapply Forall_impl; [exact Hwf |]. intros step Hs.
    destruct (Hstep step Hs) as (row & Hrow & _). by exists row. }
  exists ys. split; [done |]. split; [| split].
  - apply Forall2_length in Hall. lia.
  - apply Forall_lookup. intros i row Hi.
    destruct (Forall2_lookup_r _ _ _ _ _ Hall Hi) as (step & Hst & Hrow).
    unfold tensor_wf in Hwf. rewrite Forall_lookup in Hwf.
    destruct (Hstep step (Hwf i step Hst)) as (row' & Hrow' & Hlen & _).
    cbn beta in Hrow. assert (row = row') as -> by congruence. done.
  - intros i n. unfold at2, at3. destruct (steps t !! i) as [step |] eqn:Hst; simpl.
    + destruct (Forall2_lookup_l _ _ _ _ _ Hall Hst) as (row & Hrow & Hget).
      rewrite Hrow. simpl.
      unfold tensor_wf in Hwf. rewrite Forall_lookup in Hwf.
      destruct (Hstep step (Hwf i step Hst)) as (row' & Hrow' & _ & Hn).
      cbn beta in Hget. assert (row = row') as -> by congruence. apply Hn.
    + assert (ys !! i = None) as ->; [| done].
      apply lookup_ge_None. apply lookup_ge_None in Hst.
      apply Forall2_length in Hall. lia.
Qed.

(** [__getitem__] never raises on a tensor with a channel. *)
Lemma MyDataset_getitem_Ok (self : MyDataset A) (index : Z) :
  tensor_wf (data self) → 0 < channels (data self) →
  ∃ x y, MyDataset_getitem self index = Ok (x, y) ∧
    x = permute10 (nodes (data self))
          (py_slice (steps (data self)) index (index + his_length self)) ∧
    length y = nodes (data self) ∧
    ∀ n, n < nodes (data self) →
      ∃ yn, y !! n = Some yn ∧
        length yn = length (py_slice (steps (data self)) (index + his_length self)
                              (index + his_length self + pred_length self)) ∧
        ∀ i, yn !! i =
             at3 (py_slice (steps (data self)) (index + his_length self)
                    (index + his_length self + pred_length self)) i n 0.
Proof.
  intros Hwf Hc. unfold MyDataset_getitem.
  destruct (channel0_spec
    (tensor_slice (data self) (index + his_length self)
       (index + his_length self + pred_length self)))
    as (ys & Hys & Hlen & Hrows & Hat); [by apply tensor_slice_wf | done |].
  rewrite Hys. simpl in *. eexists _, _. split; [reflexivity |]. split; [done |].
  split; [by apply permute10_length |].
  intros n Hn. destruct (permute10_lookup _ ys n Hrows Hn) as (yn & Hyn & Hl & Hget).
  exists yn. split; [done |]. split; [lia |].
  intros i. rewrite Hget. apply (Hat i n).
Qed.

Lemma at3_permute10 (n : nat) (w : list (list (list A))) (k i c : nat) :
  Forall (λ step, length step = n) w → k < n →
  at3 (permute10 n w) k i c = at3 w i k c.
Proof.
  intros Hw Hk. destruct (permute10_lookup n w k Hw Hk) as (col & Hcol & _ & Hget).
  unfold at3. rewrite Hcol. simpl. rewrite Hget. by destruct (w !! i).
Qed.

Lemma at3_py_slice (w : list (list (list A))) (a b : Z) (i n c : nat) :
  i < slice_bound (length w) b - slice_bound (length w) a →
  at3 (py_slice w a b) i n c = at3 w (slice_bound (length w) a + i) n c.
Proof. intros Hi. unfold at3. by rewrite py_slice_lookup. Qed.
End WindowedDatasetProofs.

Lemma MyDataset_init_Ok {A F : Type} {ratio : Ratio F} (d : tensor A)
    (split_start split_end : pynum F) (s e H P : Z) :
  int_ split_start = Ok s → int_ split_end = Ok e →
  MyDataset_init d split_start split_end H P
  = Ok {| data := tensor_slice d s e; his_length := H; pred_length := P |}.
Proof. intros Hs He. unfold MyDataset_init. by rewrite Hs, He. Qed.

(** C2. Over a split [start, end) of the rows, with history length H and
    prediction length P, the dataset is built, [__len__] is
    (end - start) - H - P + 1, and the example at an offset k below it is the
    pair (x, y) with x[n][t] the feature vector of row [start + k + t] at
    node n for t < H, and y[n][t] the first channel of row
    [start + k + H + t] at node n for t < P: the rows [k, k+H) and
    [k+H, k+H+P) of the split, node-major. *)
Theorem windowed_dataset_examples {A F : Type} {ratio : Ratio F} (d : tensor A)
    (split_start split_end : pynum F) (s e H P : Z) :
  tensor_wf d → 0 < channels d →
  int_ split_start = Ok s → int_ split_end = Ok e →
  (0 ≤ s)%Z → (s ≤ e)%Z → (e ≤ shape0 d)%Z → (0 ≤ H)%Z → (0 ≤ P)%Z →
  ∃ self, MyDataset_init d split_start split_end H P = Ok self ∧
    MyDataset_len self = (e - s - H - P + 1)%Z ∧
    ∀ k : Z, (0 ≤ k < MyDataset_len self)%Z →
      ∃ x y, MyDataset_getitem self k = Ok (x, y) ∧
        length x = nodes d ∧ length y = nodes d ∧
        (∀ n, n < nodes d →
           ∃ xn yn, x !! n = Some xn ∧ y !! n = Some yn ∧
                    length xn = Z.to_nat H ∧ length yn = Z.to_nat P) ∧
        (∀ n t c, n < nodes d → t < Z.to_nat H →
           at3 x n t c = at3 (steps d) (Z.to_nat s + Z.to_nat k + t) n c) ∧
        (∀ n t, n < nodes d → t < Z.to_nat P →
           at2 y n t = at3 (steps d) (Z.to_nat s + Z.to_nat k + Z.to_nat H + t) n 0).
Proof.
  intros Hwf Hc Hss Hse Hs0 Hle HeT HH HP.
  rewrite (MyDataset_init_Ok d split_start split_end s e H P Hss Hse).
  set (self := {| data := tensor_slice d s e; his_length := H; pred_length := P |}).
  exists self. split; [done |].
  unfold shape0 in HeT.
  set (sub := py_slice (steps d) s e).
  assert (length sub = Z.to_nat (e - s)) as Hsub.
  { unfold sub. rewrite py_slice_length, !slice_bound_in_range by lia. lia. }
  assert (MyDataset_len self = (e - s - H - P + 1)%Z) as Hlen.
  { unfold MyDataset_len, shape0. simpl. fold sub. rewrite Hsub. lia. }
  split; [exact Hlen |]. intros k Hk. rewrite Hlen in Hk.
  assert (tensor_wf (data self)) as Hwf' by (by apply tensor_slice_wf).
  destruct (MyDataset_getitem_Ok self k Hwf' Hc) as (x & y & Hget & Hx & Hy & Hyn).
  simpl in Hx, Hy, Hyn. fold sub in Hx, Hyn.
  assert (Forall (λ step : list (list A), length step = nodes d) sub) as Hsubwf.
  { unfold sub. apply py_slice_Forall. eapply Forall_impl; [exact Hwf |]. by intros ? [? _]. }
  assert (slice_bound (length sub) k = Z.to_nat k) as Hbk
    by (apply slice_bound_in_range; lia).
  assert (slice_bound (length sub) (k + H) = Z.to_nat k + Z.to_nat H) as HbkH
    by (rewrite slice_bound_in_range; lia).
  assert (slice_bound (length sub) (k + H + P) = Z.to_nat k + Z.to_nat H + Z.to_nat P)
    as HbkHP by (rewrite slice_bound_in_range; lia).
  assert (slice_bound (length (steps d)) s = Z.to_nat s) as Hbs
    by (apply slice_bound_in_range; lia).
  assert (slice_bound (length (steps d)) e = Z.to_nat e)
    as Hbe by (apply slice_bound_in_range; lia).
  assert (Forall (λ step : list (list A), length step = nodes d)
            (py_slice sub k (k + H))) as Hxwf by (by apply py_slice_Forall).
  exists x, y. split; [exact Hget |]. split; [| split; [done |]; split; [| split]].
  - subst x. by apply permute10_length.
  - intros n Hn. destruct (Hyn n Hn) as (yn & Hyn1 & Hyn2 & _).
    destruct (permute10_lookup (nodes d) (py_slice sub k (k + H)) n Hxwf Hn)
      as (xn & Hxn1 & Hxn2 & _).
    exists xn, yn. subst x. split; [done |]. split; [done |].
    rewrite Hxn2, Hyn2, !py_slice_length, Hbk, HbkH, HbkHP. lia.
  - intros n t c Hn Ht. subst x.
    rewrite at3_permute10 by done.
    rewrite at3_py_slice by (rewrite Hbk, HbkH; lia). rewrite Hbk.
    unfold sub. rewrite at3_py_slice by (rewrite Hbs, Hbe; lia). rewrite Hbs.
    f_equal. lia.
  - intros n t Hn Ht. destruct (Hyn n Hn) as (yn & Hyn1 & _ & Hyn3).
    unfold at2. rewrite Hyn1. simpl. rewrite Hyn3.
    rewrite at3_py_slice by (rewrite HbkH, HbkHP; lia). rewrite HbkH.
    unfold sub. rewrite at3_py_slice by (rewrite Hbs, Hbe; lia). rewrite Hbs.
    f_equal. lia.
Qed.

Lemma ramp_wf (T : nat) : tensor_wf (ramp T).
Proof.
  unfold tensor_wf, ramp. simpl. apply Forall_fmap, Forall_forall.
  intros t _. simpl. split; [done |]. by repeat constructor.
Qed.

(** The 100-row split with H = 12 and P = 3: 86 examples, the first made of
    the rows [0, 12) and, for the first channel, [12, 15). *)
Lemma windowed_dataset_examples_witness :
  tensor_wf (ramp 100) ∧ 0 < channels (ramp 100) ∧
  int_ (F := float) (PyInt 0) = Ok 0%Z ∧ int_ (F := float) (PyInt 100) = Ok 100%Z ∧
  (0 ≤ 0)%Z ∧ (0 ≤ 100)%Z ∧ (100 ≤ shape0 (ramp 100))%Z ∧ (0 ≤ 12)%Z ∧ (0 ≤ 3)%Z ∧
  ∃ self, MyDataset_init (F := float) (ramp 100) (PyInt 0) (PyInt 100) 12 3 = Ok self ∧
    MyDataset_len self = 86%Z ∧
    ∃ x y, MyDataset_getitem self 0 = Ok (x, y) ∧
      (∀ n t c, n < 2 → t < 12 → at3 x n t c = at3 (steps (ramp 100)) t n c) ∧
      (∀ n t, n < 2 → t < 3 → at2 y n t = at3 (steps (ramp 100)) (12 + t) n 0).
Proof.
  assert (100 ≤ shape0 (ramp 100))%Z as HeT by (vm_compute; discriminate).
  repeat (split; [first [apply ramp_wf | exact HeT | reflexivity | simpl; lia] |]).
  destruct (windowed_dataset_examples (F := float) (ramp 100) (PyInt 0) (PyInt 100)
              0 100 12 3 (ramp_wf 100) (le_n 1) eq_refl eq_refl
              (Z.le_refl 0) ltac:(lia) HeT ltac:(lia) ltac:(lia))
    as (self & Hinit & Hlen & Hex).
  exists self. split; [exact Hinit |]. split; [exact Hlen |].
  destruct (Hex 0%Z) as (x & y & Hget & _ & _ & _ & Hx & Hy).
  { rewrite Hlen. lia. }
  exists x, y. split; [exact Hget |]. split.
  - intros n t c Hn Ht. apply (Hx n t c Hn). simpl. lia.
  - intros n t Hn Ht. apply (Hy n t Hn). simpl. lia.
Defined.

(** A 20-row tensor, H = 3, P = 2: 16 examples; the one at offset 1,
    computed. *)
Example MyDataset_example :
  ∃ self, MyDataset_init (F := float) (ramp 20) (PyInt 0) (PyInt 20) 3 2 = Ok self ∧
    MyDataset_len self = 16%Z ∧
    MyDataset_getitem self 1
    = Ok ([[[10]; [20]; [30]]; [[11]; [21]; [31]]], [[40; 50]; [41; 51]]).
Proof. eexists. split; [reflexivity |]. split; vm_compute; reflexivity. Qed.

(** C9, as the code has it. Over a split shorter than H + P the windowed
    dataset raises no index error: it is built, its [__len__] is at most 0
    (no valid example), and [__getitem__] returns at every index a pair of
    windows cut short by the clamping of slices. *)
Theorem short_split_no_index_error {A F : Type} {ratio : Ratio F} (d : tensor A)
    (split_start split_end : pynum F) (s e H P : Z) :
  tensor_wf d → 0 < channels d →
  int_ split_start = Ok s → int_ split_end = Ok e →
  ∃ self, MyDataset_init d split_start split_end H P = Ok self ∧
    ((shape0 (data self) < H + P)%Z →
     (MyDataset_len self ≤ 0)%Z ∧
     ∀ index, ∃ x y, MyDataset_getitem self index = Ok (x, y)).
Proof.
  intros Hwf Hc Hss Hse.
  rewrite (MyDataset_init_Ok d split_start split_end s e H P Hss Hse).
  eexists. split; [reflexivity |]. intros Hshort. split.
  - unfold MyDataset_len. simpl in *. lia.
  - intros index.
    destruct (MyDataset_getitem_Ok
                {| data := tensor_slice d s e; his_length := H; pred_length := P |}
                index) as (x & y & Hget & _);
      [by apply tensor_slice_wf | done |].
    by exists x, y.
Qed.

Lemma short_split_no_index_error_witness :
  tensor_wf (ramp 5) ∧ 0 < channels (ramp 5) ∧
  int_ (F := float) (PyInt 0) = Ok 0%Z ∧ int_ (F := float) (PyInt 5) = Ok 5%Z ∧
  ∃ self, MyDataset_init (F := float) (ramp 5) (PyInt 0) (PyInt 5) 12 3 = Ok self ∧
    ((shape0 (data self) < 12 + 3)%Z →
     (MyDataset_len self ≤ 0)%Z ∧
     ∀ index, ∃ x y, MyDataset_getitem self index = Ok (x, y)).
Proof.
  split; [apply ramp_wf |]. split; [simpl; lia |].
  split; [reflexivity |]. split; [reflexivity |].
  exact (short_split_no_index_error (F := float) (ramp 5) (PyInt 0) (PyInt 5) 0 5 12 3
           (ramp_wf 5) (le_n 1) eq_refl eq_refl).
Defined.

(** C9, as stated, fails. In binary64, of 10 rows split 0.6 / 0.2 / 0.2 the
    validation range is rows [6, 8), shorter than H + P = 15: the bounds
    [generate_dataset] hands to [MyDataset] are 10 * 0.6 = 6.0 and
    10 * (0.6 + 0.2) = 8.0. The dataset is built, has length -12, and
    indexing it returns the two rows and an empty prediction: no
    [IndexError]. *)
Lemma short_split_raises_nothing :
  ∃ valid,
    MyDataset_init (ramp 10)
      (PyFloat (f64_of_Z 10 * f64_lit 6 (-1))%float)
      (PyFloat (f64_of_Z 10 * (f64_lit 6 (-1) + f64_lit 2 (-1)))%float) 12 3
    = Ok valid ∧
    (shape0 (data valid) < 12 + 3)%Z ∧
    MyDataset_len valid = (-12)%Z ∧
    MyDataset_getitem valid 0 = Ok ([[[60]; [70]]; [[61]; [71]]], [[]; []]) ∧
    MyDataset_getitem valid 0 ≠ Raise IndexError.
Proof.
  eexists. split; [vm_compute; reflexivity |].
  vm_compute. repeat split; discriminate.
Qed.

(** ** binary64: rounding *)

Lemma bpow_pos (e : Z) : (0 < bpow e)%R.
Proof. unfold bpow. apply powerRZ_lt. lra. Qed.

Lemma bpow_add (a b : Z) : bpow (a + b) = (bpow a * bpow b)%R.
Proof. unfold bpow. apply powerRZ_add. lra. Qed.

Lemma bpow_0 : bpow 0 = 1%R.
Proof. reflexivity. Qed.

Lemma bpow_opp (e : Z) : (bpow e * bpow (- e))%R = 1%R.
Proof. rewrite <- bpow_add. replace (e + - e)%Z with 0%Z by lia. apply bpow_0. Qed.

Lemma bpow_IZR (n : Z) : (0 <= n)%Z → bpow n = IZR (2 ^ n).
Proof.
  intros Hn. unfold bpow. destruct n as [| p | p]; [done | | lia].
  change (2 ^ Z.pos p)%Z with (Z.pow_pos 2 p).
  by rewrite Zpower_pos_powerRZ.
Qed.

Lemma bpow_le (a b : Z) : (a <= b)%Z → (bpow a <= bpow b)%R.
Proof.
  intros Hab. replace b with (a + (b - a))%Z by lia. rewrite bpow_add.
  rewrite (bpow_IZR (b - a)) by lia.
  assert (1 <= IZR (2 ^ (b - a)))%R as H1.
  { apply IZR_le. pose proof (Z.pow_pos_nonneg 2 (b - a)). lia. }
  pose proof (bpow_pos a). nra.
Qed.

Lemma bpow_lt (a b : Z) : (a < b)%Z → (bpow a < bpow b)%R.
Proof.
  intros Hab. replace b with (a + (b - a))%Z by lia. rewrite bpow_add.
  rewrite (bpow_IZR (b - a)) by lia.
  assert (2 <= IZR (2 ^ (b - a)))%R as H1.
  { apply IZR_le. replace (b - a)%Z with (Z.succ (b - a - 1)) by lia.
    rewrite Z.pow_succ_r by lia. pose proof (Z.pow_pos_nonneg 2 (b - a - 1)). lia. }
  pose proof (bpow_pos a). nra.
Qed.

Lemma bpow_lt_inv (a b : Z) : (bpow a < bpow b)%R → (a < b)%Z.
Proof.
  intros Hlt. destruct (Z_lt_le_dec a b) as [? | Hle]; [done |].
  apply bpow_le in Hle. lra.
Qed.

(** *** Digits *)

Lemma digits2_pos_bounds (m : positive) :
  (2 ^ (Z.pos (digits2_pos m) - 1) <= Z.pos m < 2 ^ Z.pos (digits2_pos m))%Z.
Proof.
  induction m as [m IH | m IH |]; simpl digits2_pos; [| | by compute].
  - rewrite Pos2Z.inj_succ.
    replace (Z.succ (Z.pos (digits2_pos m)) - 1)%Z with (Z.succ (Z.pos (digits2_pos m) - 1)) by lia.
    rewrite !Z.pow_succ_r by lia. lia.
  - rewrite Pos2Z.inj_succ.
    replace (Z.succ (Z.pos (digits2_pos m)) - 1)%Z with (Z.succ (Z.pos (digits2_pos m) - 1)) by lia.
    rewrite !Z.pow_succ_r by lia. lia.
Qed.

Lemma Zdigits2_bounds (m : Z) :
  (0 < m)%Z → (2 ^ (Zdigits2 m - 1) <= m < 2 ^ Zdigits2 m)%Z.
Proof. destruct m as [| p | p]; [lia | | lia]. intros _. apply digits2_pos_bounds. Qed.

Lemma Zdigits2_pos (m : Z) : (0 < m)%Z → (0 < Zdigits2 m)%Z.
Proof. destruct m; simpl; lia. Qed.

Lemma Zdigits2_unique (m d : Z) :
  (2 ^ (d - 1) <= m < 2 ^ d)%Z → (0 < m)%Z → Zdigits2 m = d.
Proof.
  intros [Hlo Hhi] Hm. pose proof (Zdigits2_bounds m Hm) as [Hlo' Hhi'].
  pose proof (Zdigits2_pos m Hm) as Hd.
  assert (0 < d)%Z as Hd'.
  { destruct (Z_lt_le_dec 0 d) as [? | Hle]; [done |].
    destruct (Z.eq_dec d 0%Z) as [-> | ?]; [simpl in Hhi; lia |].
    rewrite Z.pow_neg_r in Hhi by lia. lia. }
  destruct (Z.lt_trichotomy (Zdigits2 m) d) as [Hlt | [? | Hgt]]; [| done |].
  - assert (2 ^ Zdigits2 m <= 2 ^ (d - 1))%Z by (apply Z.pow_le_mono_r; lia). lia.
  - assert (2 ^ d <= 2 ^ (Zdigits2 m - 1))%Z by (apply Z.pow_le_mono_r; lia). lia.
Qed.

(** The binade of a positive number given by mantissa and exponent *)
Lemma binade (m : positive) (e : Z) :
  (bpow (Z.pos (digits2_pos m) + e - 1) <= IZR (Z.pos m) * bpow e
     < bpow (Z.pos (digits2_pos m) + e))%R.
Proof.
  pose proof (digits2_pos_bounds m) as [Hlo Hhi].
  replace (Z.pos (digits2_pos m) + e - 1)%Z with ((Z.pos (digits2_pos m) - 1) + e)%Z by lia.
  rewrite !bpow_add.
  rewrite (bpow_IZR (Z.pos (digits2_pos m) - 1)), (bpow_IZR (Z.pos (digits2_pos m))) by lia.
  apply IZR_le in Hlo. apply IZR_lt in Hhi. pose proof (bpow_pos e).
  split; [apply Rmult_le_compat_r | apply Rmult_lt_compat_r]; lra.
Qed.

Lemma binade_unique (v : R) (E E' : Z) :
  (bpow (E - 1) <= v < bpow E)%R → (bpow (E' - 1) <= v < bpow E')%R → E = E'.
Proof.
  intros [H1 H2] [H3 H4].
  assert (E - 1 < E')%Z by (apply bpow_lt_inv; lra).
  assert (E' - 1 < E)%Z by (apply bpow_lt_inv; lra). lia.
Qed.

Lemma binade_mono (v v' : R) (E E' : Z) :
  (bpow (E - 1) <= v < bpow E)%R → (bpow (E' - 1) <= v' < bpow E')%R →
  (v <= v')%R → (E <= E')%Z.
Proof.
  intros [H1 H2] [H3 H4] Hv.
  assert (E - 1 < E')%Z by (apply bpow_lt_inv; lra). lia.
Qed.

Lemma fexp_mono (E E' : Z) : (E <= E')%Z → (fexp prec emax E <= fexp prec emax E')%Z.
Proof. unfold fexp, emin. lia. Qed.

(** *** Rounding to the nearest even integer *)

Lemma Rabs_bound (x a : R) : (Rabs x <= a)%R → (- a <= x <= a)%R.
Proof. unfold Rabs. destruct (Rcase_abs x); lra. Qed.

Lemma nearest_even_exact (k : Z) : nearest_even (IZR k) k.
Proof.
  split.
  - replace (IZR k - IZR k)%R with 0%R by ring. rewrite Rabs_R0. lra.
  - replace (IZR k - IZR k)%R with 0%R by ring. rewrite Rabs_R0. lra.
Qed.

Lemma nearest_even_ge (x : R) (k j : Z) : nearest_even x k → (IZR j <= x)%R → (j <= k)%Z.
Proof.
  intros [Hn _] Hj. destruct (Z_lt_le_dec k j) as [Hlt | ?]; [| done].
  assert (IZR k + 1 <= IZR j)%R by (rewrite <- plus_IZR; apply IZR_le; lia).
  apply Rabs_bound in Hn. lra.
Qed.

Lemma nearest_even_le (x : R) (k j : Z) : nearest_even x k → (x <= IZR j)%R → (k <= j)%Z.
Proof.
  intros [Hn _] Hj. destruct (Z_lt_le_dec j k) as [Hlt | ?]; [| done].
  assert (IZR j + 1 <= IZR k)%R by (rewrite <- plus_IZR; apply IZR_le; lia).
  apply Rabs_bound in Hn. lra.
Qed.

Lemma nearest_even_mono (x x' : R) (k k' : Z) :
  nearest_even x k → nearest_even x' k' → (x <= x')%R → (k <= k')%Z.
Proof.
  intros [Hn He] [Hn' He'] Hx. destruct (Z_lt_le_dec k' k) as [Hlt | ?]; [| done].
  assert (IZR k' + 1 <= IZR k)%R as Hk by (rewrite <- plus_IZR; apply IZR_le; lia).
  pose proof (Rabs_bound _ _ Hn) as Hb. pose proof (Rabs_bound _ _ Hn') as Hb'.
  assert (IZR k - x = 1 / 2)%R as H1 by lra.
  assert (IZR k' - x' = - (1 / 2))%R as H2 by lra.
  assert (IZR k = IZR k' + 1)%R as Hk1 by lra.
  rewrite <- plus_IZR in Hk1. apply eq_IZR in Hk1.
  assert (Z.even k = true) as Hev.
  { apply He. rewrite H1. apply Rabs_pos_eq. lra. }
  assert (Z.even k' = true) as Hev'.
  { apply He'. rewrite H2, Rabs_Ropp. apply Rabs_pos_eq. lra. }
  subst k. rewrite Z.even_add in Hev. rewrite Hev' in Hev. done.
Qed.

(** *** Shifting a mantissa right *)

Lemma shr_1_nonneg (m : Z) (r s : bool) :
  (0 <= m)%Z →
  shr_1 (Build_shr_record m r s) = Build_shr_record (m / 2) (Z.odd m) (r || s).
Proof.
  intros Hm. rewrite <- Z.div2_div.
  destruct m as [| [p | p |] | p]; try reflexivity. lia.
Qed.

Lemma iter_pos_iter {A} (f : A → A) (p : positive) (x : A) :
  SpecFloat.iter_pos f p x = Pos.iter f x p.
Proof.
  revert x. induction p as [p IH | p IH |]; intros x; simpl; [| | done].
  - rewrite !IH. by rewrite <- !Pos.iter_swap.
  - by rewrite !IH.
Qed.

Lemma shr_iter (m : Z) (p : positive) :
  (0 <= m)%Z →
  SpecFloat.iter_pos shr_1 p (Build_shr_record m false false) =
  Build_shr_record (m / 2 ^ Z.pos p) (Z.odd (m / 2 ^ (Z.pos p - 1)))
    (negb (m mod 2 ^ (Z.pos p - 1) =? 0)%Z).
Proof.
  intros Hm. rewrite iter_pos_iter.
  induction p as [| p IH] using Pos.peano_ind.
  - cbn [Pos.iter]. rewrite shr_1_nonneg by done.
    change (Z.pos 1 - 1)%Z with 0%Z. change (2 ^ Z.pos 1)%Z with 2%Z.
    change (2 ^ 0)%Z with 1%Z. by rewrite Z.div_1_r, Z.mod_1_r.
  - rewrite Pos.iter_succ, IH.
    rewrite shr_1_nonneg by (apply Z.div_pos; [done | apply Z.pow_pos_nonneg; lia]).
    rewrite Pos2Z.inj_succ. replace (Z.succ (Z.pos p) - 1)%Z with (Z.pos p) by lia.
    f_equal.
    + rewrite Z.pow_succ_r by lia. rewrite Z.div_div by (try apply Z.pow_pos_nonneg; lia).
      f_equal. lia.
    + set (D := (2 ^ (Z.pos p - 1))%Z).
      assert (0 < D)%Z as HD by (apply Z.pow_pos_nonneg; lia).
      replace (2 ^ Z.pos p)%Z with (D * 2)%Z.
      2:{ unfold D. replace (Z.pos p) with (Z.succ (Z.pos p - 1)) at 2 by lia.
          rewrite Z.pow_succ_r by lia. lia. }
      rewrite Z.rem_mul_r by lia.
      pose proof (Z.mod_pos_bound m D HD) as Hlow.
      pose proof (Z.mod_pos_bound (m / D) 2 eq_refl) as Hbit.
      rewrite Zodd_mod.
      destruct (Z.eqb_spec (m mod D) 0) as [H0 | H0];
        destruct (Z.eqb_spec ((m / D) mod 2) 1) as [H1 | H1]; simpl;
        symmetry.
      * apply negb_true_iff, Z.eqb_neq. nia.
      * apply negb_false_iff, Z.eqb_eq. nia.
      * apply negb_true_iff, Z.eqb_neq. nia.
      * apply negb_true_iff, Z.eqb_neq. nia.
Qed.

Lemma shr_nearest (m : Z) (p : positive) :
  (0 <= m)%Z →
  let mrs := SpecFloat.iter_pos shr_1 p (Build_shr_record m false false) in
  let k := round_nearest_even (shr_m mrs) (loc_of_shr_record mrs) in
  nearest_even (IZR m * bpow (- Z.pos p)) k ∧ (m / 2 ^ Z.pos p <= k <= m / 2 ^ Z.pos p + 1)%Z.
Proof.
  intros Hm mrs k. subst k mrs. rewrite shr_iter by done.
  set (D' := (2 ^ (Z.pos p - 1))%Z).
  assert (0 < D')%Z as HD' by (apply Z.pow_pos_nonneg; lia).
  assert (2 ^ Z.pos p = D' * 2)%Z as HD.
  { unfold D'. replace (Z.pos p) with (Z.succ (Z.pos p - 1)) at 1 by lia.
    rewrite Z.pow_succ_r by lia. lia. }
  rewrite HD.
  pose proof (Z.rem_mul_r m D' 2 ltac:(lia) eq_refl) as Hrem.
  pose proof (Z.mod_pos_bound m D' HD') as Hlow.
  pose proof (Z.mod_pos_bound (m / D') 2 eq_refl) as Hbit.
  pose proof (Z.div_mod m (D' * 2) ltac:(lia)) as Hdm.
  set (q := (m / (D' * 2))%Z) in *. set (rem := (m mod (D' * 2))%Z) in *.
  set (low := (m mod D')%Z) in *. set (bit := ((m / D') mod 2)%Z) in *.
  set (u := bpow (- Z.pos p)).
  assert (IZR (D' * 2) * u = 1)%R as Hu.
  { unfold u. rewrite <- HD, <- bpow_IZR by lia. apply bpow_opp. }
  assert (0 < u)%R as Hu0 by apply bpow_pos.
  assert (IZR m * u = IZR q + IZR rem * u)%R as Hx.
  { assert (IZR m = IZR (D' * 2) * IZR q + IZR rem)%R as ->.
    { rewrite <- mult_IZR, <- plus_IZR. f_equal. exact Hdm. }
    replace ((IZR (D' * 2) * IZR q + IZR rem) * u)%R
      with (IZR (D' * 2) * u * IZR q + IZR rem * u)%R by ring.
    rewrite Hu. ring. }
  rewrite Hx. rewrite Zodd_mod. fold bit. cbn [shr_m].
  assert (∀ a b : Z, (a < b)%Z → (IZR a * u < IZR b * u)%R) as Hlt.
  { intros a b Hab. apply Rmult_lt_compat_r; [done | by apply IZR_lt]. }
  assert (IZR (2 * rem) * u = 2 * (IZR rem * u))%R as H2 by (rewrite mult_IZR; ring).
  destruct (Z.eqb_spec bit 1) as [H1 | H1]; destruct (Z.eqb_spec low 0) as [H0 | H0];
    cbn [negb loc_of_shr_record round_nearest_even].
  - (* a tie *)
    assert (2 * rem = D' * 2)%Z as Hr by lia.
    assert (IZR rem * u = 1 / 2)%R as Hh by (rewrite <- Hr in Hu; lra).
    destruct (Z.even q) eqn:Hev.
    + split; [| lia]. split.
      * replace (IZR q - (IZR q + IZR rem * u))%R with (- (1 / 2))%R by lra.
        rewrite Rabs_Ropp, Rabs_pos_eq; lra.
      * done.
    + split; [| lia]. split.
      * rewrite plus_IZR.
        replace (IZR q + 1 - (IZR q + IZR rem * u))%R with (1 / 2)%R by lra.
        rewrite Rabs_pos_eq; lra.
      * intros _. rewrite Z.even_add, Hev. done.
  - (* above the middle *)
    assert (D' * 2 < 2 * rem)%Z as Hr by lia.
    assert (2 * rem < 2 * (D' * 2))%Z as Hr' by lia.
    apply Hlt in Hr, Hr'. rewrite !H2 in *. rewrite mult_IZR in Hr'.
    split; [| lia]. unfold nearest_even. rewrite plus_IZR. split.
    + apply Rabs_le. nra.
    + intros Habs. exfalso. revert Habs. unfold Rabs. destruct (Rcase_abs _); nra.
  - (* exact *)
    assert (rem = 0)%Z as -> by lia. split; [| lia].
    replace (IZR q + 0 * u)%R with (IZR q) by ring. apply nearest_even_exact.
  - (* below the middle *)
    assert (2 * rem < D' * 2)%Z as Hr by lia.
    assert (0 <= rem)%Z as Hr' by lia.
    apply Hlt in Hr. rewrite !H2 in *. apply IZR_le in Hr'.
    split; [| lia]. split.
    + apply Rabs_le. nra.
    + intros Habs. exfalso. revert Habs. unfold Rabs. destruct (Rcase_abs _); nra.
Qed.

(** *** [binary_round_aux] rounds to the grid of the binade *)

Lemma round_finish (k g : Z) (r : spec_float) :
  (0 <= k)%Z → (fexp prec emax (Zdigits2 k + g) <= g)%Z →
  (let '(mrs, e) := shr_fexp prec emax k g loc_Exact in
   match shr_m mrs with
   | Z0 => S754_zero false
   | Z.pos m => if (e <=? emax - prec)%Z then S754_finite false m e else S754_infinity false
   | Z.neg _ => S754_nan
   end) = r →
  (r = S754_infinity false ∧ (emax - prec < g)%Z) ∨
  (nonneg_finite r ∧ SF2R r = (IZR k * bpow g)%R).
Proof.
  intros Hk Hn. unfold shr_fexp, shr.
  destruct (fexp prec emax (Zdigits2 k + g) - g)%Z as [| p | p] eqn:Hp; [| lia |];
    cbn [shr_record_of_loc shr_m].
  all: destruct k as [| mk | mk]; [| | lia].
  all: try (intros <-; right; split; [left; by eexists | simpl; ring]).
  all: destruct (Z.leb_spec g (emax - prec)); intros <-; [right | by left].
  all: split; [right; by do 2 eexists | simpl; ring].
Qed.

Lemma round_finish_carry (g : Z) (r : spec_float) :
  (emin <= g)%Z →
  (let '(mrs, e) := shr_fexp prec emax (2 ^ 53) g loc_Exact in
   match shr_m mrs with
   | Z0 => S754_zero false
   | Z.pos m => if (e <=? emax - prec)%Z then S754_finite false m e else S754_infinity false
   | Z.neg _ => S754_nan
   end) = r →
  (r = S754_infinity false ∧ (emax - prec <= g)%Z) ∨
  (nonneg_finite r ∧ SF2R r = (IZR (2 ^ 53) * bpow g)%R).
Proof.
  intros Hg. unfold shr_fexp, shr.
  replace (fexp prec emax (Zdigits2 (2 ^ 53) + g) - g)%Z with 1%Z.
  2:{ change (Zdigits2 (2 ^ 53)) with 54%Z. unfold fexp, emin, prec, emax in *. lia. }
  cbn [shr_record_of_loc SpecFloat.iter_pos]. change (2 ^ 53)%Z with 9007199254740992%Z.
  cbn [shr_1 shr_m orb].
  destruct (Z.leb_spec (g + 1) (emax - prec)); intros <-; [right | left; split; [done | lia]].
  split; [right; by do 2 eexists |]. cbn [SF2R].
  rewrite bpow_add. replace (bpow 1) with 2%R by (unfold bpow; simpl; ring). lra.
Qed.

Lemma binary_round_aux_spec (m : positive) (e : Z) :
  let g := fexp prec emax (Z.pos (digits2_pos m) + e) in
  let r := binary_round_aux prec emax false (Z.pos m) e loc_Exact in
  ∃ k, nearest_even (IZR (Z.pos m) * bpow (e - g)) k ∧
       ((r = S754_infinity false ∧ (emax - prec <= Z.max e g)%Z) ∨
        (nonneg_finite r ∧ SF2R r = (IZR k * bpow g)%R)).
Proof.
  intros g r.
  assert (binary_round_aux prec emax false (Z.pos m) e loc_Exact = r) as Hr by done.
  clearbody r. unfold binary_round_aux in Hr.
  unfold shr_fexp at 1 in Hr. cbn [Zdigits2 shr_record_of_loc] in Hr. fold g in Hr.
  unfold shr in Hr.
  pose proof (digits2_pos_bounds m) as [Hlo Hhi].
  set (d := Z.pos (digits2_pos m)) in *.
  destruct (g - e)%Z as [| p | p] eqn:Hp.
  - (* nothing to shift *)
    cbn [shr_m loc_of_shr_record round_nearest_even] in Hr.
    exists (Z.pos m). split.
    { replace (e - g)%Z with 0%Z by lia. rewrite bpow_0, Rmult_1_r. apply nearest_even_exact. }
    assert (g = e) as Hg by lia. rewrite Hg.
    destruct (round_finish (Z.pos m) e r) as [[-> Hov] | Hfin]; [lia | | exact Hr | | by right].
    + cbn [Zdigits2]. fold d. fold g. lia.
    + left. split; [done | lia].
  - (* the mantissa is shifted right by [p] and rounded *)
    pose proof (shr_nearest (Z.pos m) p ltac:(lia)) as [Hne Hk].
    cbv zeta in Hne, Hk.
    set (k := round_nearest_even _ _) in *.
    replace (e + Z.pos p)%Z with g in Hr by lia.
    exists k. split; [by replace (e - g)%Z with (- Z.pos p)%Z by lia |].
    assert (0 <= Z.pos m / 2 ^ Z.pos p)%Z as Hq0
      by (apply Z.div_pos; [lia | apply Z.pow_pos_nonneg; lia]).
    destruct (Z_lt_le_dec (d + e - prec) emin) as [Hsub | Hnorm].
    + (* subnormal *)
      assert (g = emin) as Hg by (unfold g, fexp; fold d; lia).
      assert (Z.pos m / 2 ^ Z.pos p < 2 ^ 52)%Z as Hq.
      { apply Z.div_lt_upper_bound; [apply Z.pow_pos_nonneg; lia |].
        rewrite <- Z.pow_add_r by lia.
        eapply Z.lt_le_trans; [exact Hhi |]. apply Z.pow_le_mono_r; [lia |].
        unfold prec in *. lia. }
      destruct (round_finish k g r) as [[-> Hov] | Hfin]; [lia | | exact Hr | | by right].
      2:{ left. split; [done | lia]. }
      destruct (Z.eq_dec k 0%Z) as [Hk0 | Hk0].
      { rewrite Hk0 in *. simpl Zdigits2. rewrite Hg. unfold fexp, emin, prec, emax. lia. }
      assert (Zdigits2 k <= 53)%Z.
      { pose proof (Zdigits2_bounds k ltac:(lia)) as [Hd1 _].
        destruct (Z_lt_le_dec 53 (Zdigits2 k)) as [Hgt | ?]; [| done].
        assert (2 ^ 53 <= 2 ^ (Zdigits2 k - 1))%Z by (apply Z.pow_le_mono_r; lia).
        change (2 ^ 52)%Z with 4503599627370496%Z in *.
        change (2 ^ 53)%Z with 9007199254740992%Z in *. lia. }
      rewrite Hg. unfold fexp, emin, prec, emax. lia.
    + (* normal *)
      assert (g = d + e - prec)%Z as Hg by (unfold g, fexp; fold d; lia).
      assert (Z.pos p = d - prec)%Z as Hpd by lia.
      assert (2 ^ 52 <= Z.pos m / 2 ^ Z.pos p)%Z as Hq1.
      { apply Z.div_le_lower_bound; [apply Z.pow_pos_nonneg; lia |].
        rewrite <- Z.pow_add_r by lia.
        replace (Z.pos p + 52)%Z with (d - 1)%Z by (unfold prec in *; lia). done. }
      assert (Z.pos m / 2 ^ Z.pos p < 2 ^ 53)%Z as Hq2.
      { apply Z.div_lt_upper_bound; [apply Z.pow_pos_nonneg; lia |].
        rewrite <- Z.pow_add_r by lia.
        replace (Z.pos p + 53)%Z with d by (unfold prec in *; lia). done. }
      destruct (Z.eq_dec k (2 ^ 53)%Z) as [Hk53 | Hk53].
      * rewrite Hk53 in *.
        destruct (round_finish_carry g r) as [[-> Hov] | Hfin]; [lia | exact Hr | | by right].
        left. split; [done | lia].
      * destruct (round_finish k g r) as [[-> Hov] | Hfin]; [lia | | exact Hr | | by right].
        2:{ left. split; [done | lia]. }
        rewrite (Zdigits2_unique k 53) by (simpl Z.sub; lia).
        unfold fexp, emin, prec, emax in *. lia.
  - (* the mantissa is already on the grid *)
    cbn [shr_m loc_of_shr_record round_nearest_even] in Hr.
    exists (Z.pos m * 2 ^ (e - g))%Z. split.
    { rewrite bpow_IZR by lia. rewrite <- mult_IZR. apply nearest_even_exact. }
    assert (IZR (Z.pos m) * bpow e = IZR (Z.pos m * 2 ^ (e - g)) * bpow g)%R as Hv.
    { rewrite mult_IZR, <- bpow_IZR by lia.
      rewrite Rmult_assoc, <- bpow_add. f_equal. f_equal. lia. }
    rewrite <- Hv.
    destruct (round_finish (Z.pos m) e r) as [[-> Hov] | Hfin]; [lia | | exact Hr | | by right].
    + cbn [Zdigits2]. fold d. fold g. lia.
    + left. split; [done | lia].
Qed.

Lemma binary_round_aux_rounds (m : positive) (e : Z) :
  let r := binary_round_aux prec emax false (Z.pos m) e loc_Exact in
  (r = S754_infinity false ∧
   (emax - prec <= Z.max e (fexp prec emax (Z.pos (digits2_pos m) + e)))%Z) ∨
  (nonneg_finite r ∧ rounds_to (IZR (Z.pos m) * bpow e) (SF2R r)).
Proof.
  intros r. destruct (binary_round_aux_spec m e) as (k & Hk & [Hr | [Hr Hv]]); [by left |].
  right. split; [done |].
  exists (Z.pos (digits2_pos m) + e)%Z, k. split; [apply binade |]. split; [| done].
  rewrite Rmult_assoc, <- bpow_add.
  by replace (e + - fexp prec emax (Z.pos (digits2_pos m) + e))%Z
    with (e - fexp prec emax (Z.pos (digits2_pos m) + e))%Z by lia.
Qed.

Lemma iter_xO (m d : positive) : Z.pos (Pos.iter xO m d) = (Z.pos m * 2 ^ Z.pos d)%Z.
Proof.
  induction d as [| d IH] using Pos.peano_ind; [simpl; lia |].
  rewrite Pos.iter_succ, Pos2Z.inj_succ, Z.pow_succ_r by lia.
  rewrite Pos2Z.inj_xO, IH. lia.
Qed.

Lemma shl_align_value (mx : positive) (ex ex' : Z) :
  (IZR (Z.pos (shl_align mx ex ex').1) * bpow (shl_align mx ex ex').2
   = IZR (Z.pos mx) * bpow ex)%R ∧
  (shl_align mx ex ex').2 = Z.min ex ex'.
Proof.
  unfold shl_align. destruct (ex' - ex)%Z as [| d | d] eqn:Hd; cbn [fst snd].
  - split; [done | lia].
  - split; [done | lia].
  - split; [| lia]. rewrite iter_xO, mult_IZR, <- bpow_IZR by lia.
    rewrite Rmult_assoc, <- bpow_add. f_equal. f_equal. lia.
Qed.

Lemma binary_round_rounds (m : positive) (e : Z) :
  let r := binary_round prec emax false m e in
  (r = S754_infinity false ∧ (bpow (emax - 1) <= IZR (Z.pos m) * bpow e)%R) ∨
  (nonneg_finite r ∧ rounds_to (IZR (Z.pos m) * bpow e) (SF2R r)).
Proof.
  intros r. subst r. unfold binary_round.
  pose proof (shl_align_value m e (fexp prec emax (Z.pos (digits2_pos m) + e))) as [Hv He].
  destruct (shl_align m e _) as [mz ez]. cbn [fst snd] in Hv, He. rewrite <- Hv.
  destruct (binary_round_aux_rounds mz ez) as [[Hr Hov] | Hr]; [left | by right].
  split; [done |].
  pose proof (binade mz ez) as Hbz. pose proof (binade m e) as Hb. rewrite <- Hv in Hb.
  pose proof (binade_unique _ _ _ Hbz Hb) as HE. rewrite HE in Hov, Hbz.
  eapply Rle_trans; [| apply Hbz]. apply bpow_le.
  unfold fexp, emin, prec, emax in *. lia.
Qed.

(** *** Rounding is monotone and keeps the order with binary64 numbers *)

Lemma grid_multiple (g a : Z) : (g <= a)%Z → bpow a = (IZR (2 ^ (a - g)) * bpow g)%R.
Proof.
  intros Hg. rewrite <- bpow_IZR by lia. rewrite <- bpow_add. f_equal. lia.
Qed.

Lemma scaled_le (v : R) (J g : Z) :
  (v <= IZR J * bpow g)%R → (v * bpow (- g) <= IZR J)%R.
Proof.
  intros Hv. pose proof (bpow_pos (- g)).
  assert (v * bpow (- g) <= IZR J * bpow g * bpow (- g))%R as Hs
    by (apply Rmult_le_compat_r; lra).
  rewrite Rmult_assoc, bpow_opp, Rmult_1_r in Hs. done.
Qed.

Lemma scaled_ge (v : R) (J g : Z) :
  (IZR J * bpow g <= v)%R → (IZR J <= v * bpow (- g))%R.
Proof.
  intros Hv. pose proof (bpow_pos (- g)).
  assert (IZR J * bpow g * bpow (- g) <= v * bpow (- g))%R as Hs
    by (apply Rmult_le_compat_r; lra).
  rewrite Rmult_assoc, bpow_opp, Rmult_1_r in Hs. done.
Qed.

Lemma grid_le (k J g : Z) : (k <= J)%Z → (IZR k * bpow g <= IZR J * bpow g)%R.
Proof.
  intros Hk. apply Rmult_le_compat_r; [pose proof (bpow_pos g); lra | by apply IZR_le].
Qed.

Lemma rounds_to_le_repr (v r y : R) :
  rounds_to v r → representable y → (v <= y)%R → (r <= y)%R.
Proof.
  intros (E & k & Hb & Hk & ->) [-> | (Ey & j & Hby & Hy)] Hvy.
  { pose proof (bpow_pos (E - 1)). lra. }
  pose proof (binade_mono _ _ _ _ Hb Hby Hvy) as HE.
  apply fexp_mono in HE.
  set (g := fexp prec emax E) in *. set (gy := fexp prec emax Ey) in *.
  assert (y = IZR (j * 2 ^ (gy - g)) * bpow g)%R as Hy'.
  { rewrite Hy, (grid_multiple g gy HE), mult_IZR. ring. }
  rewrite Hy'. apply grid_le. eapply nearest_even_le; [exact Hk |].
  apply scaled_le. lra.
Qed.

Lemma rounds_to_nonneg (v r : R) : rounds_to v r → (0 <= r)%R.
Proof.
  intros (E & k & Hb & Hk & ->).
  assert (0 <= k)%Z as Hk0.
  { eapply nearest_even_ge; [exact Hk |].
    pose proof (bpow_pos (E - 1)). pose proof (bpow_pos (- fexp prec emax E)). nra. }
  apply IZR_le in Hk0. pose proof (bpow_pos (fexp prec emax E)). nra.
Qed.

Lemma rounds_to_ge_binade (v r : R) (E : Z) :
  rounds_to v r → (bpow (E - 1) <= v < bpow E)%R →
  (fexp prec emax E <= E - 1)%Z → (bpow (E - 1) <= r)%R.
Proof.
  intros (E' & k & Hb' & Hk & ->) Hb Hg.
  rewrite (binade_unique _ _ _ Hb' Hb) in *.
  rewrite (grid_multiple _ _ Hg). apply grid_le.
  eapply nearest_even_ge; [exact Hk |]. apply scaled_ge.
  rewrite <- (grid_multiple _ _ Hg). lra.
Qed.

Lemma rounds_to_ge_repr (v r y : R) :
  rounds_to v r → representable y → (y <= v)%R → (y <= r)%R.
Proof.
  intros Hr [-> | (Ey & j & Hby & Hy)] Hvy; [by eapply rounds_to_nonneg |].
  pose proof Hr as (E & k & Hb & Hk & Hrk).
  pose proof (binade_mono _ _ _ _ Hby Hb Hvy) as HE.
  destruct (Z.eq_dec Ey E) as [-> | Hne].
  - rewrite Hrk, Hy. apply grid_le. eapply nearest_even_ge; [exact Hk |].
    apply scaled_ge. lra.
  - assert (bpow Ey <= bpow (E - 1))%R as HB by (apply bpow_le; lia).
    destruct (Z_le_gt_dec (fexp prec emax E) (E - 1)) as [Hg | Hg].
    + pose proof (rounds_to_ge_binade _ _ _ Hr Hb Hg). lra.
    + exfalso.
      assert (fexp prec emax Ey = emin) as Hgy
        by (unfold fexp, emin, prec, emax in *; lia).
      assert (1 <= j)%Z as Hj.
      { destruct (Z_lt_le_dec j 1) as [Hlt | ?]; [| done].
        assert (IZR j <= 0)%R by (apply IZR_le; lia).
        pose proof (bpow_pos (fexp prec emax Ey)). pose proof (bpow_pos (Ey - 1)). nra. }
      apply IZR_le in Hj. rewrite Hgy in Hy.
      assert (bpow Ey <= bpow emin)%R
        by (apply bpow_le; unfold fexp, emin, prec, emax in *; lia).
      pose proof (bpow_pos emin). nra.
Qed.

Lemma rounds_to_mono (v r v' r' : R) :
  rounds_to v r → rounds_to v' r' → (v <= v')%R → (r <= r')%R.
Proof.
  intros Hr Hr' Hv.
  pose proof Hr as (E & k & Hb & Hk & Hrk). pose proof Hr' as (E' & k' & Hb' & Hk' & Hrk').
  pose proof (binade_mono _ _ _ _ Hb Hb' Hv) as HE.
  destruct (Z.eq_dec (fexp prec emax E) (fexp prec emax E')) as [Hg | Hg].
  - rewrite Hrk, Hrk', Hg. apply grid_le. eapply nearest_even_mono; [exact Hk | exact Hk' |].
    rewrite Hg. apply Rmult_le_compat_r; [| done].
    pose proof (bpow_pos (- fexp prec emax E')). lra.
  - assert (fexp prec emax E <= fexp prec emax E')%Z as Hle by by apply fexp_mono.
    assert (fexp prec emax E' <= E' - 1)%Z as Hg' by (unfold fexp, emin, prec, emax in *; lia).
    assert (E <= E' - 1)%Z as HE' by (unfold fexp, emin, prec, emax in *; lia).
    pose proof (rounds_to_ge_binade _ _ _ Hr' Hb' Hg') as HB.
    assert (r <= bpow (E' - 1))%R; [| lra].
    assert (fexp prec emax E <= E' - 1)%Z as Hg1 by lia.
    rewrite Hrk, (grid_multiple _ _ Hg1). apply grid_le.
    eapply nearest_even_le; [exact Hk |]. apply scaled_le.
    rewrite <- (grid_multiple _ _ Hg1).
    assert (bpow E <= bpow (E' - 1))%R by by apply bpow_le. lra.
Qed.

(** *** Valid floats *)

Lemma bounded_canonical (m : positive) (e : Z) :
  SpecFloat.bounded prec emax m e = true →
  e = fexp prec emax (Z.pos (digits2_pos m) + e).
Proof.
  unfold SpecFloat.bounded, canonical_mantissa. intros [H%Z.eqb_eq _]%andb_prop. done.
Qed.

Lemma valid_representable (m : positive) (e : Z) :
  SpecFloat.bounded prec emax m e = true → representable (IZR (Z.pos m) * bpow e).
Proof.
  intros He%bounded_canonical. right.
  exists (Z.pos (digits2_pos m) + e)%Z, (Z.pos m). split; [apply binade |]. by rewrite <- He.
Qed.

Lemma valid_exponent (m : positive) (e B : Z) :
  SpecFloat.bounded prec emax m e = true →
  (IZR (Z.pos m) * bpow e < bpow B)%R → (e <= fexp prec emax B)%Z.
Proof.
  intros He%bounded_canonical Hv. pose proof (binade m e) as [Hlo _].
  assert (Z.pos (digits2_pos m) + e - 1 < B)%Z by (apply bpow_lt_inv; lra).
  rewrite He. apply fexp_mono. lia.
Qed.

Lemma SF2R_nonneg (x : spec_float) : nonneg_finite x → (0 <= SF2R x)%R.
Proof.
  intros [[s ->] | (m & e & ->)]; simpl; [lra |].
  pose proof (bpow_pos e). assert (0 < IZR (Z.pos m))%R by (apply IZR_lt; lia). nra.
Qed.

Lemma SF2R_representable (x : spec_float) :
  SpecFloat.valid_binary prec emax x = true → nonneg_finite x → representable (SF2R x).
Proof.
  intros Hv [[s ->] | (m & e & ->)]; [by left |].
  cbn [SF2R]. rewrite Rmult_1_l. by apply valid_representable.
Qed.

(** *** Comparisons *)

Lemma Prim2SF_one : Prim2SF 1 = S754_finite false 4503599627370496 (-52).
Proof. reflexivity. Qed.

Lemma leb_zero_cases (x : float) :
  PrimFloat.leb 0 x = true →
  nonneg_finite (Prim2SF x) ∨ Prim2SF x = S754_infinity false.
Proof.
  rewrite leb_spec. change (Prim2SF 0) with (S754_zero false).
  unfold SFleb, SFcompare. destruct (Prim2SF x) as [s | [] | | [] m e]; try done.
  - intros _. left. left. by eexists.
  - by right.
  - intros _. left. right. by do 2 eexists.
Qed.

Lemma leb_infinity (y : float) : Prim2SF y = S754_infinity false → PrimFloat.leb y 1 = false.
Proof.
  intros Hy. rewrite leb_spec, Hy, Prim2SF_one. reflexivity.
Qed.

Lemma SFleb_one (m : positive) (e : Z) :
  SFleb (S754_finite false m e) (S754_finite false 4503599627370496 (-52)) = true →
  (e < -52)%Z ∨ (e = (-52)%Z ∧ (m ?= 4503599627370496)%positive ≠ Gt).
Proof.
  unfold SFleb, SFcompare.
  destruct (Z.compare_spec e (-52)) as [-> | Hlt | Hgt]; [| by left | done].
  intros Hle. right. split; [done |]. unfold Pos.compare. intros Hc. rewrite Hc in Hle. done.
Qed.

Lemma mantissa_le_one (m : positive) :
  (m ?= 4503599627370496)%positive ≠ Gt → (Z.pos m <= 2 ^ 52)%Z.
Proof.
  intros Hle.
  destruct (Z_le_gt_dec (Z.pos m) (2 ^ 52)) as [? | Hgt]; [done |].
  exfalso. apply Hle. apply Pos.compare_gt_iff. lia.
Qed.

Lemma leb_one_le (x : float) :
  PrimFloat.leb x 1 = true → nonneg_finite (Prim2SF x) → (SF2R (Prim2SF x) <= 1)%R.
Proof.
  rewrite leb_spec, Prim2SF_one. pose proof (Prim2SF_valid x) as Hv.
  intros Hle [[s Hx] | (m & e & Hx)]; rewrite Hx in Hv, Hle |- *; cbn [SF2R]; [lra |].
  cbn [SpecFloat.valid_binary] in Hv. rewrite Rmult_1_l.
  apply SFleb_one in Hle as [Hlt | [-> Hm%mantissa_le_one]].
  - apply bounded_canonical in Hv. pose proof (binade m e) as [_ Hhi].
    assert (Z.pos (digits2_pos m) + e <= 0)%Z
      by (unfold fexp, emin, prec, emax in *; lia).
    assert (bpow (Z.pos (digits2_pos m) + e) <= bpow 0)%R by by apply bpow_le.
    rewrite bpow_0 in *. lra.
  - apply IZR_le in Hm. rewrite <- (bpow_IZR 52) in Hm by lia.
    pose proof (bpow_pos (-52)) as Hu. pose proof (bpow_opp 52) as H1.
    change (- (52))%Z with (-52)%Z in H1. rewrite <- H1.
    apply Rmult_le_compat_r; lra.
Qed.

(** *** Conversions between integers and floats *)

Lemma rounds_to_exact (v r : R) : rounds_to v r → representable v → r = v.
Proof.
  intros Hr Hv. apply Rle_antisym.
  - eapply rounds_to_le_repr; [exact Hr | exact Hv | lra].
  - eapply rounds_to_ge_repr; [exact Hr | exact Hv | lra].
Qed.

Lemma representable_int (T : Z) : (0 <= T < 2 ^ 53)%Z → representable (IZR T).
Proof.
  intros [H0 H53]. destruct (Z.eq_dec T 0%Z) as [-> | Hne]; [by left |]. right.
  pose proof (Zdigits2_bounds T ltac:(lia)) as [Hlo Hhi].
  pose proof (Zdigits2_pos T ltac:(lia)) as Hd.
  set (d := Zdigits2 T) in *.
  assert (d <= 53)%Z as Hd53.
  { destruct (Z_lt_le_dec 53 d) as [Hgt | ?]; [| done].
    assert (2 ^ 53 <= 2 ^ (d - 1))%Z by (apply Z.pow_le_mono_r; lia). lia. }
  exists d, (T * 2 ^ (53 - d))%Z. split.
  - rewrite !bpow_IZR by lia. split; [by apply IZR_le | by apply IZR_lt].
  - replace (fexp prec emax d) with (d - 53)%Z by (unfold fexp, emin, prec, emax; lia).
    rewrite mult_IZR, <- bpow_IZR by lia. rewrite Rmult_assoc, <- bpow_add.
    replace (53 - d + (d - 53))%Z with 0%Z by lia. rewrite bpow_0. ring.
Qed.

Lemma Prim2SF_f64_of_Z (T : Z) :
  (0 <= T < 2 ^ 53)%Z →
  nonneg_finite (Prim2SF (f64_of_Z T)) ∧ SF2R (Prim2SF (f64_of_Z T)) = IZR T.
Proof.
  intros HT. destruct T as [| p | p]; [| | lia].
  { change (Prim2SF (f64_of_Z 0)) with (S754_zero false). split; [left; by eexists | done]. }
  unfold f64_of_Z. rewrite of_uint63_spec, Uint63.of_Z_spec.
  assert (2 ^ 53 < Uint63.wB)%Z as HwB by reflexivity.
  rewrite Z.mod_small by lia. cbn [binary_normalize].
  destruct (binary_round_rounds p 0) as [[_ Hov] | [Hfin Hr]].
  - exfalso. rewrite bpow_0, Rmult_1_r in Hov.
    assert (IZR (Z.pos p) < bpow 53)%R by (rewrite bpow_IZR by lia; apply IZR_lt; lia).
    assert (bpow 53 <= bpow (emax - 1))%R by (apply bpow_le; unfold emax; lia). lra.
  - split; [done |]. rewrite bpow_0, Rmult_1_r in Hr.
    apply rounds_to_exact; [done | by apply representable_int].
Qed.

Lemma f64_int_floor (x : float) :
  nonneg_finite (Prim2SF x) →
  ∃ a, f64_int x = Ok a ∧ (IZR a <= SF2R (Prim2SF x) < IZR a + 1)%R.
Proof.
  unfold f64_int. intros [[s ->] | (m & e & ->)].
  { exists 0%Z. simpl. split; [done | lra]. }
  cbn [SF2R]. rewrite Rmult_1_l. destruct (Z.leb_spec 0 e) as [He | He].
  - exists (Z.pos m * 2 ^ e)%Z. split; [done |].
    rewrite mult_IZR, <- bpow_IZR by done. lra.
  - exists (Z.pos m / 2 ^ (- e))%Z. split; [done |].
    set (D := (2 ^ (- e))%Z). assert (0 < D)%Z as HD by (apply Z.pow_pos_nonneg; lia).
    pose proof (Z.div_mod (Z.pos m) D ltac:(lia)) as Hdm.
    pose proof (Z.mod_pos_bound (Z.pos m) D HD) as Hrem.
    set (a := (Z.pos m / D)%Z) in *.
    assert (IZR D * bpow e = 1)%R as Hu.
    { unfold D. rewrite <- bpow_IZR by lia. rewrite Rmult_comm. 
      pose proof (bpow_opp e) as H1. done. }
    pose proof (bpow_pos e) as Hpos.
    assert (a * D <= Z.pos m)%Z as H1 by lia.
    assert (Z.pos m < (a + 1) * D)%Z as H2 by lia.
    apply IZR_le in H1. apply IZR_lt in H2. rewrite mult_IZR in H1, H2.
    rewrite plus_IZR in H2.
    assert (IZR a = IZR a * IZR D * bpow e)%R as Ha by (rewrite Rmult_assoc, Hu; ring).
    assert (IZR a + 1 = (IZR a + 1) * IZR D * bpow e)%R as Ha' by (rewrite Rmult_assoc, Hu; ring).
    split.
    + rewrite Ha. apply Rmult_le_compat_r; lra.
    + rewrite Ha'. apply Rmult_lt_compat_r; lra.
Qed.

(** *** Sums and products of non-negative floats *)

Lemma SFadd_rounds (x y : spec_float) :
  SpecFloat.valid_binary prec emax x = true →
  nonneg_finite x → nonneg_finite y →
  let s := SFadd prec emax x y in
  s = S754_infinity false ∨ (nonneg_finite s ∧ (SF2R x <= SF2R s)%R).
Proof.
  intros Hv Hx Hy s. subst s. pose proof (SF2R_nonneg y Hy) as Hy0.
  pose proof (SF2R_representable x Hv Hx) as Hrep.
  destruct Hx as [[sx ->] | (mx & ex & ->)]; destruct Hy as [[sy ->] | (my & ey & ->)].
  - right. destruct sx, sy; simpl; (split; [left; by eexists | lra]).
  - right. split; [right; by do 2 eexists | done].
  - right. split; [right; by do 2 eexists | simpl; lra].
  - cbn [SFadd cond_Zopp].
    pose proof (shl_align_value mx ex (Z.min ex ey)) as [Hvx Hex].
    pose proof (shl_align_value my ey (Z.min ex ey)) as [Hvy Hey].
    replace (Z.min ex (Z.min ex ey)) with (Z.min ex ey) in Hex by lia.
    replace (Z.min ey (Z.min ex ey)) with (Z.min ex ey) in Hey by lia.
    rewrite Hex in Hvx. rewrite Hey in Hvy.
    set (a := (shl_align mx ex (Z.min ex ey)).1) in *.
    set (b := (shl_align my ey (Z.min ex ey)).1) in *.
    change (Z.pos a + Z.pos b)%Z with (Z.pos (a + b)). cbn [binary_normalize].
    destruct (binary_round_rounds (a + b) (Z.min ex ey)) as [[Hinf _] | [Hfin Hr]]; [by left |].
    right. split; [done |].
    assert (IZR (Z.pos (a + b)) * bpow (Z.min ex ey)
            = SF2R (S754_finite false mx ex) + SF2R (S754_finite false my ey))%R as Hsum.
    { rewrite Pos2Z.inj_add, plus_IZR, Rmult_plus_distr_r, Hvx, Hvy. simpl. ring. }
    rewrite Hsum in Hr. eapply rounds_to_ge_repr; [exact Hr | exact Hrep | lra].
Qed.

Lemma SFmul_rounds (x y : spec_float) :
  SpecFloat.valid_binary prec emax x = true → SpecFloat.valid_binary prec emax y = true →
  nonneg_finite x → nonneg_finite y →
  (SF2R x < bpow 53)%R → (SF2R y < bpow 1)%R →
  let r := SFmul prec emax x y in
  nonneg_finite r ∧
  ((SF2R x * SF2R y = 0 ∧ SF2R r = 0)%R ∨ rounds_to (SF2R x * SF2R y) (SF2R r)).
Proof.
  intros Hvx Hvy Hx Hy Hbx Hby r. subst r.
  destruct Hx as [[sx ->] | (mx & ex & ->)]; destruct Hy as [[sy ->] | (my & ey & ->)].
  1-3: split; [left; by eexists | left; simpl; split; ring].
  cbn [SFmul xorb]. cbn [SF2R] in *. rewrite !Rmult_1_l in *.
  cbn [SpecFloat.valid_binary] in Hvx, Hvy.
  assert (IZR (Z.pos (mx * my)) * bpow (ex + ey)
          = IZR (Z.pos mx) * bpow ex * (IZR (Z.pos my) * bpow ey))%R as Hprod.
  { rewrite Pos2Z.inj_mul, mult_IZR, bpow_add. ring. }
  destruct (binary_round_aux_rounds (mx * my) (ex + ey)) as [[_ Hov] | [Hfin Hr]].
  - exfalso.
    pose proof (valid_exponent _ _ _ Hvx Hbx) as Hex.
    pose proof (valid_exponent _ _ _ Hvy Hby) as Hey.
    pose proof (binade (mx * my) (ex + ey)) as [Hlo _]. rewrite Hprod in Hlo.
    assert (0 < IZR (Z.pos mx) * bpow ex)%R as Hx0.
    { apply Rmult_lt_0_compat; [apply IZR_lt; lia | apply bpow_pos]. }
    assert (0 < IZR (Z.pos my) * bpow ey)%R as Hy0.
    { apply Rmult_lt_0_compat; [apply IZR_lt; lia | apply bpow_pos]. }
    assert (IZR (Z.pos mx) * bpow ex * (IZR (Z.pos my) * bpow ey) < bpow 54)%R as Hlt.
    { change 54%Z with (53 + 1)%Z. rewrite bpow_add.
      apply Rmult_le_0_lt_compat; lra. }
    assert (Z.pos (digits2_pos (mx * my)) + (ex + ey) - 1 < 54)%Z
      by (apply bpow_lt_inv; lra).
    unfold fexp, emin, prec, emax in *. lia.
  - split; [done |]. right. by rewrite <- Hprod.
Qed.

Lemma bpow_1 : bpow 1 = 2%R.
Proof. unfold bpow. simpl. ring. Qed.

Lemma rounds_to_pos (v r : R) : rounds_to v r → (0 < v)%R.
Proof. intros (E & k & [Hlo _] & _). pose proof (bpow_pos (E - 1)). lra. Qed.

Lemma SFadd_infinity (x y : spec_float) :
  (nonneg_finite x ∨ x = S754_infinity false) →
  (nonneg_finite y ∨ y = S754_infinity false) →
  x = S754_infinity false ∨ y = S754_infinity false →
  SFadd prec emax x y = S754_infinity false.
Proof.
  intros [[[sx ->] | (mx & ex & ->)] | ->] [[[sy ->] | (my & ey & ->)] | ->] [? | ?];
    done.
Qed.

(** *** The split bounds of [generate_dataset] in binary64 *)

Lemma binary64_split_bounds (T : Z) (train_ratio valid_ratio : float) :
  (0 <= T < 2 ^ 53)%Z →
  PrimFloat.leb 0 train_ratio = true → PrimFloat.leb 0 valid_ratio = true →
  PrimFloat.leb (train_ratio + valid_ratio) 1 = true →
  ∃ a b, f64_int (f64_of_Z T * train_ratio) = Ok a ∧
         f64_int (f64_of_Z T * (train_ratio + valid_ratio)) = Ok b ∧
         (0 <= a)%Z ∧ (a <= b)%Z ∧ (b <= T)%Z.
Proof.
  intros HT Ht Hv Hs.
  destruct (Prim2SF_f64_of_Z T HT) as [HTf HTv].
  pose proof (Prim2SF_valid (f64_of_Z T)) as HTok.
  pose proof (Prim2SF_valid train_ratio) as Htok.
  pose proof (Prim2SF_valid (train_ratio + valid_ratio)) as Hsok.
  apply leb_zero_cases in Ht, Hv.
  assert (nonneg_finite (Prim2SF train_ratio) ∧ nonneg_finite (Prim2SF valid_ratio))
    as [Htf Hvf].
  { destruct Ht as [Htf | Htinf], Hv as [Hvf | Hvinf]; [done | | |].
    all: exfalso; assert (Prim2SF (train_ratio + valid_ratio) = S754_infinity false) as Hinf
      by (rewrite add_spec; apply SFadd_infinity; auto).
    all: apply leb_infinity in Hinf; congruence. }
  assert (nonneg_finite (Prim2SF (train_ratio + valid_ratio)) ∧
          (SF2R (Prim2SF train_ratio) <= SF2R (Prim2SF (train_ratio + valid_ratio)))%R)
    as [Hsf Hts].
  { rewrite add_spec. destruct (SFadd_rounds _ _ Htok Htf Hvf) as [Hinf | ?]; [| done].
    exfalso. rewrite <- add_spec in Hinf. apply leb_infinity in Hinf. congruence. }
  pose proof (leb_one_le _ Hs Hsf) as Hs1.
  pose proof (SF2R_nonneg _ Htf) as Ht0.
  set (vt := SF2R (Prim2SF train_ratio)) in *.
  set (vs := SF2R (Prim2SF (train_ratio + valid_ratio))) in *.
  assert (0 <= IZR T < bpow 53)%R as [HT0 HT53].
  { rewrite bpow_IZR by lia. split; [apply IZR_le | apply IZR_lt]; lia. }
  destruct (SFmul_rounds _ _ HTok Htok HTf Htf) as [Hf1 Hr1];
    [rewrite HTv; lra | rewrite bpow_1; fold vt; lra |].
  destruct (SFmul_rounds _ _ HTok Hsok HTf Hsf) as [Hf2 Hr2];
    [rewrite HTv; lra | rewrite bpow_1; fold vs; lra |].
  rewrite <- mul_spec in Hf1, Hr1, Hf2, Hr2. rewrite HTv in Hr1, Hr2.
  fold vt in Hr1. fold vs in Hr2.
  destruct (f64_int_floor _ Hf1) as (a & Ha & Ha1 & Ha2).
  destruct (f64_int_floor _ Hf2) as (b & Hb & Hb1 & Hb2).
  pose proof (SF2R_nonneg _ Hf1) as Hv1. pose proof (SF2R_nonneg _ Hf2) as Hv2.
  set (v1 := SF2R (Prim2SF (f64_of_Z T * train_ratio))) in *.
  set (v2 := SF2R (Prim2SF (f64_of_Z T * (train_ratio + valid_ratio)))) in *.
  assert (IZR T * vt <= IZR T * vs)%R as Hprod by (apply Rmult_le_compat_l; lra).
  assert (IZR T * vs <= IZR T)%R as HprodT.
  { rewrite <- (Rmult_1_r (IZR T)) at 2. apply Rmult_le_compat_l; lra. }
  assert (v2 <= IZR T)%R as H2T.
  { destruct Hr2 as [[_ ->] | Hr2]; [done |].
    eapply rounds_to_le_repr; [exact Hr2 | by apply representable_int | done]. }
  assert (v1 <= v2)%R as H12.
  { destruct Hr1 as [[_ ->] | Hr1]; [done |].
    pose proof (rounds_to_pos _ _ Hr1).
    destruct Hr2 as [[Hz _] | Hr2]; [lra |].
    eapply rounds_to_mono; [exact Hr1 | exact Hr2 | done]. }
  exists a, b. split; [done |]. split; [done |].
  assert (a < b + 1)%Z by (apply lt_IZR; rewrite plus_IZR; lra).
  assert (-1 < a)%Z by (apply lt_IZR; lra).
  assert (b < T + 1)%Z by (apply lt_IZR; rewrite plus_IZR; lra).
  lia.
Qed.

(** ** The three splits *)

(** Bounds in order cut a list into three consecutive pieces. *)
Lemma py_slice_partition {A : Type} (l : list A) (a b : Z) :
  (0 ≤ a)%Z → (a ≤ b)%Z → (b ≤ Z.of_nat (length l))%Z →
  py_slice l 0 a ++ py_slice l a b ++ py_slice l b (Z.of_nat (length l)) = l.
Proof.
  intros Ha Hab Hb. unfold py_slice.
  rewrite !slice_bound_in_range by lia. simpl.
  rewrite Nat.sub_0_r, Nat2Z.id.
  rewrite (take_ge (drop (Z.to_nat b) l)) by (rewrite length_drop; lia).
  replace (Z.to_nat b) with (Z.to_nat a + (Z.to_nat b - Z.to_nat a)) at 2 by lia.
  rewrite <- drop_drop. by rewrite !take_drop.
Qed.

(** A loader is made when the dataset has an example and the batch size is
    positive, and only then. *)
Lemma DataLoader_init_Ok {A : Type} (self : MyDataset A) (batch : Z) :
  (0 < MyDataset_len self)%Z → (0 < batch)%Z →
  DataLoader_init self batch = Ok {| dataset := self; batch_size := batch |}.
Proof. intros Hl Hb. unfold DataLoader_init. by repeat case_decide; try lia. Qed.

Lemma DataLoader_init_Ok_inv {A : Type} (self : MyDataset A) (batch : Z)
    (loader : DataLoader A) :
  DataLoader_init self batch = Ok loader →
  dataset loader = self ∧ batch_size loader = batch ∧
  (0 < MyDataset_len self)%Z ∧ (0 < batch)%Z.
Proof.
  unfold DataLoader_init. repeat case_decide; try done.
  intros [= <-]. simpl. repeat split; lia.
Qed.

(** Once the three datasets are made, [generate_dataset] is the making of
    their loaders. *)
Lemma generate_dataset_loaders {A F : Type} {ratio : Ratio F} (d : tensor A)
    (batch : Z) (train_ratio valid_ratio : F) (H P : Z) (train valid test : MyDataset A) :
  MyDataset_init d (PyInt 0)
    (PyFloat (rmul (float_of_int (shape0 d)) train_ratio)) H P = Ok train →
  MyDataset_init d (PyFloat (rmul (float_of_int (shape0 d)) train_ratio))
    (PyFloat (rmul (float_of_int (shape0 d)) (radd train_ratio valid_ratio))) H P
  = Ok valid →
  MyDataset_init d
    (PyFloat (rmul (float_of_int (shape0 d)) (radd train_ratio valid_ratio)))
    (PyInt (shape0 d)) H P = Ok test →
  generate_dataset d batch train_ratio valid_ratio H P
  = (train_dataloader ← DataLoader_init train batch;
     valid_dataloader ← DataLoader_init valid batch;
     test_dataloader ← DataLoader_init test batch;
     Ok (train_dataloader, valid_dataloader, test_dataloader)).
Proof.
  intros H1 H2 H3. unfold generate_dataset. cbv zeta.
  rewrite H1. cbn [mbind result_bind].
  destruct (DataLoader_init train batch) as [l1 |]; [| done].
  rewrite H2. cbn [mbind result_bind].
  destruct (DataLoader_init valid batch) as [l2 |]; [| done].
  rewrite H3. cbn [mbind result_bind]. done.
Qed.

(** The loaders [generate_dataset] returns hold the three datasets, each
    with an example. *)
Lemma generate_dataset_Ok_inv {A F : Type} {ratio : Ratio F} (d : tensor A)
    (batch : Z) (train_ratio valid_ratio : F) (H P : Z) (train valid test : MyDataset A)
    (l1 l2 l3 : DataLoader A) :
  MyDataset_init d (PyInt 0)
    (PyFloat (rmul (float_of_int (shape0 d)) train_ratio)) H P = Ok train →
  MyDataset_init d (PyFloat (rmul (float_of_int (shape0 d)) train_ratio))
    (PyFloat (rmul (float_of_int (shape0 d)) (radd train_ratio valid_ratio))) H P
  = Ok valid →
  MyDataset_init d
    (PyFloat (rmul (float_of_int (shape0 d)) (radd train_ratio valid_ratio)))
    (PyInt (shape0 d)) H P = Ok test →
  generate_dataset d batch train_ratio valid_ratio H P = Ok (l1, l2, l3) →
  (dataset l1 = train ∧ dataset l2 = valid ∧ dataset l3 = test) ∧
  (0 < MyDataset_len train)%Z ∧ (0 < MyDataset_len valid)%Z ∧
  (0 < MyDataset_len test)%Z ∧ (0 < batch)%Z.
Proof.
  intros H1 H2 H3.
  rewrite (generate_dataset_loaders d batch train_ratio valid_ratio H P _ _ _ H1 H2 H3).
  destruct (DataLoader_init train batch) as [x1 |] eqn:E1; [| done].
  destruct (DataLoader_init valid batch) as [x2 |] eqn:E2; [| done].
  destruct (DataLoader_init test batch) as [x3 |] eqn:E3; [| done].
  cbn [mbind result_bind]. intros [= <- <- <-].
  apply DataLoader_init_Ok_inv in E1 as (? & _ & ? & ?).
  apply DataLoader_init_Ok_inv in E2 as (? & _ & ? & _).
  apply DataLoader_init_Ok_inv in E3 as (? & _ & ? & _). done.
Qed.

(** Whatever the float arithmetic: when the two bounds [generate_dataset]
    computes are integers [a <= b] in [0, T], its three [MyDataset(...)]
    calls return datasets holding the rows [0, a), [a, b) and [b, T), which
    together are the rows of the tensor, in order. *)
Lemma MyDataset_init_partition {A F : Type} {ratio : Ratio F} (d : tensor A)
    (train_ratio valid_ratio : F) (H P a b : Z) :
  int_of_float (rmul (float_of_int (shape0 d)) train_ratio) = Ok a →
  int_of_float (rmul (float_of_int (shape0 d)) (radd train_ratio valid_ratio)) = Ok b →
  (0 ≤ a)%Z → (a ≤ b)%Z → (b ≤ shape0 d)%Z →
  ∃ train valid test,
    MyDataset_init d (PyInt 0)
      (PyFloat (rmul (float_of_int (shape0 d)) train_ratio)) H P = Ok train ∧
    MyDataset_init d (PyFloat (rmul (float_of_int (shape0 d)) train_ratio))
      (PyFloat (rmul (float_of_int (shape0 d)) (radd train_ratio valid_ratio))) H P
    = Ok valid ∧
    MyDataset_init d
      (PyFloat (rmul (float_of_int (shape0 d)) (radd train_ratio valid_ratio)))
      (PyInt (shape0 d)) H P = Ok test ∧
    shape0 (data train) = a ∧
    shape0 (data valid) = (b - a)%Z ∧
    shape0 (data test) = (shape0 d - b)%Z ∧
    (∀ i, i < Z.to_nat a → steps (data train) !! i = steps d !! i) ∧
    (∀ i, i < Z.to_nat (b - a) →
          steps (data valid) !! i = steps d !! (Z.to_nat a + i)) ∧
    (∀ i, i < Z.to_nat (shape0 d - b) →
          steps (data test) !! i = steps d !! (Z.to_nat b + i)) ∧
    steps (data train) ++ steps (data valid) ++ steps (data test) = steps d.
Proof.
  intros Hia Hib Ha Hab Hb.
  rewrite (MyDataset_init_Ok d (PyInt 0) (PyFloat _) 0 a H P eq_refl Hia).
  rewrite (MyDataset_init_Ok d (PyFloat _) (PyFloat _) a b H P Hia Hib).
  rewrite (MyDataset_init_Ok d (PyFloat _) (PyInt (shape0 d)) b (shape0 d) H P Hib eq_refl).
  eexists _, _, _. do 3 (split; [reflexivity |]). cbn [data].
  unfold shape0 in *. unfold tensor_slice. cbn [steps]. rewrite !py_slice_length.
  rewrite !slice_bound_in_range by lia.
  repeat (split; [first [done | lia | idtac] |]).
  - intros i Hi. rewrite py_slice_lookup; rewrite !slice_bound_in_range by lia; [done | lia].
  - intros i Hi. rewrite py_slice_lookup; rewrite !slice_bound_in_range by lia; [done | lia].
  - intros i Hi. rewrite py_slice_lookup; rewrite !slice_bound_in_range by lia; [done | lia].
  - by apply py_slice_partition.
Qed.

(** C3. In binary64, as the interpreter computes. For a tensor of T rows
    (T below 2^53, so that the conversion of T to a float is exact) and
    ratios with 0 <= train_ratio, 0 <= valid_ratio and
    train_ratio + valid_ratio <= 1, the comparisons and the sum being those
    of the floats: the bounds [a = int(T * train_ratio)] and
    [b = int(T * (train_ratio + valid_ratio))] are integers with
    0 <= a <= b <= T; the three [MyDataset(...)] calls of
    [generate_dataset] return datasets holding the rows [0, a), [a, b) and
    [b, T); and these rows, one range after the other, are the T rows of
    the tensor: contiguous, without overlap, each row once. The loaders
    [generate_dataset] returns hold these three datasets, and it returns
    them when each dataset has an example and the batch size is
    positive. *)
Theorem split_ranges_partition {A : Type} (d : tensor A) (train_ratio valid_ratio : float)
    (batch H P : Z) :
  (shape0 d < 2 ^ 53)%Z →
  (0 <=? train_ratio)%float = true → (0 <=? valid_ratio)%float = true →
  (train_ratio + valid_ratio <=? 1)%float = true →
  ∃ a b train valid test,
    int_ (PyFloat (f64_of_Z (shape0 d) * train_ratio)%float) = Ok a ∧
    int_ (PyFloat (f64_of_Z (shape0 d) * (train_ratio + valid_ratio))%float) = Ok b ∧
    (0 ≤ a)%Z ∧ (a ≤ b)%Z ∧ (b ≤ shape0 d)%Z ∧
    MyDataset_init d (PyInt 0)
      (PyFloat (f64_of_Z (shape0 d) * train_ratio)%float) H P = Ok train ∧
    MyDataset_init d (PyFloat (f64_of_Z (shape0 d) * train_ratio)%float)
      (PyFloat (f64_of_Z (shape0 d) * (train_ratio + valid_ratio))%float) H P
    = Ok valid ∧
    MyDataset_init d
      (PyFloat (f64_of_Z (shape0 d) * (train_ratio + valid_ratio))%float)
      (PyInt (shape0 d)) H P = Ok test ∧
    shape0 (data train) = a ∧
    shape0 (data valid) = (b - a)%Z ∧
    shape0 (data test) = (shape0 d - b)%Z ∧
    (∀ i, i < Z.to_nat a → steps (data train) !! i = steps d !! i) ∧
    (∀ i, i < Z.to_nat (b - a) →
          steps (data valid) !! i = steps d !! (Z.to_nat a + i)) ∧
    (∀ i, i < Z.to_nat (shape0 d - b) →
          steps (data test) !! i = steps d !! (Z.to_nat b + i)) ∧
    steps (data train) ++ steps (data valid) ++ steps (data test) = steps d ∧
    (∀ l1 l2 l3,
       generate_dataset d batch train_ratio valid_ratio H P = Ok (l1, l2, l3) →
       dataset l1 = train ∧ dataset l2 = valid ∧ dataset l3 = test) ∧
    ((0 < batch)%Z → (0 < MyDataset_len train)%Z → (0 < MyDataset_len valid)%Z →
     (0 < MyDataset_len test)%Z →
     generate_dataset d batch train_ratio valid_ratio H P
     = Ok ({| dataset := train; batch_size := batch |},
           {| dataset := valid; batch_size := batch |},
           {| dataset := test; batch_size := batch |})).
Proof.
  intros HT Htr Hvr Hsum.
  destruct (binary64_split_bounds (shape0 d) train_ratio valid_ratio)
    as (a & b & Hia & Hib & Ha & Hab & Hb); try done.
  { unfold shape0 in *. lia. }
  destruct (MyDataset_init_partition (ratio := binary64_ratio) d train_ratio valid_ratio H P a b
              Hia Hib Ha Hab Hb)
    as (train & valid & test & H1 & H2 & H3 & Hrest).
  exists a, b, train, valid, test.
  do 5 (split; [done |]). do 3 (split; [done |]).
  destruct Hrest as (? & ? & ? & ? & ? & ? & ?). do 7 (split; [done |]). split.
  - intros l1 l2 l3 Hgen.
    by destruct (generate_dataset_Ok_inv (ratio := binary64_ratio) d batch train_ratio valid_ratio H P
                   train valid test l1 l2 l3 H1 H2 H3 Hgen) as [? _].
  - intros Hbatch Hl1 Hl2 Hl3.
    rewrite (generate_dataset_loaders (ratio := binary64_ratio) d batch train_ratio valid_ratio H P
               train valid test H1 H2 H3).
    by rewrite !DataLoader_init_Ok.
Qed.

(** 100 rows, ratios 0.6 and 0.2, H = 12, P = 3 and batches of 32, in
    binary64: 60, 20 and 20 rows, and the three loaders are returned. *)
Lemma split_ranges_partition_witness :
  (shape0 (ramp 100) < 2 ^ 53)%Z ∧
  (0 <=? f64_lit 6 (-1))%float = true ∧ (0 <=? f64_lit 2 (-1))%float = true ∧
  (f64_lit 6 (-1) + f64_lit 2 (-1) <=? 1)%float = true ∧
  ∃ train valid test,
    shape0 (data train) = 60%Z ∧ shape0 (data valid) = 20%Z ∧
    shape0 (data test) = 20%Z ∧
    steps (data train) ++ steps (data valid) ++ steps (data test) = steps (ramp 100) ∧
    generate_dataset (ramp 100) 32 (f64_lit 6 (-1)) (f64_lit 2 (-1)) 12 3
    = Ok ({| dataset := train; batch_size := 32 |},
          {| dataset := valid; batch_size := 32 |},
          {| dataset := test; batch_size := 32 |}).
Proof.
  assert (shape0 (ramp 100) < 2 ^ 53)%Z as HT by reflexivity.
  assert ((0 <=? f64_lit 6 (-1))%float = true) as Htr by reflexivity.
  assert ((0 <=? f64_lit 2 (-1))%float = true) as Hvr by reflexivity.
  assert ((f64_lit 6 (-1) + f64_lit 2 (-1) <=? 1)%float = true) as Hsum by reflexivity.
  split; [exact HT |]. split; [exact Htr |]. split; [exact Hvr |]. split; [exact Hsum |].
  destruct (split_ranges_partition (ramp 100) (f64_lit 6 (-1)) (f64_lit 2 (-1)) 32 12 3
              HT Htr Hvr Hsum)
    as (a & b & train & valid & test & _ & _ & _ & _ & _ & H1 & H2 & H3 &
        _ & _ & _ & _ & _ & _ & Hcat & _ & Hgen).
  exists train, valid, test.
  vm_compute in H1, H2, H3.
  injection H1 as <-. injection H2 as <-. injection H3 as <-.
  split; [reflexivity |]. split; [reflexivity |]. split; [reflexivity |].
  split; [exact Hcat |]. apply Hgen; reflexivity.
Defined.

(** The same run, evaluated: the loaders hold the rows [0, 60), [60, 80)
    and [80, 100). *)
Example generate_dataset_binary64 :
  ∃ train valid test,
    generate_dataset (ramp 100) 32 (f64_lit 6 (-1)) (f64_lit 2 (-1)) 12 3
    = Ok (train, valid, test) ∧
    (head (steps (data (dataset train))), shape0 (data (dataset train)))
    = (Some [[0]; [1]], 60%Z) ∧
    (head (steps (data (dataset valid))), shape0 (data (dataset valid)))
    = (Some [[600]; [601]], 20%Z) ∧
    (head (steps (data (dataset test))), shape0 (data (dataset test)))
    = (Some [[800]; [801]], 20%Z).
Proof.
  eexists _, _, _. split; [vm_compute; reflexivity |]. vm_compute. repeat split.
Qed.

(** A split without an example stops [generate_dataset] at its loader, with
    a [ValueError]: of 10 rows the training split has 6, fewer than
    H + P = 15. *)
Example generate_dataset_short_split :
  generate_dataset (ramp 10) 32 (f64_lit 6 (-1)) (f64_lit 2 (-1)) 12 3
  = Raise (ValueError NegativeLength).
Proof. vm_compute. reflexivity. Qed.


(** ** Adjacency normalizer *)

Section AdjacencyNormalizerProofs.
Context {F : Type} `{Arith F}.
Implicit Types (A X Y : ndarray F).

Lemma tab1_lookup (n : nat) (f : nat → F) (i : nat) :
  i < n → items (tab1 n f) !! i = Some (f i).
Proof.
  intros Hi. unfold tab1. simpl. rewrite list_lookup_fmap.
  by rewrite lookup_seq_lt.
Qed.

Lemma tab2_length (n m : nat) (f : nat → nat → F) :
  length (items (tab2 n m f)) = n * m.
Proof.
  unfold tab2. simpl. induction n as [|n IH]; [done |].
  rewrite seq_S, bind_app, length_app, IH, bind_singleton.
  rewrite length_fmap, length_seq. lia.
Qed.

Lemma tab2_lookup (n m : nat) (f : nat → nat → F) (i j : nat) :
  i < n → j < m → items (tab2 n m f) !! (i * m + j) = Some (f i j).
Proof.
  intros Hi Hj. induction n as [|n IH]; [lia |].
  pose proof (tab2_length n m f) as Hlen.
  unfold tab2 in *. cbn [items] in *.
  rewrite seq_S, bind_app, bind_singleton. simpl.
  destruct (decide (i < n)) as [Hlt | Hge].
  - rewrite lookup_app_l by (rewrite Hlen; nia). by apply IH.
  - assert (i = n) as -> by lia.
    rewrite lookup_app_r by (rewrite Hlen; lia).
    rewrite Hlen, list_lookup_fmap.
    replace (n * m + j - n * m) with j by lia.
    by rewrite lookup_seq_lt.
Qed.

Lemma at2d_tab2 (n m : nat) (f : nat → nat → F) (i j : nat) :
  i < n → j < m → at2d (tab2 n m f) i j = f i j.
Proof.
  intros Hi Hj. unfold at2d.
  change (default f0 (items (tab2 n m f) !! (i * m + j)) = f i j).
  by rewrite tab2_lookup.
Qed.

Lemma at2d_np_map (g : F → F) X (n m i j : nat) :
  shape X = [n; m] → length (items X) = n * m → i < n → j < m →
  at2d (np_map g X) i j = g (at2d X i j).
Proof.
  intros Hs Hl Hi Hj. unfold at2d, np_map. simpl. rewrite Hs.
  rewrite list_lookup_fmap.
  destruct (lookup_lt_is_Some_2 (items X) (i * m + j)) as [x Hx]; [rewrite Hl; nia |].
  by rewrite Hx.
Qed.

Lemma broadcast_dim_same (n : nat) : broadcast_dim n n = Some n.
Proof. unfold broadcast_dim. by rewrite decide_True. Qed.

Lemma broadcast_dim_1_l (n : nat) : broadcast_dim 1 n = Some n.
Proof. unfold broadcast_dim. repeat case_decide; by subst. Qed.

Lemma broadcast_index_lt (a i : nat) : i < a → broadcast_index a i = i.
Proof. unfold broadcast_index. case_decide; lia. Qed.

Lemma ufunc2_Ok (op : F → F → F) X Y (a b c d n m : nat) :
  shape X = [a; b] → shape Y = [c; d] →
  broadcast_dim a c = Some n → broadcast_dim b d = Some m →
  ufunc2 op X Y =
    Ok (tab2 n m (λ i j,
          op (at2d X (broadcast_index a i) (broadcast_index b j))
             (at2d Y (broadcast_index c i) (broadcast_index d j)))).
Proof. intros HX HY Hn Hm. unfold ufunc2. by rewrite HX, HY, Hn, Hm. Qed.

Lemma at2d_reshape_column (v : ndarray F) (n i : nat) :
  at2d (reshape v [n; 1]) i 0 = default f0 (items v !! i).
Proof.
  unfold at2d, reshape. cbn [shape items]. by rewrite Nat.mul_1_r, Nat.add_0_r.
Qed.

Lemma at2d_reshape_row (v : ndarray F) (n j : nat) :
  at2d (reshape v [1; n]) 0 j = default f0 (items v !! j).
Proof. done. Qed.

(** The diagonal scaling vector the code builds, entry [i]. *)
Lemma diag_lookup (A : ndarray F) (n m i : nat) :
  flit 10 (-5) = flit 1 (-4) → i < n →
  items (np_map (λ d, fdiv f1 (fsqrt d))
           (np_map (λ d, if fleb d (flit 10 (-5)) then flit 10 (-5) else d)
              (reshape (np_sum_axis1 n m A) [n]))) !! i
  = Some (inv_sqrt_degree A m i).
Proof.
  intros Hlit Hi. unfold np_map, reshape, np_sum_axis1. simpl.
  rewrite !list_lookup_fmap, lookup_seq_lt by done. simpl.
  unfold inv_sqrt_degree, degree. by rewrite Hlit.
Qed.

Lemma get_normalized_adj_square (A : ndarray F) (n : nat) :
  flit 10 (-5) = flit 1 (-4) → shape A = [n; n] →
  ∃ B, get_normalized_adj A = Ok B ∧ shape B = [n; n] ∧
       length (items B) = n * n ∧
       ∀ i j, i < n → j < n → at2d B i j = A_reg_spec A n i j.
Proof.
  intros Hlit HA. unfold get_normalized_adj. rewrite HA.
  set (diag := np_map (λ d, fdiv f1 (fsqrt d))
           (np_map (λ d, if fleb d (flit 10 (-5)) then flit 10 (-5) else d)
              (reshape (np_sum_axis1 n n A) [n]))).
  assert (∀ i, i < n → items diag !! i = Some (inv_sqrt_degree A n i)) as Hdiag.
  { intros i Hi. by apply diag_lookup. }
  cbv zeta. fold diag.
  rewrite (bind_Ok _ _ _ (ufunc2_Ok fmul (reshape diag [n; 1]) A n 1 n n n n
             eq_refl HA (broadcast_dim_same n) (broadcast_dim_1_l n))).
  set (X := tab2 n n _).
  assert (broadcast_dim n 1 = Some n) as Hn1
    by (unfold broadcast_dim; repeat case_decide; by subst).
  rewrite (bind_Ok _ _ _ (ufunc2_Ok fmul X (reshape diag [1; n]) n n 1 n n n
             eq_refl eq_refl Hn1 (broadcast_dim_same n))).
  set (A_wave := tab2 n n _).
  rewrite (bind_Ok _ _ _ (ufunc2_Ok fadd (np_eye n) A_wave n n n n n n
             eq_refl eq_refl (broadcast_dim_same n) (broadcast_dim_same n))).
  set (S := tab2 n n _).
  eexists. split; [reflexivity |]. split; [done |]. split.
  { unfold np_map. cbn [items]. rewrite !length_fmap. apply (tab2_length n n). }
  intros i j Hi Hj.
  rewrite (at2d_np_map f32 _ n n) by
    first [done | lia
          | unfold np_map; cbn [items]; rewrite length_fmap; apply (tab2_length n n)].
  rewrite (at2d_np_map _ S n n) by first [done | lia | apply (tab2_length n n)].
  unfold S. rewrite at2d_tab2 by done.
  rewrite !broadcast_index_lt by done.
  unfold np_eye, A_wave. rewrite !at2d_tab2 by done.
  rewrite !(broadcast_index_lt n) by done.
  unfold X. rewrite at2d_tab2 by done.
  rewrite !(broadcast_index_lt n) by done.
  change (broadcast_index 1 j) with 0. change (broadcast_index 1 i) with 0.
  rewrite at2d_reshape_column, at2d_reshape_row, !Hdiag by done.
  done.
Qed.

Lemma get_normalized_adj_ndim (A : ndarray F) :
  ndim A ≠ 2 → get_normalized_adj A = Raise (ValueError NotTwoDimensional).
Proof.
  unfold ndim, get_normalized_adj. intros Hn.
  destruct (shape A) as [|a [|b [|c s]]]; try done.
Qed.
End AdjacencyNormalizerProofs.

(** C4, for square input. Whatever the arithmetic, provided the literal
    [10e-5] denotes 1e-4: on an n×n array [get_normalized_adj] returns the
    n×n array (0.8/2) · (I + A_wave), as float32, where
    A_wave[i][j] = D[i]^-1/2 · A[i][j] · D[j]^-1/2 and D is the vector of
    row sums with every entry <= 1e-4 replaced by 1e-4; and on an input
    whose number of dimensions is not 2 it raises the shape error. *)
Theorem get_normalized_adj_spec {F : Type} `{Arith F} (A : ndarray F) :
  flit 10 (-5) = flit 1 (-4) →
  (∀ n, shape A = [n; n] →
     ∃ B, get_normalized_adj A = Ok B ∧ shape B = [n; n] ∧
          length (items B) = n * n ∧
          ∀ i j, i < n → j < n → at2d B i j = A_reg_spec A n i j) ∧
  (ndim A ≠ 2 → get_normalized_adj A = Raise (ValueError NotTwoDimensional)).
Proof.
  intros Hlit. split.
  - intros n HA. by apply get_normalized_adj_square.
  - apply get_normalized_adj_ndim.
Qed.

Lemma binary64_literal_10e_5 : flit (F := float) 10 (-5) = flit 1 (-4).
Proof. vm_compute. reflexivity. Qed.

Lemma get_normalized_adj_spec_witness :
  flit (F := float) 10 (-5) = flit 1 (-4) ∧
  (∀ n, shape star3 = [n; n] →
     ∃ B, get_normalized_adj star3 = Ok B ∧ shape B = [n; n] ∧
          length (items B) = n * n ∧
          ∀ i j, i < n → j < n → at2d B i j = A_reg_spec star3 n i j) ∧
  (ndim star3 ≠ 2 → get_normalized_adj star3 = Raise (ValueError NotTwoDimensional)).
Proof.
  split; [exact binary64_literal_10e_5 |].
  exact (get_normalized_adj_spec star3 binary64_literal_10e_5).
Defined.

(** The normalizer run in binary64 on the star: 0.4 on the diagonal and
    0.4 / sqrt 2 between the centre and a leaf, as float32
    (0.40000000596046448 and 0.2828427255153656). *)
Example get_normalized_adj_star3 :
  get_normalized_adj star3
  = Ok {| shape := [3; 3];
          items := [0x1.99999ap-2; 0x1.21a186p-2; 0x1.21a186p-2;
                    0x1.21a186p-2; 0x1.99999ap-2; 0;
                    0x1.21a186p-2; 0; 0x1.99999ap-2]%float |}.
Proof. vm_compute. reflexivity. Qed.

(** A 1-D array is refused. *)
Example get_normalized_adj_flat :
  get_normalized_adj flat = Raise (ValueError NotTwoDimensional).
Proof. reflexivity. Qed.

(** C4, as stated for every 2-D input, fails: a 2×3 array has two
    dimensions, and the second product cannot broadcast (2, 3) with
    (1, 2). *)
Lemma get_normalized_adj_not_square :
  ndim wide = 2 ∧ get_normalized_adj wide = Raise (ValueError CannotBroadcast).
Proof. split; vm_compute; reflexivity. Qed.

Lemma real_literal_10e_5 : flit (F := R) 10 (-5) = flit 1 (-4).
Proof. unfold flit. simpl. field. Qed.

(** C10, as the code has it. In exact arithmetic, the normalizer maps a
    symmetric (square) matrix to a symmetric matrix. *)
Theorem normalized_adj_symmetric (A : ndarray R) (n : nat) :
  shape A = [n; n] →
  (∀ i j, i < n → j < n → at2d A i j = at2d A j i) →
  ∃ B, get_normalized_adj A = Ok B ∧ shape B = [n; n] ∧
       ∀ i j, i < n → j < n → at2d B i j = at2d B j i.
Proof.
  intros HA Hsym.
  destruct (get_normalized_adj_square A n real_literal_10e_5 HA)
    as (B & HB & Hshape & _ & Hat).
  exists B. split; [done |]. split; [done |].
  intros i j Hi Hj. rewrite !Hat by done.
  unfold A_reg_spec, A_wave_spec. rewrite (Hsym i j) by done.
  cbn [f32 fmul fadd fdiv f0 f1 real_arith].
  repeat case_decide; subst; try congruence; ring.
Qed.

Lemma path2_symmetric (i j : nat) : i < 2 → j < 2 → at2d path2 i j = at2d path2 j i.
Proof.
  intros Hi Hj. destruct i as [|[|i]]; destruct j as [|[|j]]; try lia; reflexivity.
Qed.

Lemma normalized_adj_symmetric_witness :
  shape path2 = [2; 2] ∧
  (∀ i j, i < 2 → j < 2 → at2d path2 i j = at2d path2 j i) ∧
  ∃ B, get_normalized_adj path2 = Ok B ∧ shape B = [2; 2] ∧
       ∀ i j, i < 2 → j < 2 → at2d B i j = at2d B j i.
Proof.
  split; [reflexivity |]. split; [exact path2_symmetric |].
  exact (normalized_adj_symmetric path2 2 eq_refl path2_symmetric).
Defined.

(** C10, as stated of the returned matrix, fails in binary64: the entries
    (0, 1) and (1, 0) are the products (d0 · a) · d1 and (d1 · a) · d0, each
    rounded twice, and on the symmetric non-negative matrix
    [[151, 610], [610, 1435]] they end one float32 apart
    (0.19559188187122345 and 0.19559189677238464). *)
Lemma normalized_adj_rounding :
  shape weighted2 = [2; 2] ∧
  (∀ i j, i < 2 → j < 2 → at2d weighted2 i j = at2d weighted2 j i) ∧
  Forall (λ x, PrimFloat.leb 0 x = true) (items weighted2) ∧
  ∃ B, get_normalized_adj weighted2 = Ok B ∧
       at2d B 0 1 = 0x1.90927ap-3%float ∧
       at2d B 1 0 = 0x1.90927cp-3%float ∧
       at2d B 0 1 ≠ at2d B 1 0.
Proof.
  split; [reflexivity |]. split.
  { intros i j Hi Hj.
    destruct i as [|[|i]]; destruct j as [|[|j]]; try lia; reflexivity. }
  split; [by repeat constructor |].
  eexists. split; [vm_compute; reflexivity |].
  split; [vm_compute; reflexivity |]. split; [vm_compute; reflexivity |].
  intros Heq. apply (f_equal (PrimFloat.eqb 0x1.90927ap-3%float)) in Heq.
  vm_compute in Heq. discriminate.
Qed.

(** * Further properties of the code *)

(** ** Loops that return and loops that raise *)

(** A loop that returned ran its body, without an exception, on every
    element; [I] is an invariant of the body's normal exits. *)
Lemma for_Ok_inv {A S : Type} (I : S → Prop) (xs : list A)
    (body : A → S → result S) (s s' : S) :
  I s →
  (∀ x s s', x ∈ xs → I s → body x s = Ok s' → I s') →
  for_ xs body s = Ok s' →
  I s' ∧ ∀ x, x ∈ xs → ∃ s1 s2, I s1 ∧ body x s1 = Ok s2.
Proof.
  revert s. induction xs as [|x xs IH]; intros s Hs Hstep Hfor; simpl in Hfor.
  - simplify_eq. split; [done |]. intros x Hx. inversion Hx.
  - destruct (body x s) as [s1 |] eqn:Hb; [| done]. simpl in Hfor.
    assert (I s1) as Hs1 by (eapply Hstep; [left | exact Hs | exact Hb]).
    destruct (IH s1 Hs1) as [Hs' Hall]; [| done |].
    { intros y t t' Hy. apply Hstep. by right. }
    split; [done |]. intros y Hy. apply elem_of_cons in Hy as [-> | Hy]; eauto.
Qed.

(** A loop raises only what its body raises. *)
Lemma for_Raise {A S : Type} (E : exn → Prop) (xs : list A)
    (body : A → S → result S) (s : S) (e : exn) :
  (∀ x s e, x ∈ xs → body x s = Raise e → E e) →
  for_ xs body s = Raise e → E e.
Proof.
  revert s. induction xs as [|x xs IH]; intros s Hbody Hfor; simpl in Hfor; [done |].
  destruct (body x s) as [s1 |] eqn:Hb; simpl in Hfor.
  - eapply IH; [| exact Hfor]. intros y t e' Hy. apply Hbody. by right.
  - simplify_eq. eapply Hbody; [left | exact Hb].
Qed.

(** Indexing raises nothing but [IndexError], and an index that is accepted
    is inside the axis. *)
Lemma np_index_Raise (len : nat) (i : Z) (e : exn) :
  np_index len i = Raise e → e = IndexError.
Proof. unfold np_index. repeat case_decide; congruence. Qed.

Lemma np_index_valid (len : nat) (i : Z) (k : nat) :
  np_index len i = Ok k → np_valid len i.
Proof. unfold np_index, np_valid. repeat case_decide; try done; lia. Qed.

Lemma np_index_invalid (len : nat) (i : Z) :
  ¬ np_valid len i → np_index len i = Raise IndexError.
Proof. unfold np_index, np_valid. intros Hi. repeat case_decide; try done; lia. Qed.

Lemma getitem_Raise {A : Type} (l : list A) (i : Z) (e : exn) :
  getitem l i = Raise e → e = IndexError.
Proof.
  unfold getitem. destruct (np_index (length l) i) as [k |] eqn:Hk; simpl.
  - destruct (l !! k); congruence.
  - intros [= <-]. by eapply np_index_Raise.
Qed.

Lemma getitem_Ok_inv {A : Type} (l : list A) (i : Z) (x : A) :
  getitem l i = Ok x → np_valid (length l) i ∧ l !! np_pos (length l) i = Some x.
Proof.
  unfold getitem. destruct (np_index (length l) i) as [k |] eqn:Hk; simpl; [| done].
  destruct (l !! k) as [y |] eqn:Hy; [| done]. intros [= ->].
  split; [by eapply np_index_valid |].
  apply np_index_Ok in Hk as [_ ->]. done.
Qed.

Lemma setitem_Raise {A : Type} (l : list A) (i : Z) (x : A) (e : exn) :
  setitem l i x = Raise e → e = IndexError.
Proof.
  unfold setitem. destruct (np_index (length l) i) as [k |] eqn:Hk; simpl; [done |].
  intros [= <-]. by eapply np_index_Raise.
Qed.

Lemma setitem_Ok_inv {A : Type} (l : list A) (i : Z) (x : A) (l' : list A) :
  setitem l i x = Ok l' → np_valid (length l) i ∧ length l' = length l.
Proof.
  unfold setitem. destruct (np_index (length l) i) as [k |] eqn:Hk; simpl; [| done].
  intros [= <-]. split; [by eapply np_index_valid | by rewrite length_insert].
Qed.

Lemma getitem2_Raise {A : Type} (M : list (list A)) (i j : Z) (e : exn) :
  getitem2 M i j = Raise e → e = IndexError.
Proof.
  unfold getitem2. destruct (getitem M i) as [row |] eqn:Hrow; simpl.
  - apply getitem_Raise.
  - intros [= <-]. by eapply getitem_Raise.
Qed.

Lemma getitem2_Ok_inv {A : Type} (M : list (list A)) (i j : nat) (x : A) :
  getitem2 M (Z.of_nat i) (Z.of_nat j) = Ok x → i < length M ∧ cell M i j = Some x.
Proof.
  unfold getitem2. destruct (getitem M (Z.of_nat i)) as [row |] eqn:Hrow; simpl; [| done].
  intros Hx. apply getitem_Ok_inv in Hrow as [Hi Hrow].
  apply getitem_Ok_inv in Hx as [Hj Hx].
  rewrite np_pos_nat in Hrow, Hx. unfold np_valid in Hi. split; [lia |].
  unfold cell. rewrite Hrow. done.
Qed.

Lemma setitem2_Raise {A : Type} (M : list (list A)) (i j : Z) (x : A) (e : exn) :
  setitem2 M i j x = Raise e → e = IndexError.
Proof.
  unfold setitem2. destruct (getitem M i) as [row |] eqn:Hrow; simpl.
  - destruct (setitem row j x) as [row' |] eqn:Hrow'; simpl.
    + apply setitem_Raise.
    + intros [= <-]. by eapply setitem_Raise.
  - intros [= <-]. by eapply getitem_Raise.
Qed.

(** A write that is accepted had both indices inside the array, and keeps
    its dimensions. *)
Lemma setitem2_Ok_inv {A : Type} (n m : nat) (M : list (list A)) (i j : Z) (x : A)
    (M' : list (list A)) :
  length M = n → Forall (λ r, length r = m) M →
  setitem2 M i j x = Ok M' →
  np_valid n i ∧ np_valid m j ∧ length M' = n ∧ Forall (λ r, length r = m) M'.
Proof.
  intros Hn Hm. unfold setitem2.
  destruct (getitem M i) as [row |] eqn:Hrow; simpl; [| done].
  destruct (setitem row j x) as [row' |] eqn:Hrow'; simpl; [| done].
  intros HM'. apply getitem_Ok_inv in Hrow as [Hi Hrow].
  apply setitem_Ok_inv in Hrow' as [Hj Hl].
  assert (length row = m) as Hr.
  { rewrite Forall_lookup in Hm. by eapply Hm. }
  unfold setitem in HM'. destruct (np_index (length M) i) as [k |]; [| done].
  simpl in HM'. injection HM' as <-. rewrite Hr in Hj, Hl.
  split; [by rewrite <- Hn |]. split; [done |].
  split; [by rewrite length_insert |].
  by apply Forall_insert.
Qed.

(** ** Graph constructor: errors, nodes, order of the sample *)

Section GraphConstructorMore.
Context {F : Type} `{EqDecision F} (inf : F).
Implicit Types (G : gmap nat (gmap nat F)) (g : nat → nat → F).

Lemma generate_graph_Raise (N : nat) (M : list (list F)) (S : list nat) (e : exn) :
  generate_graph inf N M S = Raise e → e = IndexError.
Proof.
  unfold generate_graph. apply (for_Raise (λ e, e = IndexError)).
  intros i G e1 _. apply (for_Raise (λ e, e = IndexError)).
  intros j G1 e2 _.
  destruct (getitem2 M (Z.of_nat i) (Z.of_nat j)) as [d |] eqn:Hd; simpl.
  - by case_decide.
  - intros [= <-]. by eapply getitem2_Raise.
Qed.

(** Every pair of sampled nodes is looked up, a node with itself included. *)
Lemma generate_graph_Ok_inv (N : nat) (M : list (list F)) (S : list nat) G :
  generate_graph inf N M S = Ok G → Forall (λ i, i < length M) S.
Proof.
  intros HG. apply Forall_forall. intros i Hi. unfold generate_graph in HG.
  destruct (for_Ok_inv (λ _, True) _ _ _ _ I (λ _ _ _ _ _ _, I) HG) as [_ Hall].
  destruct (Hall i Hi) as (G1 & G2 & _ & Hinner).
  destruct (for_Ok_inv (λ _, True) _ _ _ _ I (λ _ _ _ _ _ _, I) Hinner) as [_ Hall2].
  destruct (Hall2 i Hi) as (G3 & G4 & _ & Hbody).
  destruct (getitem2 M (Z.of_nat i) (Z.of_nat i)) as [d |] eqn:Hd; [| done].
  by apply getitem2_Ok_inv in Hd as [? _].
Qed.

Lemma finite_at_default (M : list (list F)) (i j : nat) :
  finite_at inf M i j ↔ default inf (cell M i j) ≠ inf.
Proof.
  unfold finite_at. destruct (cell M i j) as [d |]; simpl.
  - split; [by intros (? & [= <-] & ?) | eauto].
  - split; [by intros (? & ? & ?) | done].
Qed.

(** The nodes [add_edge] leaves in the graph: the two ends and the nodes
    that were there. *)
Lemma add_edge_is_Some (i j : nat) (d : F) G (u : nat) :
  is_Some (add_edge i j d G !! u) ↔ u = i ∨ u = j ∨ is_Some (G !! u).
Proof.
  unfold add_edge.
  set (G1 := if decide (is_Some (G !! i)) then G else <[i := ∅]> G).
  set (G2 := if decide (is_Some (G1 !! j)) then G1 else <[j := ∅]> G1).
  assert (is_Some (G1 !! u) ↔ u = i ∨ is_Some (G !! u)) as H1.
  { unfold G1. case_decide as Hs.
    - split; [eauto | by intros [-> |]].
    - rewrite lookup_insert_is_Some. destruct (decide (i = u)); naive_solver. }
  assert (is_Some (G2 !! u) ↔ u = j ∨ is_Some (G1 !! u)) as H2.
  { unfold G2. case_decide as Hs.
    - split; [eauto | by intros [-> |]].
    - rewrite lookup_insert_is_Some. destruct (decide (j = u)); naive_solver. }
  clearbody G1 G2. rewrite !lookup_insert_is_Some.
  destruct (decide (j = u)), (decide (i = u)); naive_solver.
Qed.

(** What the loops keep true of the graph: a node is in it exactly when an
    edge ends at it. *)
Lemma generate_graph_no_isolated (N : nat) (M : list (list F)) (S : list nat) G :
  generate_graph inf N M S = Ok G →
  ∀ u, is_Some (G !! u) ↔ ∃ v, is_Some (weight G u v).
Proof.
  intros HG. unfold generate_graph in HG.
  set (I := λ G : gmap nat (gmap nat F),
              ∀ u, is_Some (G !! u) ↔ ∃ v, is_Some (weight G u v)).
  assert (I ∅) as H0.
  { intros u. unfold weight. rewrite lookup_empty. simpl.
    split; [by intros [? ?] | by intros [? [? ?]]]. }
  refine (proj1 (for_Ok_inv I _ _ _ _ H0 _ HG)).
  intros i G0 G1 _ HG0 Hinner.
  refine (proj1 (for_Ok_inv I _ _ _ _ HG0 _ Hinner)).
  intros j G2 G3 _ HG2 Hbody.
  destruct (getitem2 M (Z.of_nat i) (Z.of_nat j)) as [d |]; simpl in Hbody; [| done].
  case_decide; simplify_eq; [| done].
  intros u. rewrite add_edge_is_Some. rewrite (HG2 u).
  setoid_rewrite add_edge_weight. unfold upd. split.
  - intros [-> | [-> | [v Hv]]].
    + exists j. repeat case_decide; try (exfalso; tauto); eauto.
    + exists i. repeat case_decide; try (exfalso; tauto); eauto.
    + exists v. repeat case_decide; try (exfalso; tauto); eauto.
  - intros [v Hv]. repeat case_decide; destruct_and?; simplify_eq; eauto.
Qed.

(** The run of [generate_graph] on an N×N matrix with the sample inside
    [0, N): the weights, and the nodes. *)
Lemma generate_graph_run (N : nat) (M : list (list F)) (S : list nat) :
  length M = N → Forall (λ r, length r = N) M → Forall (λ i, i < N) S →
  ∃ G, generate_graph inf N M S = Ok G ∧
    (∀ u v, weight G u v
            = weights_after inf (λ i j, default inf (cell M i j)) (visits S S) u v) ∧
    (∀ u, is_Some (G !! u) ↔ ∃ v, is_Some (weight G u v)).
Proof.
  intros Hlen Hrows Hin.
  pose proof (mat_spec_of_dims inf N N M Hlen Hrows) as HM.
  destruct (generate_graph_weights inf N M _ S HM Hin) as (G & HG & Hw).
  exists G. split; [done |]. split; [done |].
  by eapply generate_graph_no_isolated.
Qed.

(** Over a symmetric matrix the weight of a pair is its entry, whichever
    visit wrote it last. *)
Lemma weights_after_symmetric g (S : list nat) (u v : nat) :
  (∀ i j, g i j = g j i) →
  weights_after inf g (visits S S) u v
  = if decide (u ∈ S ∧ v ∈ S ∧ g u v ≠ inf) then Some (g u v) else None.
Proof.
  intros Hsym. case_decide as Hc.
  - destruct Hc as (Hu & Hv & Hfin).
    destruct (weights_after_complete inf g (visits S S) u v) as [[w Hw] _];
      [by apply elem_of_visits | done |].
    rewrite Hw. f_equal.
    destruct (weights_after_sound inf g _ _ _ _ Hw) as (a & b & _ & _ & -> & Hends).
    destruct Hends as [[-> ->] | [-> ->]]; [done | apply Hsym].
  - destruct (weights_after inf g (visits S S) u v) as [w |] eqn:Hw; [| done].
    exfalso. apply Hc.
    destruct (weights_after_sound inf g _ _ _ _ Hw) as (a & b & Hab & Hfin & _ & Hends).
    apply elem_of_visits in Hab as [Ha Hb].
    destruct Hends as [[-> ->] | [-> ->]]; [done |]. by rewrite Hsym.
Qed.

(** Two graphs with the same nodes and the same weights are the same. *)
Lemma graph_ext G G' :
  (∀ u, is_Some (G !! u) ↔ is_Some (G' !! u)) →
  (∀ u v, weight G u v = weight G' u v) →
  G = G'.
Proof.
  intros Hdom Hw. apply map_eq. intros u. specialize (Hdom u).
  pose proof (Hw u) as Hu. unfold weight in Hu.
  destruct (G !! u) as [nbrs |], (G' !! u) as [nbrs' |]; simpl in Hu.
  - f_equal. apply map_eq. exact Hu.
  - destruct Hdom as [Hd _]. destruct Hd as [? ?]; [eauto | done].
  - destruct Hdom as [_ Hd]. destruct Hd as [? ?]; [eauto | done].
  - done.
Qed.
End GraphConstructorMore.

(** X1. On an N×N distance matrix, [generate_graph] returns a graph exactly
    when every sampled node is inside [0, N); otherwise the lookup
    [dist_matrix[i, j]] of a sampled pair raises [IndexError], and no other
    exception is possible. *)
Theorem generate_graph_index_error {F : Type} `{EqDecision F} (inf : F) (N : nat)
    (dist_matrix : list (list F)) (selected_nodes : list nat) :
  length dist_matrix = N → Forall (λ r, length r = N) dist_matrix →
  (Forall (λ i, i < N) selected_nodes →
     ∃ G, generate_graph inf N dist_matrix selected_nodes = Ok G) ∧
  (¬ Forall (λ i, i < N) selected_nodes →
     generate_graph inf N dist_matrix selected_nodes = Raise IndexError).
Proof.
  intros Hlen Hrows. split.
  - intros Hin.
    destruct (generate_graph_run inf N dist_matrix selected_nodes Hlen Hrows Hin)
      as (G & HG & _). by exists G.
  - intros Hout.
    destruct (generate_graph inf N dist_matrix selected_nodes) as [G | e] eqn:HG.
    + exfalso. apply Hout. rewrite <- Hlen. by eapply generate_graph_Ok_inv.
    + f_equal. by eapply generate_graph_Raise.
Qed.

(** The four-node matrix with node 4 in the sample. *)
Lemma generate_graph_index_error_witness :
  generate_graph None 4 two_pairs [0; 1; 4] = Raise IndexError.
Proof.
  apply (generate_graph_index_error None 4 two_pairs [0; 1; 4]).
  - reflexivity.
  - repeat constructor.
  - intros Hall. apply Forall_cons in Hall as [_ Hall].
    apply Forall_cons in Hall as [_ Hall]. apply Forall_cons in Hall as [Hlt _]. lia.
Defined.

(** X2. The nodes of the graph [generate_graph] returns are the sampled
    nodes with a finite entry to or from a sampled node: every node of the
    graph carries an edge, and a sampled node all of whose entries with the
    sample are [inf] is not in the graph. *)
Theorem generate_graph_nodes {F : Type} `{EqDecision F} (inf : F) (N : nat)
    (dist_matrix : list (list F)) (selected_nodes : list nat) :
  length dist_matrix = N → Forall (λ r, length r = N) dist_matrix →
  Forall (λ i, i < N) selected_nodes →
  ∃ G, generate_graph inf N dist_matrix selected_nodes = Ok G ∧
    (∀ u, u ∈ dom G ↔
       u ∈ selected_nodes ∧
       ∃ v, v ∈ selected_nodes ∧
            (finite_at inf dist_matrix u v ∨ finite_at inf dist_matrix v u)) ∧
    (∀ u, u ∈ dom G ↔ ∃ v, has_edge G u v).
Proof.
  intros Hlen Hrows Hin.
  destruct (generate_graph_run inf N dist_matrix selected_nodes Hlen Hrows Hin)
    as (G & HG & Hw & Hdom).
  exists G. split; [done |]. split.
  - intros u. rewrite elem_of_dom, Hdom. setoid_rewrite Hw.
    setoid_rewrite finite_at_default. split.
    + intros [v [w Hwt]].
      destruct (weights_after_sound inf _ _ _ _ _ Hwt)
        as (a & b & Hab & Hfin & _ & Hends).
      apply elem_of_visits in Hab as [Ha Hb].
      destruct Hends as [[-> ->] | [-> ->]]; eauto 6.
    + intros (Hu & v & Hv & [Hfin | Hfin]).
      * exists v.
        by apply (weights_after_complete inf _ (visits selected_nodes selected_nodes) u v);
          [apply elem_of_visits |].
      * exists v.
        by apply (weights_after_complete inf _ (visits selected_nodes selected_nodes) v u);
          [apply elem_of_visits |].
  - intros u. rewrite elem_of_dom. apply Hdom.
Qed.

(** The zero-diagonal-free matrix on four nodes, with node 2 sampled
    without its only finite neighbour: nodes 0 and 1 are in the graph, node
    2 is not. *)
Lemma generate_graph_nodes_witness :
  ∃ G, generate_graph None 4 two_pairs [0; 1; 2] = Ok G ∧ dom G = {[0; 1]}.
Proof.
  destruct (generate_graph_nodes None 4 two_pairs [0; 1; 2])
    as (G & HG & _ & _).
  - reflexivity.
  - repeat constructor.
  - repeat constructor.
  - exists G. split; [exact HG |].
    vm_compute in HG. injection HG as <-. reflexivity.
Defined.

(** X3. Over a symmetric N×N matrix the graph depends on the sample as a
    set only: two samples with the same members, in any order and with any
    repetitions, give the same graph. *)
Theorem generate_graph_order {F : Type} `{EqDecision F} (inf : F) (N : nat)
    (dist_matrix : list (list F)) (selected_nodes selected_nodes' : list nat) :
  length dist_matrix = N → Forall (λ r, length r = N) dist_matrix →
  (∀ i j, cell dist_matrix i j = cell dist_matrix j i) →
  Forall (λ i, i < N) selected_nodes →
  (∀ i, i ∈ selected_nodes ↔ i ∈ selected_nodes') →
  ∃ G, generate_graph inf N dist_matrix selected_nodes = Ok G ∧
       generate_graph inf N dist_matrix selected_nodes' = Ok G.
Proof.
  intros Hlen Hrows Hsym Hin Hsame.
  assert (Forall (λ i, i < N) selected_nodes') as Hin'.
  { rewrite Forall_forall in Hin. apply Forall_forall. intros i Hi.
    apply Hin. by apply Hsame. }
  destruct (generate_graph_run inf N dist_matrix selected_nodes Hlen Hrows Hin)
    as (G & HG & Hw & Hdom).
  destruct (generate_graph_run inf N dist_matrix selected_nodes' Hlen Hrows Hin')
    as (G' & HG' & Hw' & Hdom').
  exists G. split; [done |]. rewrite HG'. f_equal.
  assert (∀ u v, weight G' u v = weight G u v) as Heq.
  { intros u v. rewrite Hw, Hw'.
    rewrite !weights_after_symmetric by (intros i j; by rewrite Hsym).
    repeat case_decide; try done; exfalso; naive_solver. }
  apply graph_ext; [| done].
  intros u. rewrite Hdom, Hdom'. by setoid_rewrite Heq.
Qed.

Lemma two_pairs_symmetric (i j : nat) : cell two_pairs i j = cell two_pairs j i.
Proof.
  destruct i as [|[|[|[|i]]]]; destruct j as [|[|[|[|j]]]]; reflexivity.
Qed.

(** The four nodes in two orders, the second with a repetition. *)
Lemma generate_graph_order_witness :
  ∃ G, generate_graph None 4 two_pairs [0; 1; 2; 3] = Ok G ∧
       generate_graph None 4 two_pairs [3; 1; 0; 2; 1] = Ok G.
Proof.
  apply (generate_graph_order None 4 two_pairs [0; 1; 2; 3] [3; 1; 0; 2; 1]).
  - reflexivity.
  - repeat constructor.
  - exact two_pairs_symmetric.
  - repeat constructor.
  - intros i. set_solver.
Defined.

(** ** Spatial distance matrix: errors *)

(** X4. The edge-list block returns a matrix exactly when every row names
    nodes inside [-N, N); otherwise it raises [IndexError], and nothing
    else: the rows before the offending one are written, its own write
    fails, and no matrix is produced. *)
Theorem spatial_distance_index_error {F : Type} (inf : F) (N : nat)
    (rows : list (@edge_row F)) :
  (Forall (λ row, np_valid N row.1.1 ∧ np_valid N row.1.2) rows →
     ∃ M, spatial_distance inf N rows = Ok M) ∧
  (¬ Forall (λ row, np_valid N row.1.1 ∧ np_valid N row.1.2) rows →
     spatial_distance inf N rows = Raise IndexError).
Proof.
  split.
  { intros Hvalid. destruct (spatial_distance_spec inf N rows Hvalid) as (M & HM & _).
    by exists M. }
  intros Hout.
  destruct (spatial_distance inf N rows) as [M | e] eqn:HM.
  - exfalso. apply Hout. apply Forall_forall. intros [[s e] d] Hrow.
    unfold spatial_distance in HM.
    set (I := λ M : list (list F), length M = N ∧ Forall (λ r, length r = N) M).
    assert (I (np_full N N inf)) as H0.
    { split; [apply length_replicate |].
      apply (mat_spec_rows N N _ (λ _ _, inf)), mat_spec_full. }
    assert (∀ (x : @edge_row F) M0 M1, x ∈ rows → I M0 →
              (let '(start, end_, d) := x in
               λ dist_matrix : list (list F),
                 dist_matrix ← setitem2 dist_matrix start end_ d;
                 setitem2 dist_matrix end_ start d) M0 = Ok M1 → I M1) as Hstep.
    { intros [[s0 e0] d0] M0 M1 _ [Hl Hr] Hb.
      destruct (setitem2 M0 s0 e0 d0) as [M' |] eqn:Hw; simpl in Hb; [| done].
      destruct (setitem2_Ok_inv N N M0 s0 e0 d0 M' Hl Hr Hw) as (_ & _ & Hl' & Hr').
      destruct (setitem2_Ok_inv N N M' e0 s0 d0 M1 Hl' Hr' Hb) as (_ & _ & ? & ?).
      by split. }
    destruct (for_Ok_inv I _ _ _ _ H0 Hstep HM) as [_ Hall].
    destruct (Hall _ Hrow) as (M1 & M2 & [Hl Hr] & Hb). cbn beta iota in Hb.
    destruct (setitem2 M1 s e d) as [M' |] eqn:Hw; simpl in Hb; [| done].
    by destruct (setitem2_Ok_inv N N M1 s e d M' Hl Hr Hw) as (? & ? & _).
  - f_equal. unfold spatial_distance in HM.
    apply (for_Raise (λ e, e = IndexError)) in HM; [done |].
    intros [[s e'] d] M e1 _.
    destruct (setitem2 M s e' d) as [M' |] eqn:Hw; simpl.
    + apply setitem2_Raise.
    + intros [= <-]. by eapply setitem2_Raise.
Qed.

(** The three-row edge list on two nodes: the second row names node 2. *)
Lemma spatial_distance_index_error_witness :
  spatial_distance None 2 sample_rows = Raise IndexError.
Proof.
  apply (proj2 (spatial_distance_index_error None 2 sample_rows)).
  intros Hall. apply Forall_cons in Hall as [_ Hall].
  apply Forall_cons in Hall as [[_ Hbad] _].
  unfold np_valid in Hbad. simpl in Hbad. lia.
Defined.

(** ** Similarity matrices: diagonal and symmetry *)

(** X5. The similarity matrix has a zero diagonal, and it is symmetric
    whenever the norm of a difference does not depend on the order of the
    two vectors. *)
Theorem similarity_symmetric {V F : Type} (zero : F) (norm_diff : V → V → F)
    (N : nat) (selected_nodes : list nat) (node_embeddings : gmap nat V) :
  Forall (λ i, i < N) selected_nodes →
  (∀ a b, norm_diff a b = norm_diff b a) →
  ∃ M, derive_similarity zero norm_diff N selected_nodes node_embeddings = Ok (M, M) ∧
    (∀ i, i < N → cell M i i = Some zero) ∧
    (∀ i j, i < N → j < N → cell M i j = cell M j i).
Proof.
  intros Hin Hsym.
  destruct (derive_similarity_spec zero norm_diff N selected_nodes node_embeddings Hin)
    as (M & HM & Hspec).
  exists M. split; [done |].
  assert (∀ i j, pair_distance zero norm_diff node_embeddings i j
                 = pair_distance zero norm_diff node_embeddings j i) as Hpair.
  { intros i j. unfold pair_distance.
    destruct (decide (i ≠ j)), (decide (j ≠ i)); try congruence;
      destruct (node_embeddings !! i), (node_embeddings !! j); try done;
      apply Hsym. }
  split.
  - intros i Hi. rewrite (mat_spec_cell N N M _ i i Hspec Hi Hi). f_equal.
    unfold similarity_state, pair_distance.
    case_decide; [| done]. by destruct (decide (i ≠ i)).
  - intros i j Hi Hj.
    rewrite (mat_spec_cell N N M _ i j Hspec Hi Hj).
    rewrite (mat_spec_cell N N M _ j i Hspec Hj Hi). f_equal.
    unfold similarity_state. rewrite Hpair.
    repeat case_decide; try done; exfalso; set_solver.
Qed.

Lemma sample_norm_symmetric (a b : nat) : sample_norm a b = sample_norm b a.
Proof. unfold sample_norm. lia. Qed.

(** Four nodes, the sample [0; 2; 3], the embeddings of nodes 0 and 2. *)
Lemma similarity_symmetric_witness :
  ∃ M, derive_similarity 0 sample_norm 4 [0; 2; 3] sample_embeddings = Ok (M, M) ∧
    (∀ i, i < 4 → cell M i i = Some 0) ∧
    (∀ i j, i < 4 → j < 4 → cell M i j = cell M j i).
Proof.
  apply (similarity_symmetric 0 sample_norm 4 [0; 2; 3] sample_embeddings).
  - repeat constructor.
  - exact sample_norm_symmetric.
Defined.

(** ** Windowed dataset: the shape of an example at any offset *)

Lemma slice_bound_nonneg (len : nat) (i : Z) :
  (0 ≤ i)%Z → Z.of_nat (slice_bound len i) = Z.min i (Z.of_nat len).
Proof. intros Hi. unfold slice_bound. rewrite decide_False by lia. lia. Qed.

Lemma permute10_Forall {B : Type} (n : nat) (t : list (list B)) :
  Forall (λ r, length r = n) t →
  Forall (λ col, length col = length t) (permute10 n t).
Proof.
  intros Hwf. apply Forall_lookup. intros k col Hcol.
  assert (k < n) as Hk.
  { rewrite <- (permute10_length n t Hwf). by eapply lookup_lt_Some. }
  destruct (permute10_lookup n t k Hwf Hk) as (col' & Hcol' & Hlen & _).
  by simplify_eq.
Qed.

(** X6. [__getitem__] returns at every offset [index >= 0], also past
    [__len__]: [x] has one row per node, of min(H, R - index) feature
    vectors (none when [index >= R]), and [y] one row per node, of
    min(P, R - index - H) scalars, R being the number of time steps of the
    split. Both windows are full, H and P long, exactly at the offsets below
    [__len__]; past it the example is silently shorter. *)
Theorem MyDataset_getitem_shape {A : Type} (self : MyDataset A) (index : Z) :
  tensor_wf (data self) → 0 < channels (data self) →
  (0 ≤ index)%Z → (0 ≤ his_length self)%Z → (0 ≤ pred_length self)%Z →
  let R := shape0 (data self) in
  let Lx := Z.min (his_length self) (Z.max 0 (R - index)) in
  let Ly := Z.min (pred_length self) (Z.max 0 (R - index - his_length self)) in
  ∃ x y, MyDataset_getitem self index = Ok (x, y) ∧
    length x = nodes (data self) ∧ length y = nodes (data self) ∧
    Forall (λ xn, Z.of_nat (length xn) = Lx) x ∧
    Forall (λ yn, Z.of_nat (length yn) = Ly) y ∧
    ((0 < his_length self + pred_length self)%Z →
     (Lx = his_length self ∧ Ly = pred_length self ↔ (index < MyDataset_len self)%Z)).
Proof.
  intros Hwf Hc Hi HH HP R Lx Ly.
  destruct (MyDataset_getitem_Ok self index Hwf Hc) as (x & y & Hget & Hx & Hy & Hrows).
  exists x, y. split; [done |].
  assert (Forall (λ step, length step = nodes (data self))
            (py_slice (steps (data self)) index (index + his_length self))) as Hsl.
  { apply py_slice_Forall. eapply Forall_impl; [exact Hwf |]. by intros ? [? _]. }
  split; [subst x; by apply permute10_length |]. split; [done |].
  split; [| split].
  - subst x. eapply Forall_impl; [by apply permute10_Forall |].
    intros col ->. cbn beta. rewrite py_slice_length.
    pose proof (slice_bound_nonneg (length (steps (data self))) index Hi).
    pose proof (slice_bound_nonneg (length (steps (data self)))
                  (index + his_length self) ltac:(lia)).
    unfold Lx, R, shape0. lia.
  - apply Forall_lookup. intros n yn Hyn.
    assert (n < nodes (data self)) as Hn.
    { rewrite <- Hy. by eapply lookup_lt_Some. }
    destruct (Hrows n Hn) as (yn' & Hyn' & Hlen & _). simplify_eq.
    rewrite Hlen, py_slice_length.
    pose proof (slice_bound_nonneg (length (steps (data self)))
                  (index + his_length self) ltac:(lia)).
    pose proof (slice_bound_nonneg (length (steps (data self)))
                  (index + his_length self + pred_length self) ltac:(lia)).
    unfold Ly, R, shape0. lia.
  - intros Hpos. unfold Lx, Ly, MyDataset_len, R. lia.
Qed.

(** The ramp of 10 time steps as one split, H = 3 and P = 2: [__len__] is
    6, and at the offset 6 the history is full and the target has one
    step. *)
Lemma MyDataset_getitem_shape_witness :
  ∃ x y,
    MyDataset_getitem {| data := ramp 10; his_length := 3; pred_length := 2 |} 6
    = Ok (x, y) ∧
    Forall (λ xn, length xn = 3) x ∧ Forall (λ yn, length yn = 1) y.
Proof.
  destruct (MyDataset_getitem_shape
              {| data := ramp 10; his_length := 3; pred_length := 2 |} 6)
    as (x & y & Hget & _ & _ & Hx & Hy & _).
  - apply ramp_wf.
  - simpl. lia.
  - lia.
  - simpl. lia.
  - simpl. lia.
  - exists x, y. split; [exact Hget |]. split.
    + eapply Forall_impl; [exact Hx |]. intros xn Hl.
      change (Z.of_nat (length xn) = 3%Z) in Hl. lia.
    + eapply Forall_impl; [exact Hy |]. intros yn Hl.
      change (Z.of_nat (length yn) = 1%Z) in Hl. lia.
Defined.

(** ** The three splits: how many examples *)

(** X7. In binary64, for a tensor of T rows (T below 2^53) and ratios with
    0 <= train_ratio, 0 <= valid_ratio and train_ratio + valid_ratio <= 1,
    the comparisons and the sum being those of the floats: the values the
    three datasets of [generate_dataset] compute for [__len__] add up to
    T - 3 (H + P - 1), each split giving up H + P - 1 offsets at its end,
    whatever the ratios. When [generate_dataset] returns its loaders, they
    hold these datasets, and each of the three values is positive. *)
Theorem generate_dataset_example_count {A : Type} (d : tensor A)
    (train_ratio valid_ratio : float) (batch H P : Z) :
  (shape0 d < 2 ^ 53)%Z →
  (0 <=? train_ratio)%float = true → (0 <=? valid_ratio)%float = true →
  (train_ratio + valid_ratio <=? 1)%float = true →
  ∃ train valid test,
    MyDataset_init d (PyInt 0)
      (PyFloat (f64_of_Z (shape0 d) * train_ratio)%float) H P = Ok train ∧
    MyDataset_init d (PyFloat (f64_of_Z (shape0 d) * train_ratio)%float)
      (PyFloat (f64_of_Z (shape0 d) * (train_ratio + valid_ratio))%float) H P
    = Ok valid ∧
    MyDataset_init d
      (PyFloat (f64_of_Z (shape0 d) * (train_ratio + valid_ratio))%float)
      (PyInt (shape0 d)) H P = Ok test ∧
    (MyDataset_len train + MyDataset_len valid + MyDataset_len test
     = shape0 d - 3 * (H + P - 1))%Z ∧
    ∀ l1 l2 l3,
      generate_dataset d batch train_ratio valid_ratio H P = Ok (l1, l2, l3) →
      (dataset l1 = train ∧ dataset l2 = valid ∧ dataset l3 = test) ∧
      (0 < MyDataset_len train)%Z ∧ (0 < MyDataset_len valid)%Z ∧
      (0 < MyDataset_len test)%Z.
Proof.
  intros HT Htr Hvr Hsum.
  destruct (binary64_split_bounds (shape0 d) train_ratio valid_ratio)
    as (a & b & Hia & Hib & Ha & Hab & Hb); try done.
  { unfold shape0 in *. lia. }
  pose proof (MyDataset_init_Ok (ratio := binary64_ratio) d (PyInt 0) (PyFloat _) 0 a H P
                eq_refl Hia) as H1.
  pose proof (MyDataset_init_Ok (ratio := binary64_ratio) d (PyFloat _) (PyFloat _) a b H P
                Hia Hib) as H2.
  pose proof (MyDataset_init_Ok (ratio := binary64_ratio) d (PyFloat _) (PyInt (shape0 d))
                b (shape0 d) H P Hib eq_refl) as H3.
  eexists _, _, _. split; [exact H1 |]. split; [exact H2 |]. split; [exact H3 |]. split.
  - unfold MyDataset_len, shape0, tensor_slice in *.
    cbn [data steps his_length pred_length].
    rewrite !py_slice_length, !slice_bound_in_range by lia. lia.
  - intros l1 l2 l3 Hgen.
    destruct (generate_dataset_Ok_inv (ratio := binary64_ratio) d batch train_ratio
                valid_ratio H P _ _ _ l1 l2 l3 H1 H2 H3 Hgen) as (? & ? & ? & ? & _).
    done.
Qed.

(** 100 rows, ratios 0.6 and 0.2, H = 12 and P = 3: 46 + 6 + 6 = 58. *)
Lemma generate_dataset_example_count_witness :
  (shape0 (ramp 100) < 2 ^ 53)%Z ∧
  (0 <=? f64_lit 6 (-1))%float = true ∧ (0 <=? f64_lit 2 (-1))%float = true ∧
  (f64_lit 6 (-1) + f64_lit 2 (-1) <=? 1)%float = true ∧
  ∃ train valid test : MyDataset nat,
    (MyDataset_len train, MyDataset_len valid, MyDataset_len test) = (46, 6, 6)%Z ∧
    (MyDataset_len train + MyDataset_len valid + MyDataset_len test = 58)%Z ∧
    generate_dataset (ramp 100) 32 (f64_lit 6 (-1)) (f64_lit 2 (-1)) 12 3
    = Ok ({| dataset := train; batch_size := 32 |},
          {| dataset := valid; batch_size := 32 |},
          {| dataset := test; batch_size := 32 |}).
Proof.
  assert (shape0 (ramp 100) < 2 ^ 53)%Z as HT by reflexivity.
  assert ((0 <=? f64_lit 6 (-1))%float = true) as Htr by reflexivity.
  assert ((0 <=? f64_lit 2 (-1))%float = true) as Hvr by reflexivity.
  assert ((f64_lit 6 (-1) + f64_lit 2 (-1) <=? 1)%float = true) as Hsum by reflexivity.
  split; [exact HT |]. split; [exact Htr |]. split; [exact Hvr |]. split; [exact Hsum |].
  destruct (generate_dataset_example_count (ramp 100) (f64_lit 6 (-1)) (f64_lit 2 (-1))
              32 12 3 HT Htr Hvr Hsum)
    as (train & valid & test & H1 & H2 & H3 & Hcount & _).
  exists train, valid, test. split; [| split; [exact Hcount |]].
  - vm_compute in H1, H2, H3.
    injection H1 as <-. injection H2 as <-. injection H3 as <-. reflexivity.
  - vm_compute in H1, H2, H3.
    injection H1 as <-. injection H2 as <-. injection H3 as <-.
    vm_compute. reflexivity.
Defined.

(** ** Adjacency normalizer: arrays that are not square *)

Section AdjacencyNormalizerMore.
Context {F : Type} `{Arith F}.
Implicit Types (A X Y : ndarray F).

Lemma broadcast_dim_1_r (n : nat) : broadcast_dim n 1 = Some n.
Proof. unfold broadcast_dim. repeat case_decide; by subst. Qed.

Lemma ufunc2_Raise (op : F → F → F) X Y (a b c d : nat) :
  shape X = [a; b] → shape Y = [c; d] →
  broadcast_dim a c = None ∨ broadcast_dim b d = None →
  ufunc2 op X Y = Raise (ValueError CannotBroadcast).
Proof.
  intros HX HY Hbad. unfold ufunc2. rewrite HX, HY.
  destruct Hbad as [-> | ->]; [done |]. by destruct (broadcast_dim a c).
Qed.

(** The three products of the function on an [n]×[m] array: the first
    always broadcasts, to [n]×[m]; the second pairs the [m] columns with the
    [n] entries of the scaling row; the third pairs the [n] columns of the
    identity with what came out. *)
Lemma get_normalized_adj_broadcast A (n m : nat) :
  shape A = [n; m] →
  match broadcast_dim m n with
  | Some k =>
      match broadcast_dim n k with
      | Some k' => ∃ B, get_normalized_adj A = Ok B ∧ shape B = [n; k'] ∧
                        length (items B) = n * k'
      | None => get_normalized_adj A = Raise (ValueError CannotBroadcast)
      end
  | None => get_normalized_adj A = Raise (ValueError CannotBroadcast)
  end.
Proof.
  intros HA. unfold get_normalized_adj. rewrite HA. cbv zeta.
  set (diag := np_map (λ d, fdiv f1 (fsqrt d)) _).
  rewrite (bind_Ok _ _ _ (ufunc2_Ok fmul (reshape diag [n; 1]) A n 1 n m n m
             eq_refl HA (broadcast_dim_same n) (broadcast_dim_1_l m))).
  set (X := tab2 n m _).
  destruct (broadcast_dim m n) as [k |] eqn:Hk.
  - rewrite (bind_Ok _ _ _ (ufunc2_Ok fmul X (reshape diag [1; n]) n m 1 n n k
               eq_refl eq_refl (broadcast_dim_1_r n) Hk)).
    set (A_wave := tab2 n k _).
    destruct (broadcast_dim n k) as [k' |] eqn:Hk'.
    + rewrite (bind_Ok _ _ _ (ufunc2_Ok fadd (np_eye n) A_wave n n n k n k'
                 eq_refl eq_refl (broadcast_dim_same n) Hk')).
      eexists. split; [reflexivity |]. split; [done |].
      unfold np_map. cbn [items]. rewrite !length_fmap. apply (tab2_length n k').
    + rewrite (ufunc2_Raise fadd (np_eye n) A_wave n n n k eq_refl eq_refl); [done |].
      by right.
  - rewrite (ufunc2_Raise fmul X (reshape diag [1; n]) n m 1 n eq_refl eq_refl); [done |].
    by right.
Qed.
End AdjacencyNormalizerMore.

(** X8. Whatever the arithmetic, on a 2-D array of shape (n, m)
    [get_normalized_adj] raises the broadcasting [ValueError] exactly when
    n ≠ m and neither is 1. A square array gives n×n; an array with one
    column (m = 1) is accepted and gives an n×n array; an array with one row
    (n = 1) is accepted and gives a 1×m array. *)
Theorem get_normalized_adj_shapes {F : Type} `{Arith F} (A : ndarray F) (n m : nat) :
  shape A = [n; m] →
  (n = m ∨ m = 1 →
     ∃ B, get_normalized_adj A = Ok B ∧ shape B = [n; n] ∧
          length (items B) = n * n) ∧
  (n = 1 →
     ∃ B, get_normalized_adj A = Ok B ∧ shape B = [1; m] ∧
          length (items B) = m) ∧
  (n ≠ m → n ≠ 1 → m ≠ 1 →
     get_normalized_adj A = Raise (ValueError CannotBroadcast)).
Proof.
  intros HA. pose proof (get_normalized_adj_broadcast A n m HA) as Hrun.
  unfold broadcast_dim in Hrun. split; [| split].
  - intros Hnm. repeat case_decide; subst; try lia; try done.
  - intros ->. repeat case_decide; subst; try lia;
      destruct Hrun as (B & HB & Hs & Hl); exists B;
      (split; [done |]); (split; [done | lia]).
  - intros Hnm Hn Hm. repeat case_decide; subst; try lia; done.
Qed.

(** A column of three entries comes back as a 3×3 array. *)
Lemma get_normalized_adj_shapes_witness :
  ∃ B, get_normalized_adj column3 = Ok B ∧ shape B = [3; 3] ∧
       length (items B) = 3 * 3.
Proof.
  apply (get_normalized_adj_shapes column3 3 1 eq_refl). by right.
Defined.

(** ** Adjacency normalizer: the range of the entries *)

Lemma real_alpha_half : fdiv (F := R) (flit 8 (-1)) (flit 2 0) = (4 / 10)%R.
Proof. unfold fdiv, flit. simpl. field. Qed.

Lemma real_floor_pos : (0 < flit (F := R) 1 (-4))%R.
Proof.
  unfold flit. simpl. rewrite Rmult_1_l. apply Rinv_0_lt_compat. lra.
Qed.

(** A term of a sum of non-negative reals is at most the sum. *)
Lemma Rsum_ge_term (l : list R) (x : R) :
  Forall (λ y, (0 <= y)%R) l → x ∈ l → (x <= foldr Rplus 0 l)%R.
Proof.
  induction 1 as [|y l Hy Hl IH]; intros Hx; [inversion Hx |].
  assert (0 <= foldr Rplus 0 l)%R as Hsum.
  { clear -Hl. induction Hl as [|z l Hz _ IH]; simpl; lra. }
  simpl. apply elem_of_cons in Hx as [-> | Hx]; [lra |].
  specialize (IH Hx). lra.
Qed.

(** The floored degree of a node is positive and at least every entry of
    its row, when the row is non-negative. *)
Lemma real_degree_bound (A : ndarray R) (n i j : nat) :
  (∀ k, k < n → (0 <= at2d A i k)%R) → j < n →
  (0 < degree A n i)%R ∧ (at2d A i j <= degree A n i)%R.
Proof.
  intros Hnn Hj. unfold degree.
  set (s := fsum ((λ k, at2d A i k) <$> seq 0 n)).
  assert (at2d A i j <= s)%R as Hle.
  { unfold s. cbn [fsum real_arith]. apply Rsum_ge_term.
    - apply Forall_fmap, Forall_forall. intros k Hk. apply elem_of_seq in Hk.
      simpl. apply Hnn. lia.
    - apply list_elem_of_fmap. exists j. split; [done |]. apply elem_of_seq. lia. }
  pose proof real_floor_pos as Hpos.
  cbn [fleb real_arith]. destruct (Rle_dec s (flit 1 (-4))) as [Hs | Hs].
  - split; [done | lra].
  - split; [lra | done].
Qed.

(** [a / (sqrt x · sqrt y)] lies in [0, 1] when [0 <= a <= x] and
    [a <= y]. *)
Lemma scaled_entry_bound (a x y : R) :
  (0 <= a)%R → (0 < x)%R → (0 < y)%R → (a <= x)%R → (a <= y)%R →
  (0 <= 1 / sqrt x * a * (1 / sqrt y) <= 1)%R.
Proof.
  intros Ha Hx Hy Hax Hay.
  pose proof (sqrt_lt_R0 x Hx) as Hp. pose proof (sqrt_lt_R0 y Hy) as Hq.
  assert (a <= sqrt x * sqrt y)%R as Hle.
  { rewrite <- (sqrt_sqrt a Ha) at 1.
    apply Rmult_le_compat; try apply sqrt_pos; by apply sqrt_le_1_alt. }
  assert (0 < / sqrt x)%R as Hip by (by apply Rinv_0_lt_compat).
  assert (0 < / sqrt y)%R as Hiq by (by apply Rinv_0_lt_compat).
  replace (1 / sqrt x * a * (1 / sqrt y))%R with (a * (/ sqrt x * / sqrt y))%R
    by (field; split; lra).
  split.
  - apply Rmult_le_pos; [done |]. apply Rmult_le_pos; lra.
  - replace 1%R with (sqrt x * sqrt y * (/ sqrt x * / sqrt y))%R by (field; split; lra).
    apply Rmult_le_compat_r; [| done]. apply Rmult_le_pos; lra.
Qed.

(** X9. In exact arithmetic, on a symmetric square matrix with
    non-negative entries the normalizer returns entries in [0, 0.8]: at
    least 0.4 on the diagonal and at most 0.4 off it. *)
Theorem normalized_adj_bounds (A : ndarray R) (n : nat) :
  shape A = [n; n] →
  (∀ i j, i < n → j < n → at2d A i j = at2d A j i) →
  (∀ i j, i < n → j < n → (0 <= at2d A i j)%R) →
  ∃ B, get_normalized_adj A = Ok B ∧
    (∀ i, i < n → (4 / 10 <= at2d B i i <= 8 / 10)%R) ∧
    (∀ i j, i < n → j < n → i ≠ j → (0 <= at2d B i j <= 4 / 10)%R).
Proof.
  intros HA Hsym Hnn.
  destruct (get_normalized_adj_square A n real_literal_10e_5 HA)
    as (B & HB & _ & _ & Hat).
  exists B. split; [done |].
  assert (∀ i j, i < n → j < n → (0 <= A_wave_spec A n i j <= 1)%R) as Hw.
  { intros i j Hi Hj. unfold A_wave_spec, inv_sqrt_degree.
    cbn [fmul fdiv f1 fsqrt real_arith].
    destruct (real_degree_bound A n i j) as [Hdi Hai]; [by intros; apply Hnn | done |].
    destruct (real_degree_bound A n j i) as [Hdj Haj]; [by intros; apply Hnn | done |].
    rewrite <- (Hsym i j) in Haj by done.
    apply scaled_entry_bound; try done. by apply Hnn. }
  split.
  - intros i Hi. rewrite Hat by done. unfold A_reg_spec.
    rewrite real_alpha_half, decide_True by done.
    cbn [f32 fmul fadd f1 real_arith]. specialize (Hw i i Hi Hi). lra.
  - intros i j Hi Hj Hne. rewrite Hat by done. unfold A_reg_spec.
    rewrite real_alpha_half, decide_False by done.
    cbn [f32 fmul fadd f0 real_arith]. specialize (Hw i j Hi Hj). lra.
Qed.

Lemma path2_nonneg (i j : nat) : i < 2 → j < 2 → (0 <= at2d path2 i j)%R.
Proof.
  intros Hi Hj.
  destruct i as [|[|i]]; destruct j as [|[|j]]; try lia; cbn; lra.
Qed.

Lemma normalized_adj_bounds_witness :
  ∃ B, get_normalized_adj path2 = Ok B ∧
    (∀ i, i < 2 → (4 / 10 <= at2d B i i <= 8 / 10)%R) ∧
    (∀ i j, i < 2 → j < 2 → i ≠ j → (0 <= at2d B i j <= 4 / 10)%R).
Proof.
  exact (normalized_adj_bounds path2 2 eq_refl path2_symmetric path2_nonneg).
Defined.

(** ** Statement sequences in a world *)

Section FileSystemProofs.
Context {F Rng : Type}.
Implicit Types (w : world F Rng).

Lemma io_bind_eq {A B : Type} (c : io F Rng A) (k : A → io F Rng B) w :
  (c ≫= k) w
  = match c w with
    | (Return a, w') => k a w'
    | (Throw e, w') => (Throw e, w')
    end.
Proof. reflexivity. Qed.

Lemma io_bind_Return {A B : Type} (c : io F Rng A) (k : A → io F Rng B) w a w' :
  c w = (Return a, w') → (c ≫= k) w = k a w'.
Proof. intros Hc. by rewrite io_bind_eq, Hc. Qed.

Lemma io_bind_Throw {A B : Type} (c : io F Rng A) (k : A → io F Rng B) w e w' :
  c w = (Throw e, w') → (c ≫= k) w = (Throw e, w').
Proof. intros Hc. by rewrite io_bind_eq, Hc. Qed.

Lemma pure_Ok {A : Type} (r : result A) (a : A) w :
  r = Ok a → pure r w = (Return a, w).
Proof. by intros ->. Qed.

Lemma pure_Raise {A : Type} (r : result A) (e : exn) w :
  r = Raise e → pure r w = (Throw (ArrayError e), w).
Proof. by intros ->. Qed.

(** Statements that leave the world as they found it. *)
Lemma bind_world {A B : Type} (c : io F Rng A) (k : A → io F Rng B) w :
  (c w).2 = w → (∀ a, (k a w).2 = w) → ((c ≫= k) w).2 = w.
Proof.
  intros Hc Hk. rewrite io_bind_eq. destruct (c w) as [[a | e] w1]; simpl in *; subst.
  - apply Hk.
  - done.
Qed.

Lemma io_for_world {A S : Type} (xs : list A) (body : A → S → io F Rng S) (s : S) w :
  (∀ x s, (body x s w).2 = w) → (io_for xs body s w).2 = w.
Proof.
  intros Hbody. revert s. induction xs as [|x xs IH]; intros s; simpl; [done |].
  by apply bind_world.
Qed.
End FileSystemProofs.

(** ** The edge list as a file *)

Section EdgeListProofs.
Context {F Rng : Type} (inf : F)
        (py_int : string → option Z) (py_float : string → option F).
Implicit Types (w : world F Rng).

Lemma field_parsed {A : Type} (parse : string → option A) (line : list string)
    (k : Z) (field : string) (a : A) w :
  getitem line k = Ok field → parse field = Some a →
  (field ← pure (getitem line k); literal parse field) w = (Return a, w).
Proof.
  intros Hk Ha. rewrite (io_bind_Return _ _ w field w) by (by apply pure_Ok).
  unfold literal. by rewrite Ha.
Qed.

Lemma edge_line_parsed (line : list string) (s e : Z) (d : F)
    (M : list (list F)) w :
  parses py_int py_float line (s, e, d) →
  edge_line (Rng := Rng) py_int py_float line M w
  = pure (M ← setitem2 M s e d; setitem2 M e s d) w.
Proof.
  intros (fs & fe & fd & rest & -> & Hs & He & Hd). simpl in Hs, He, Hd.
  unfold edge_line.
  assert (∀ w', (field ← pure (getitem (fs :: fe :: fd :: rest) 2);
                 literal py_float field) w' = (Return d, w')) as Hfd.
  { intros w'. apply (field_parsed py_float _ 2 fd); [| done].
    by apply (getitem_nat (fs :: fe :: fd :: rest) 2 fd). }
  rewrite (io_bind_Return _ _ w s w).
  2: { apply (field_parsed py_int _ 0 fs); [| done]. by apply (getitem_nat (fs :: fe :: fd :: rest) 0 fs). }
  rewrite (io_bind_Return _ _ w e w).
  2: { apply (field_parsed py_int _ 1 fe); [| done]. by apply (getitem_nat (fs :: fe :: fd :: rest) 1 fe). }
  rewrite (io_bind_Return _ _ w d w) by apply Hfd.
  destruct (setitem2 M s e d) as [M1 | e1] eqn:HM1.
  - rewrite (io_bind_Return _ _ w M1 w) by (by apply pure_Ok).
    rewrite (io_bind_Return _ _ w d w) by apply Hfd.
    done.
  - by rewrite (io_bind_Throw _ _ w (ArrayError e1) w) by (by apply pure_Raise).
Qed.

Lemma edge_line_world (line : list string) (M : list (list F)) w :
  (edge_line py_int py_float line M w).2 = w.
Proof.
  unfold edge_line.
  repeat first [done | apply bind_world | intros ?].
Qed.

Lemma spatial_from_csv_world (N : nat) (lines : list (list string)) w :
  (spatial_from_csv inf py_int py_float N lines w).2 = w.
Proof. unfold spatial_from_csv. apply io_for_world. intros; apply edge_line_world. Qed.

Lemma io_for_parsed (lines : list (list string)) (rows : list (@edge_row F))
    (M : list (list F)) w :
  Forall2 (parses py_int py_float) lines rows →
  io_for lines (edge_line py_int py_float) M w
  = pure (for_ rows (λ '(start, end_, d) dist_matrix,
                      dist_matrix ← setitem2 dist_matrix start end_ d;
                      setitem2 dist_matrix end_ start d) M) w.
Proof.
  intros Hall. revert M. induction Hall as [|line [[s e] d] lines rows Hp _ IH];
    intros M; [done |].
  cbn [io_for for_]. rewrite io_bind_eq, (edge_line_parsed _ s e d) by done.
  destruct (M1 ← setitem2 M s e d; setitem2 M1 e s d) as [M2 | e2]; simpl; [| done].
  apply IH.
Qed.
End EdgeListProofs.

(** X10. Read from the file, the edge list gives the matrix of its rows:
    the first line (the header) is consumed without being converted, and
    when every later line holds at least three fields that [int], [int] and
    [float] convert, the loop over the lines does what the loop over the
    converted rows [(start, end, distance)] does, further fields being
    ignored. A file without any line gives the all-infinite matrix. *)
Theorem spatial_from_csv_rows {F Rng : Type} (inf : F)
    (py_int : string → option Z) (py_float : string → option F)
    (num_nodes : nat) (lines : list (list string)) (rows : list (@edge_row F))
    (w : world F Rng) :
  Forall2 (parses py_int py_float) (drop 1 lines) rows →
  spatial_from_csv inf py_int py_float num_nodes lines w
  = pure (spatial_distance inf num_nodes rows) w.
Proof. intros Hall. unfold spatial_from_csv, spatial_distance. by apply io_for_parsed. Qed.

(** The sample file on three nodes. *)
Lemma spatial_from_csv_rows_witness :
  spatial_from_csv None sample_int sample_float 3 sample_lines
    {| disk := ∅; rng := 0 |}
  = (Return [[None; Some 5; Some 9]; [Some 5; None; Some 7]; [Some 9; Some 7; None]],
     {| disk := ∅; rng := 0 |}).
Proof.
  rewrite (spatial_from_csv_rows None sample_int sample_float 3 sample_lines sample_rows).
  - reflexivity.
  - repeat constructor; by eexists _, _, _, _.
Defined.

(** ** The two caches *)

Section CacheProofs.
Context {F Rng : Type} {arith : Arith F} {stats : Stats F} (inf : F)
        (py_int : string → option Z) (py_float : string → option F)
        (fastdtw : profile F → profile F → F).
Implicit Types (w : world F Rng).

Lemma os_path_exists_true (p : string) w :
  is_Some (disk w !! p) → os_path_exists p w = (Return true, w).
Proof. intros Hp. unfold os_path_exists. by rewrite bool_decide_eq_true_2. Qed.

Lemma os_path_exists_false (p : string) w :
  disk w !! p = None → os_path_exists p w = (Return false, w).
Proof.
  intros Hp. unfold os_path_exists. rewrite bool_decide_eq_false_2; [done |].
  rewrite Hp. by intros [? ?].
Qed.

Lemma spatial_block_hit (filepath : string) (file : list string) (filename : string)
    (N : nat) w :
  is_Some (disk w !! spatial_path filename) →
  spatial_block inf py_int py_float filepath file filename N w = (Return (), w).
Proof.
  intros Hp. unfold spatial_block.
  by rewrite (io_bind_Return _ _ w true w) by (by apply os_path_exists_true).
Qed.

(** The spatial block in a world without the cache: it ends with an
    exception in the same world, or it saves the matrix of the edge
    list. *)
Lemma spatial_block_miss (filepath : string) (file : list string) (filename : string)
    (N : nat) w :
  disk w !! spatial_path filename = None →
  (∃ e, spatial_block inf py_int py_float filepath file filename N w = (Throw e, w)) ∨
  (∃ name lines M,
     getitem file 1 = Ok name ∧
     disk w !! (filepath +:+ name) = Some (Csv lines) ∧
     spatial_from_csv inf py_int py_float N lines w = (Return M, w) ∧
     spatial_block inf py_int py_float filepath file filename N w
     = (Return (), {| disk := <[spatial_path filename := Npy M]> (disk w);
                      rng := rng w |})).
Proof.
  intros Hp. unfold spatial_block.
  rewrite (io_bind_Return _ _ w false w) by (by apply os_path_exists_false).
  destruct (getitem file 1) as [name | e] eqn:Hname.
  2: { left. eexists. by rewrite (io_bind_Throw _ _ w (ArrayError e) w). }
  rewrite (io_bind_Return _ _ w name w) by done.
  assert (∀ e, open_csv (filepath +:+ name) w = (Throw e, w) →
            ∃ e, (lines ← open_csv (filepath +:+ name);
                  dist_matrix ← spatial_from_csv inf py_int py_float N lines;
                  np_save (spatial_path filename) dist_matrix) w = (Throw e, w))
    as Hthrow.
  { intros e He. exists e. by rewrite (io_bind_Throw _ _ w e w). }
  destruct (disk w !! (filepath +:+ name)) as [[data | array | lines] |] eqn:Hcsv;
    try (left; eapply Hthrow; unfold open_csv; by rewrite Hcsv).
  rewrite (io_bind_Return _ _ w lines w) by (unfold open_csv; by rewrite Hcsv).
  pose proof (spatial_from_csv_world inf py_int py_float N lines w) as Hw.
  destruct (spatial_from_csv inf py_int py_float N lines w) as [[M | e] w1] eqn:Hrun;
    simpl in Hw; subst w1.
  - right. exists name, lines, M. split; [done |]. split; [done |]. split; [done |].
    by rewrite (io_bind_Return _ _ w M w).
  - left. exists e. by rewrite (io_bind_Throw _ _ w e w).
Qed.

Lemma dtw_block_hit (filename : string) (data : tensor F) w :
  is_Some (disk w !! dtw_path filename) →
  dtw_block fastdtw filename data w = (Return (), w).
Proof.
  intros Hp. unfold dtw_block.
  by rewrite (io_bind_Return _ _ w true w) by (by apply os_path_exists_true).
Qed.

(** The DTW block in a world without the cache: [IndexError] from the
    daily profiles in the same world, or the engine's matrix saved. *)
Lemma dtw_block_miss (filename : string) (data : tensor F) w :
  disk w !! dtw_path filename = None →
  (∃ e, daily_profiles data = Raise e ∧
        dtw_block fastdtw filename data w = (Throw (ArrayError e), w)) ∨
  (∃ data_mean M,
     daily_profiles data = Ok data_mean ∧
     dtw_distance f0 fastdtw data_mean = Ok M ∧
     dtw_block fastdtw filename data w
     = (Return (), {| disk := <[dtw_path filename := Npy M]> (disk w);
                      rng := rng w |})).
Proof.
  intros Hp. unfold dtw_block.
  rewrite (io_bind_Return _ _ w false w) by (by apply os_path_exists_false).
  destruct (daily_profiles data) as [data_mean | e] eqn:Hmean.
  2: { left. exists e. split; [done |].
       by rewrite (io_bind_Throw _ _ w (ArrayError e) w). }
  rewrite (io_bind_Return _ _ w data_mean w) by done.
  destruct (dtw_fill_spec f0 fastdtw data_mean) as (M0 & HM0 & Hfill).
  destruct (dtw_mirror_spec f0 fastdtw data_mean M0 Hfill) as (M & HM & _).
  assert (dtw_distance f0 fastdtw data_mean = Ok M) as Hdtw.
  { unfold dtw_distance. by rewrite HM0. }
  right. exists data_mean, M. split; [done |]. split; [done |].
  by rewrite (io_bind_Return _ _ w M w) by (by apply pure_Ok).
Qed.
End CacheProofs.

(** X11. The spatial cache is written in one step and never overwritten:
    when a file exists at the cache path the block returns without opening
    the edge list and changes nothing; when the block raises (no edge list,
    a field that does not convert, a node id outside the matrix) the world
    is as before, no cache file left behind; and when it returns from a world
    without the file, the new world is the old one with the matrix of the
    edge list saved at the cache path. *)
Theorem spatial_block_atomic {F Rng : Type} (inf : F)
    (py_int : string → option Z) (py_float : string → option F)
    (filepath : string) (file : list string) (filename : string) (num_nodes : nat)
    (w : world F Rng) :
  let run := spatial_block inf py_int py_float filepath file filename num_nodes w in
  (is_Some (disk w !! spatial_path filename) → run = (Return (), w)) ∧
  (∀ e, run.1 = Throw e → run.2 = w) ∧
  (disk w !! spatial_path filename = None → run.1 = Return () →
     ∃ name lines M,
       getitem file 1 = Ok name ∧
       disk w !! (filepath +:+ name) = Some (Csv lines) ∧
       spatial_from_csv inf py_int py_float num_nodes lines w = (Return M, w) ∧
       run.2 = {| disk := <[spatial_path filename := Npy M]> (disk w); rng := rng w |}).
Proof.
  intros run. split; [apply spatial_block_hit |]. split.
  - intros e He. destruct (disk w !! spatial_path filename) eqn:Hp.
    + unfold run. by rewrite spatial_block_hit.
    + destruct (spatial_block_miss inf py_int py_float filepath file filename
                  num_nodes w Hp) as [[e' Hrun] | (name & lines & M & _ & _ & _ & Hrun)];
        unfold run in *; rewrite Hrun in *; [done | discriminate].
  - intros Hp Hret.
    destruct (spatial_block_miss inf py_int py_float filepath file filename
                num_nodes w Hp) as [[e' Hrun] | (name & lines & M & ? & ? & ? & Hrun)];
      unfold run in *; rewrite Hrun in *; [discriminate |].
    by exists name, lines, M.
Qed.

(** X12. The spatial cache is keyed by the dataset name alone: once the
    block has returned and the array has been loaded, running the block
    again, in any world that still holds that file, with any edge list, any
    directory and any node count, changes nothing and loads the same
    array. *)
Theorem spatial_cache_stale {F Rng : Type} (inf : F)
    (py_int : string → option Z) (py_float : string → option F)
    (filepath filepath' : string) (file file' : list string) (filename : string)
    (num_nodes num_nodes' : nat) (w w' w2 : world F Rng) (M : list (list F)) :
  (spatial_block inf py_int py_float filepath file filename num_nodes;;
   np_load (spatial_path filename)) w = (Return M, w') →
  disk w2 !! spatial_path filename = disk w' !! spatial_path filename →
  (spatial_block inf py_int py_float filepath' file' filename num_nodes';;
   np_load (spatial_path filename)) w2 = (Return M, w2).
Proof.
  intros Hrun Hsame. rewrite io_bind_eq in Hrun.
  destruct (spatial_block inf py_int py_float filepath file filename num_nodes w)
    as [[[] | e] w1]; [| done].
  unfold np_load in Hrun.
  destruct (disk w1 !! spatial_path filename) as [[| array |] |] eqn:Hp;
    simplify_eq.
  rewrite Hp in Hsame.
  rewrite (io_bind_Return _ _ w2 () w2) by (apply spatial_block_hit; by rewrite Hsame).
  unfold np_load. by rewrite Hsame.
Qed.

(** ** [read_data] and the files *)

Section GrowsProofs.
Context {F Rng : Type}.
Implicit Types (w : world F Rng) (P : string → Prop).

Lemma grows_same_disk P w w' : disk w' = disk w → grows P w w'.
Proof. intros Hd q. left. by rewrite Hd. Qed.

Lemma grows_trans P w1 w2 w3 : grows P w1 w2 → grows P w2 w3 → grows P w1 w3.
Proof.
  intros H12 H23 q.
  destruct (H23 q) as [H3 | (Hnone & HP & M & HM)].
  - rewrite H3. apply H12.
  - destruct (H12 q) as [H2 | (_ & _ & M' & HM')]; [| congruence].
    right. split; [congruence |]. split; [done |]. by exists M.
Qed.

Lemma bind_grows {A B : Type} P (c : io F Rng A) (k : A → io F Rng B) w :
  grows P w (c w).2 → (∀ a w1, grows P w1 (k a w1).2) → grows P w ((c ≫= k) w).2.
Proof.
  intros Hc Hk. rewrite io_bind_eq. destruct (c w) as [[a | e] w1]; simpl in *.
  - eapply grows_trans; [exact Hc | apply Hk].
  - done.
Qed.

Lemma grows_save P (p : string) (M : list (list F)) w :
  disk w !! p = None → P p →
  grows P w {| disk := <[p := Npy M]> (disk w); rng := rng w |}.
Proof.
  intros Hp HP q. simpl. destruct (decide (p = q)) as [<- | Hne].
  - right. split; [done |]. split; [done |]. exists M. by rewrite lookup_insert_eq.
  - left. by rewrite lookup_insert_ne.
Qed.
End GrowsProofs.

Section ReadDataFiles.
Context {F V Rng : Type} `{EqDecision F} {arith : Arith F} {stats : Stats F}.
Context (inf : F)
        (py_int : string → option Z) (py_float : string → option F)
        (fastdtw : profile F → profile F → F)
        (random_interval : Rng → nat → nat * Rng)
        (train_node2vec : gmap nat (gmap nat F) → Rng → option (gmap nat V * Rng))
        (norm_diff : V → V → F).
Implicit Types (w : world F Rng).

Lemma dtw_block_grows (P : string → Prop) (filename : string) (data : tensor F) w :
  P (dtw_path filename) → grows P w (dtw_block fastdtw filename data w).2.
Proof.
  intros HP. destruct (disk w !! dtw_path filename) as [f |] eqn:Hp.
  - rewrite dtw_block_hit by done. by apply grows_same_disk.
  - destruct (dtw_block_miss fastdtw filename data w Hp)
      as [(e & _ & ->) | (dm & M & _ & _ & ->)]; simpl.
    + by apply grows_same_disk.
    + by apply grows_save.
Qed.

Lemma spatial_block_grows (P : string → Prop) (filepath : string) (file : list string)
    (filename : string) (N : nat) w :
  P (spatial_path filename) →
  grows P w (spatial_block inf py_int py_float filepath file filename N w).2.
Proof.
  intros HP. destruct (disk w !! spatial_path filename) as [f |] eqn:Hp.
  - rewrite spatial_block_hit by done. by apply grows_same_disk.
  - destruct (spatial_block_miss inf py_int py_float filepath file filename N w Hp)
      as [(e & ->) | (name & lines & M & _ & _ & _ & ->)]; simpl.
    + by apply grows_same_disk.
    + by apply grows_save.
Qed.

Lemma with_rng_disk {A : Type} (call : Rng → result (A * Rng)) w :
  disk (with_rng call w).2 = disk w.
Proof. unfold with_rng. by destruct (call (rng w)) as [[a g] | e]. Qed.

Lemma library_call_disk {A : Type} (call : Rng → option (A * Rng)) w :
  disk (library_call call w).2 = disk w.
Proof. unfold library_call. by destruct (call (rng w)) as [[a g] |]. Qed.
End ReadDataFiles.

(** X13. Whatever [read_data] does, and however it ends, it neither changes
    nor removes a file: every path holds afterwards what it held before,
    except that the DTW cache and the spatial cache of the dataset may have
    been created, as saved arrays, where no file was. *)
Theorem read_data_files {F V Rng : Type} `{EqDecision F} {arith : Arith F}
    {stats : Stats F} (inf : F)
    (py_int : string → option Z) (py_float : string → option F)
    (fastdtw : profile F → profile F → F)
    (random_interval : Rng → nat → nat * Rng)
    (train_node2vec : gmap nat (gmap nat F) → Rng → option (gmap nat V * Rng))
    (norm_diff : V → V → F) (args : Args) (w : world F Rng) :
  grows (λ q, q = dtw_path (filename args) ∨ q = spatial_path (filename args)) w
    (read_data inf py_int py_float fastdtw random_interval train_node2vec norm_diff
       args w).2.
Proof.
  unfold read_data. cbv zeta.
  apply bind_grows; [apply grows_same_disk; by destruct (files !! filename args) |].
  intros file w1. cbv zeta.
  apply bind_grows; [by apply grows_same_disk |]. intros name w2.
  apply bind_grows; [by apply grows_same_disk |]. intros data0 w3.
  apply bind_grows; [by apply grows_same_disk |]. intros [[data mean_value] std_value] w4.
  apply bind_grows; [apply dtw_block_grows; by left |]. intros [] w5.
  apply bind_grows; [by apply grows_same_disk |]. intros dist_matrix0 w6.
  apply bind_grows; [apply spatial_block_grows; by right |]. intros [] w7.
  apply bind_grows; [by apply grows_same_disk |]. intros dist_matrix w8. cbv zeta.
  apply bind_grows; [apply grows_same_disk, with_rng_disk |]. intros selected_nodes w9.
  apply bind_grows; [by apply grows_same_disk |]. intros G w10.
  apply bind_grows; [apply grows_same_disk, library_call_disk |]. intros node_embeddings w11.
  apply bind_grows; [by apply grows_same_disk |]. intros [dtw_matrix sp_matrix] w12.
  by apply grows_same_disk.
Qed.

(** ** [read_data] and the DTW matrix *)

Section AlikeProofs.
Context {F Rng : Type}.
Implicit Types (w : world F Rng) (p q : string).

Lemma alike_bind {A B : Type} p (c1 c2 : io F Rng A) (k1 k2 : A → io F Rng B) :
  alike p c1 c2 → (∀ a, alike p (k1 a) (k2 a)) → alike p (c1 ≫= k1) (c2 ≫= k2).
Proof.
  intros Hc Hk w1 w2 Hw. rewrite !io_bind_eq.
  destruct (Hc w1 w2 Hw) as [Ho Hw'].
  destruct (c1 w1) as [[a1 | e1] w1'], (c2 w2) as [[a2 | e2] w2'];
    simpl in *; simplify_eq; [by apply Hk | done].
Qed.

(** A statement that reads nothing of the world and leaves it alone. *)
Lemma alike_const {A : Type} p (o : outcome A) :
  alike p (λ w : world F Rng, (o, w)) (λ w, (o, w)).
Proof. by intros w1 w2 Hw. Qed.

Lemma alike_pure {A : Type} p (r : result A) : alike (F := F) (Rng := Rng) p (pure r) (pure r).
Proof. apply alike_const. Qed.

Lemma alike_literal {A : Type} p (parse : string → option A) (field : string) :
  alike (F := F) (Rng := Rng) p (literal parse field) (literal parse field).
Proof. apply alike_const. Qed.

Lemma alike_ret {A : Type} p (a : A) :
  alike (F := F) (Rng := Rng) p (mret a) (mret a).
Proof. apply (alike_const p (Return a)). Qed.

Lemma alike_os_path_exists p q :
  q ≠ p → alike (F := F) (Rng := Rng) p (os_path_exists q) (os_path_exists q).
Proof.
  intros Hq w1 w2 [Hr Hd]. unfold os_path_exists. simpl.
  rewrite (Hd q Hq). by split.
Qed.

Lemma np_load_Npy q (M : list (list F)) w :
  disk w !! q = Some (Npy M) → np_load q w = (Return M, w).
Proof. intros Hq. unfold np_load. by rewrite Hq. Qed.

Lemma alike_np_load p q :
  q ≠ p → alike (F := F) (Rng := Rng) p (np_load q) (np_load q).
Proof.
  intros Hq w1 w2 [Hr Hd]. unfold np_load. simpl. rewrite (Hd q Hq). by split.
Qed.

Lemma alike_open_csv p q :
  q ≠ p → alike (F := F) (Rng := Rng) p (open_csv q) (open_csv q).
Proof.
  intros Hq w1 w2 [Hr Hd]. unfold open_csv. simpl. rewrite (Hd q Hq). by split.
Qed.

Lemma alike_np_save p q (M : list (list F)) :
  alike (Rng := Rng) p (np_save q M) (np_save q M).
Proof.
  intros w1 w2 [Hr Hd]. unfold np_save. simpl. split; [done |].
  split; [done |]. intros q' Hq'. simpl.
  destruct (decide (q = q')) as [<- | Hne].
  - by rewrite !lookup_insert_eq.
  - rewrite !lookup_insert_ne by done. by apply Hd.
Qed.

Lemma alike_with_rng {A : Type} p (call : Rng → result (A * Rng)) :
  alike (F := F) p (with_rng call) (with_rng call).
Proof.
  intros w1 w2 [Hr Hd]. unfold with_rng. rewrite Hr.
  destruct (call (rng w2)) as [[a g] | e]; simpl; by repeat split.
Qed.

Lemma alike_library_call {A : Type} p (call : Rng → option (A * Rng)) :
  alike (F := F) p (library_call call) (library_call call).
Proof.
  intros w1 w2 [Hr Hd]. unfold library_call. rewrite Hr.
  destruct (call (rng w2)) as [[a g] |]; simpl; by repeat split.
Qed.

Lemma alike_io_for {A S : Type} p (xs : list A) (body : A → S → io F Rng S) (s : S) :
  (∀ x s, alike p (body x s) (body x s)) → alike p (io_for xs body s) (io_for xs body s).
Proof.
  intros Hbody. revert s. induction xs as [|x xs IH]; intros s; simpl.
  - apply alike_ret.
  - apply alike_bind; [apply Hbody | apply IH].
Qed.
End AlikeProofs.

(** The paths [read_data] reads its inputs from are not cache paths: they
    start with [./] or [/], a cache path with [data/]. *)
Lemma input_path_not_cache (remote : bool) (name filename suffix : string) :
  (if remote then "/home/lantu.lqq/ftemp/data/" else "./data/") +:+ name
  ≠ "data/" +:+ filename +:+ suffix.
Proof. by destruct remote. Qed.

Lemma spatial_path_not_dtw_path (filename : string) :
  spatial_path filename ≠ dtw_path filename.
Proof.
  unfold spatial_path, dtw_path. intros Heq.
  apply (inj (String.app "data/")) in Heq.
  apply (inj (String.app filename)) in Heq. discriminate.
Qed.

Section ReadDataAlike.
Context {F V Rng : Type} `{EqDecision F} {arith : Arith F} {stats : Stats F}.
Context (inf : F)
        (py_int : string → option Z) (py_float : string → option F)
        (random_interval : Rng → nat → nat * Rng)
        (train_node2vec : gmap nat (gmap nat F) → Rng → option (gmap nat V * Rng))
        (norm_diff : V → V → F).
Implicit Types (w : world F Rng).

Lemma alike_field {A : Type} (p : string) (parse : string → option A)
    (line : list string) (k : Z) :
  alike (F := F) (Rng := Rng) p
    (field ← pure (getitem line k); literal parse field)
    (field ← pure (getitem line k); literal parse field).
Proof. apply alike_bind; [apply alike_pure |]. intros field. apply alike_literal. Qed.

Lemma alike_edge_line (p : string) (line : list string) (M : list (list F)) :
  alike (Rng := Rng) p (edge_line py_int py_float line M)
    (edge_line py_int py_float line M).
Proof.
  unfold edge_line.
  apply alike_bind; [apply alike_field |]. intros start.
  apply alike_bind; [apply alike_field |]. intros end_.
  apply alike_bind; [apply alike_field |]. intros d.
  apply alike_bind; [apply alike_pure |]. intros M1.
  apply alike_bind; [apply alike_field |]. intros d'.
  apply alike_pure.
Qed.

Lemma alike_spatial_block (p filepath : string) (file : list string)
    (filename : string) (N : nat) :
  spatial_path filename ≠ p → (∀ name, filepath +:+ name ≠ p) →
  alike (Rng := Rng) p
    (spatial_block inf py_int py_float filepath file filename N)
    (spatial_block inf py_int py_float filepath file filename N).
Proof.
  intros Hsp Hin. unfold spatial_block.
  apply alike_bind; [by apply alike_os_path_exists |]. intros [|].
  { apply alike_ret. }
  apply alike_bind; [apply alike_pure |]. intros name.
  apply alike_bind; [apply alike_open_csv, Hin |]. intros lines.
  apply alike_bind; [| intros M; apply alike_np_save].
  unfold spatial_from_csv. apply alike_io_for. intros line M. apply alike_edge_line.
Qed.

(** What [read_data] does after it has loaded the DTW cache. *)
Lemma alike_read_data_rest (args : Args) (file : list string) (data : tensor F)
    (mean_value std_value : F) :
  let p := dtw_path (filename args) in
  let filepath := (if remote args then "/home/lantu.lqq/ftemp/data/" else "./data/") in
  let rest : io F Rng (tensor F * F * F * list (list F) * list (list F)) :=
    spatial_block inf py_int py_float filepath file (filename args) (nodes data);;
    dist_matrix ← np_load (spatial_path (filename args));
    selected_nodes ← with_rng (select_nodes random_interval (nodes data));
    G ← pure (generate_graph inf (nodes data) dist_matrix selected_nodes);
    node_embeddings ← library_call (train_node2vec G);
    '(dtw_matrix, sp_matrix) ←
      pure (derive_similarity f0 norm_diff (nodes data) selected_nodes node_embeddings);
    mret (tensor_map f32 data, mean_value, std_value, dtw_matrix, sp_matrix) in
  alike p rest rest.
Proof.
  intros p filepath rest. unfold rest.
  apply alike_bind.
  { apply alike_spatial_block; [apply spatial_path_not_dtw_path |].
    intros name. apply input_path_not_cache. }
  intros [].
  apply alike_bind; [apply alike_np_load, spatial_path_not_dtw_path |]. intros dist_matrix.
  apply alike_bind; [apply alike_with_rng |]. intros selected_nodes.
  apply alike_bind; [apply alike_pure |]. intros G.
  apply alike_bind; [apply alike_library_call |]. intros node_embeddings.
  apply alike_bind; [apply alike_pure |]. intros [dtw_matrix sp_matrix].
  apply alike_ret.
Qed.
End ReadDataAlike.

(** X14. The DTW distance matrix does not reach what [read_data] returns:
    [dist_matrix] is loaded from the DTW cache and overwritten from the
    spatial cache before it is read. Two runs that differ only in the
    alignment engine and in the array the DTW cache holds (when both worlds
    have one, or none has) end the same way: with the same exception, or with
    the same data, statistics and similarity matrices. *)
Theorem read_data_ignores_dtw {F V Rng : Type} `{EqDecision F} {arith : Arith F}
    {stats : Stats F} (inf : F)
    (py_int : string → option Z) (py_float : string → option F)
    (fastdtw fastdtw' : profile F → profile F → F)
    (random_interval : Rng → nat → nat * Rng)
    (train_node2vec : gmap nat (gmap nat F) → Rng → option (gmap nat V * Rng))
    (norm_diff : V → V → F) (args : Args) (w w' : world F Rng) :
  agree_except (dtw_path (filename args)) w w' →
  (disk w !! dtw_path (filename args) = None ∧
   disk w' !! dtw_path (filename args) = None) ∨
  (∃ M M', disk w !! dtw_path (filename args) = Some (Npy M) ∧
           disk w' !! dtw_path (filename args) = Some (Npy M')) →
  (read_data inf py_int py_float fastdtw random_interval train_node2vec norm_diff
     args w).1
  = (read_data inf py_int py_float fastdtw' random_interval train_node2vec norm_diff
       args w').1.
Proof.
  intros Hw Hcache. unfold read_data. cbv zeta.
  set (p := dtw_path (filename args)) in *.
  set (filepath := if remote args then "/home/lantu.lqq/ftemp/data/" else "./data/").
  rewrite !io_bind_eq.
  destruct (files !! filename args) as [file |]; [| done].
  rewrite !io_bind_eq. unfold pure at 1 5.
  destruct (getitem file 0) as [name | e]; [| done].
  rewrite !io_bind_eq. unfold np_load_data.
  assert (disk w !! (filepath +:+ name) = disk w' !! (filepath +:+ name)) as ->.
  { apply Hw. apply input_path_not_cache. }
  destruct (disk w' !! (filepath +:+ name)) as [[data0 | |] |]; try done.
  rewrite !io_bind_eq. unfold pure at 1 4.
  destruct (normalize data0) as [[[data mean_value] std_value] | e]; [| done].
  pose proof (alike_read_data_rest inf py_int py_float random_interval train_node2vec
                norm_diff args file data mean_value std_value) as Hrest.
  cbv zeta in Hrest. fold p filepath in Hrest.
  destruct Hcache as [[Hn Hn'] | (M & M' & HM & HM')].
  - rewrite !(io_bind_eq (dtw_block _ _ _)).
    destruct (dtw_block_miss fastdtw (filename args) data w Hn)
      as [(e & He & ->) | (dm & D & Hdm & _ & ->)];
    destruct (dtw_block_miss fastdtw' (filename args) data w' Hn')
      as [(e' & He' & ->) | (dm' & D' & Hdm' & _ & ->)]; try congruence.
    { simpl. congruence. }
    rewrite (io_bind_Return _ _ _ D _) by (apply np_load_Npy, lookup_insert_eq).
    rewrite (io_bind_Return _ _ _ D' _) by (apply np_load_Npy, lookup_insert_eq).
    apply Hrest. destruct Hw as [Hr Hd]. split; [done |].
    intros q Hq. cbn [disk]. rewrite !lookup_insert_ne by done. by apply Hd.
  - rewrite (io_bind_Return _ _ w () w) by (apply dtw_block_hit; fold p; by rewrite HM).
    rewrite (io_bind_Return _ _ w' () w') by (apply dtw_block_hit; fold p; by rewrite HM').
    rewrite (io_bind_Return _ _ w M w) by (by apply np_load_Npy).
    rewrite (io_bind_Return _ _ w' M' w') by (by apply np_load_Npy).
    by apply Hrest.
Qed.

(** ** [read_data] from its caches, and on a short series *)

Section NormalizeProofs.
Context {F : Type} {arith : Arith F} {stats : Stats F}.

Lemma normalize_Ok (data : tensor F) :
  0 < channels data →
  ∃ data' mean_value std_value,
    normalize data = Ok (data', mean_value, std_value) ∧
    nodes data' = nodes data ∧ channels data' = channels data ∧
    length (steps data') = length (steps data) ∧
    np_mean01 data !! 0 = Some mean_value ∧ np_std01 data !! 0 = Some std_value.
Proof.
  intros Hc. unfold normalize.
  destruct (lookup_lt_is_Some_2 (np_mean01 data) 0) as [m Hm].
  { unfold np_mean01. rewrite length_fmap, length_seq. lia. }
  destruct (lookup_lt_is_Some_2 (np_std01 data) 0) as [s Hs].
  { unfold np_std01. rewrite length_fmap, length_seq. lia. }
  cbv zeta.
  pose proof (getitem_nat _ 0 m Hm) as Hgm. change (Z.of_nat 0) with 0%Z in Hgm.
  pose proof (getitem_nat _ 0 s Hs) as Hgs. change (Z.of_nat 0) with 0%Z in Hgs.
  rewrite Hgm. cbn [mbind result_bind]. rewrite Hgs. cbn [mbind result_bind].
  eexists _, m, s. split; [reflexivity |]. simpl.
  by rewrite length_fmap.
Qed.

Lemma normalize_Raise (data : tensor F) :
  channels data = 0 → normalize data = Raise IndexError.
Proof. intros Hc. unfold normalize, np_mean01. rewrite Hc. reflexivity. Qed.

(** Without a complete day the daily profiles cannot be formed. *)
Lemma daily_profiles_short (data : tensor F) :
  length (steps data) < 24 * 12 → daily_profiles data = Raise IndexError.
Proof.
  intros Hshort. unfold daily_profiles.
  rewrite Nat.div_small by done. reflexivity.
Qed.
End NormalizeProofs.

Section ReadDataRuns.
Context {F Rng : Type}.
Implicit Types (w : world F Rng).

Lemma np_load_data_Npz (q : string) (data : tensor F) w :
  disk w !! q = Some (Npz data) → np_load_data q w = (Return data, w).
Proof. intros Hq. unfold np_load_data. by rewrite Hq. Qed.

Lemma with_rng_Ok {A : Type} (call : Rng → result (A * Rng)) (a : A) (g : Rng) w :
  call (rng w) = Ok (a, g) →
  with_rng call w = (Return a, {| disk := disk w; rng := g |}).
Proof. intros Hc. unfold with_rng. by rewrite Hc. Qed.

Lemma select_nodes_in_range (random_interval : Rng → nat → nat * Rng)
    (N : nat) (g : Rng) :
  ∃ selected_nodes g',
    select_nodes random_interval N g = Ok (selected_nodes, g') ∧
    Forall (λ i, i < N) selected_nodes.
Proof.
  unfold select_nodes. destruct (decide (100 < N)) as [Hbig | Hsmall].
  - unfold choice. rewrite decide_False by lia.
    pose proof (permutation_Permutation random_interval N g) as Hperm.
    destruct (permutation random_interval N g) as [idx g']. simpl in Hperm.
    exists (take 100 idx), g'. split; [done |].
    apply Forall_take. rewrite Hperm. apply Forall_forall.
    intros i Hi. apply elem_of_seq in Hi. lia.
  - exists (seq 0 N), g. split; [done |]. apply Forall_forall.
    intros i Hi. apply elem_of_seq in Hi. lia.
Qed.
End ReadDataRuns.

(** X15. With both caches on disk, the spatial one an N×N array for the N
    nodes of the data, [read_data] needs neither the edge list nor a
    complete day of data and raises no array exception: the sampled nodes
    index the matrix, the graph is built, and the run ends with the
    exception of the embedding library, if it raises, or else returns the
    normalised data as float32, the mean and deviation of the first channel,
    and the similarity matrix twice. The files are left as they were. *)
Theorem read_data_from_caches {F V Rng : Type} `{EqDecision F} {arith : Arith F}
    {stats : Stats F} (inf : F)
    (py_int : string → option Z) (py_float : string → option F)
    (fastdtw : profile F → profile F → F)
    (random_interval : Rng → nat → nat * Rng)
    (train_node2vec : gmap nat (gmap nat F) → Rng → option (gmap nat V * Rng))
    (norm_diff : V → V → F) (args : Args) (w : world F Rng)
    (npz_name csv_name : string) (data0 : tensor F) (D M : list (list F)) :
  files !! filename args = Some [npz_name; csv_name] →
  disk w !! ((if remote args then "/home/lantu.lqq/ftemp/data/" else "./data/")
             +:+ npz_name) = Some (Npz data0) →
  0 < channels data0 →
  disk w !! dtw_path (filename args) = Some (Npy D) →
  disk w !! spatial_path (filename args) = Some (Npy M) →
  length M = nodes data0 → Forall (λ r, length r = nodes data0) M →
  ∃ data mean_value std_value selected_nodes g1 G,
    normalize data0 = Ok (data, mean_value, std_value) ∧
    select_nodes random_interval (nodes data0) (rng w) = Ok (selected_nodes, g1) ∧
    Forall (λ i, i < nodes data0) selected_nodes ∧
    generate_graph inf (nodes data0) M selected_nodes = Ok G ∧
    match train_node2vec G g1 with
    | Some (node_embeddings, g2) =>
        ∃ S, derive_similarity f0 norm_diff (nodes data0) selected_nodes
               node_embeddings = Ok (S, S) ∧
             read_data inf py_int py_float fastdtw random_interval train_node2vec
               norm_diff args w
             = (Return (tensor_map f32 data, mean_value, std_value, S, S),
                {| disk := disk w; rng := g2 |})
    | None =>
        read_data inf py_int py_float fastdtw random_interval train_node2vec
          norm_diff args w
        = (Throw TrainerError, {| disk := disk w; rng := g1 |})
    end.
Proof.
  intros Hfile Hnpz Hc Hdtw Hsp Hlen Hrows.
  destruct (normalize_Ok data0 Hc) as (data & m & s & Hnorm & Hnodes & _ & _ & _ & _).
  destruct (select_nodes_in_range random_interval (nodes data0) (rng w))
    as (S & g1 & Hsel & Hin).
  destruct (generate_graph_run inf (nodes data0) M S Hlen Hrows Hin) as (G & HG & _).
  exists data, m, s, S, g1, G.
  split; [done |]. split; [done |]. split; [done |]. split; [done |].
  unfold read_data. cbv zeta.
  rewrite (io_bind_Return _ _ w [npz_name; csv_name] w) by (cbv beta; by rewrite Hfile).
  rewrite (io_bind_Return _ _ w npz_name w)
    by (apply pure_Ok; exact (getitem_nat [npz_name; csv_name] 0 npz_name eq_refl)).
  rewrite (io_bind_Return _ _ w data0 w) by (by apply np_load_data_Npz).
  rewrite (io_bind_Return _ _ w (data, m, s) w) by (by apply pure_Ok).
  cbv beta iota.
  rewrite (io_bind_Return _ _ w () w) by (apply dtw_block_hit; by rewrite Hdtw).
  rewrite (io_bind_Return _ _ w D w) by (by apply np_load_Npy).
  rewrite (io_bind_Return _ _ w () w) by (apply spatial_block_hit; by rewrite Hsp).
  rewrite (io_bind_Return _ _ w M w) by (by apply np_load_Npy).
  rewrite Hnodes.
  rewrite (io_bind_Return _ _ w S {| disk := disk w; rng := g1 |})
    by (by apply with_rng_Ok).
  rewrite (io_bind_Return _ _ _ G _) by (by apply pure_Ok).
  rewrite !io_bind_eq. unfold library_call. cbn [rng disk].
  destruct (train_node2vec G g1) as [[E g2] |]; [| done].
  destruct (derive_similarity_spec f0 norm_diff (nodes data0) S E Hin) as (Sim & HSim & _).
  exists Sim. split; [done |].
  by rewrite (io_bind_Return _ _ _ (Sim, Sim) _) by (by apply pure_Ok).
Qed.

(** X16. A series of fewer than 24 * 12 time steps cannot seed the DTW
    cache: when the dataset is registered, its archive is on disk with at
    least one channel, and no DTW cache exists, [read_data] raises
    [IndexError] (the mean of no day has no first axis) and leaves the world
    as it was. *)
Theorem read_data_short_series {F V Rng : Type} `{EqDecision F} {arith : Arith F}
    {stats : Stats F} (inf : F)
    (py_int : string → option Z) (py_float : string → option F)
    (fastdtw : profile F → profile F → F)
    (random_interval : Rng → nat → nat * Rng)
    (train_node2vec : gmap nat (gmap nat F) → Rng → option (gmap nat V * Rng))
    (norm_diff : V → V → F) (args : Args) (w : world F Rng)
    (npz_name csv_name : string) (data0 : tensor F) :
  files !! filename args = Some [npz_name; csv_name] →
  disk w !! ((if remote args then "/home/lantu.lqq/ftemp/data/" else "./data/")
             +:+ npz_name) = Some (Npz data0) →
  0 < channels data0 →
  length (steps data0) < 24 * 12 →
  disk w !! dtw_path (filename args) = None →
  read_data inf py_int py_float fastdtw random_interval train_node2vec norm_diff args w
  = (Throw (ArrayError IndexError), w).
Proof.
  intros Hfile Hnpz Hc Hshort Hdtw.
  destruct (normalize_Ok data0 Hc) as (data & m & s & Hnorm & _ & _ & Hsteps & _ & _).
  unfold read_data. cbv zeta.
  rewrite (io_bind_Return _ _ w [npz_name; csv_name] w) by (cbv beta; by rewrite Hfile).
  rewrite (io_bind_Return _ _ w npz_name w)
    by (apply pure_Ok; exact (getitem_nat [npz_name; csv_name] 0 npz_name eq_refl)).
  rewrite (io_bind_Return _ _ w data0 w) by (by apply np_load_data_Npz).
  rewrite (io_bind_Return _ _ w (data, m, s) w) by (by apply pure_Ok).
  cbv beta iota.
  apply io_bind_Throw.
  destruct (dtw_block_miss fastdtw (filename args) data w Hdtw)
    as [(e & He & ->) | (dm & _ & Hdm & _)].
  - rewrite daily_profiles_short in He by lia. by simplify_eq.
  - rewrite daily_profiles_short in Hdm by lia. done.
Qed.

(** The edge list of pems03 is read once; with the cache left on a disk
    without the edge list, a run for nine nodes from another directory loads
    the 3×3 matrix. *)
Lemma spatial_cache_stale_witness :
  (spatial_block None sample_int sample_float "elsewhere/" [] "pems03" 9;;
   np_load (spatial_path "pems03"))
    {| disk := {[ spatial_path "pems03" := Npy sample_matrix ]}; rng := 4 |}
  = (Return sample_matrix,
     {| disk := {[ spatial_path "pems03" := Npy sample_matrix ]}; rng := 4 |}).
Proof.
  apply (spatial_cache_stale None sample_int sample_float "./data/" "elsewhere/"
           ["PEMS03/pems03.npz"; "PEMS03/distance.csv"] [] "pems03" 3 9
           sample_csv_world
           {| disk := <[spatial_path "pems03" := Npy sample_matrix]>
                        (disk sample_csv_world);
              rng := 0 |}).
  - vm_compute. reflexivity.
  - vm_compute. reflexivity.
Defined.

Lemma sample_world_agree (dtw dtw' : list (list R)) :
  agree_except (dtw_path "pems03") (sample_world dtw) (sample_world dtw').
Proof.
  split; [done |]. intros q Hq. unfold sample_world. cbn [disk].
  by rewrite !(lookup_insert_ne _ (dtw_path "pems03")).
Qed.

(** Two engines and two DTW caches over the same archive and spatial
    cache. *)
Lemma read_data_ignores_dtw_witness :
  (read_data (-1)%R sample_int (λ _, None) sample_engine counter_interval
     sample_trainer sample_norm_diff sample_args (sample_world [[0]]%R)).1
  = (read_data (-1)%R sample_int (λ _, None) (λ _ _, 1%R) counter_interval
       sample_trainer sample_norm_diff sample_args (sample_world [[5; 5]]%R)).1.
Proof.
  apply read_data_ignores_dtw.
  - apply sample_world_agree.
  - right. exists [[0]]%R, [[5; 5]]%R. unfold sample_world. cbn [disk].
    by rewrite !lookup_insert_eq.
Defined.

Lemma sample_files : files !! "pems03" = Some ["PEMS03/pems03.npz"; "PEMS03/distance.csv"].
Proof. vm_compute. reflexivity. Qed.

Lemma sample_world_archive (dtw : list (list R)) :
  disk (sample_world dtw) !! ("./data/" +:+ "PEMS03/pems03.npz") = Some (Npz sample_data).
Proof.
  unfold sample_world, sample_world_cold. cbn [disk].
  rewrite !lookup_insert_ne by (by vm_compute). apply lookup_singleton_eq.
Qed.

(** The archive of pems03 with both caches: the run returns. *)
Lemma read_data_from_caches_witness :
  ∃ data mean_value std_value Sim g,
    read_data (-1)%R sample_int (λ _, None) sample_engine counter_interval
      sample_trainer sample_norm_diff sample_args (sample_world [[0]]%R)
    = (Return (tensor_map f32 data, mean_value, std_value, Sim, Sim),
       {| disk := disk (sample_world [[0]]%R); rng := g |}).
Proof.
  destruct (read_data_from_caches (-1)%R sample_int (λ _, None) sample_engine
              counter_interval sample_trainer sample_norm_diff sample_args
              (sample_world [[0]]%R) "PEMS03/pems03.npz" "PEMS03/distance.csv"
              sample_data [[0]]%R [[-1; 4]; [4; -1]]%R)
    as (data & m & s & sel & g1 & G & _ & _ & _ & _ & Hrun).
  - exact sample_files.
  - apply sample_world_archive.
  - simpl. lia.
  - unfold sample_world. cbn [disk]. apply lookup_insert_eq.
  - unfold sample_world. cbn [disk].
    rewrite lookup_insert_ne by (by vm_compute). apply lookup_insert_eq.
  - reflexivity.
  - repeat constructor.
  - unfold sample_trainer in Hrun. destruct Hrun as (Sim & _ & Hrun).
    by exists data, m, s, Sim, (S g1).
Defined.

(** The archive of pems03, two time steps long, on a disk without
    caches. *)
Lemma read_data_short_series_witness :
  read_data (-1)%R sample_int (λ _, None) sample_engine counter_interval
    sample_trainer sample_norm_diff sample_args sample_world_cold
  = (Throw (ArrayError IndexError), sample_world_cold).
Proof.
  apply (read_data_short_series (-1)%R sample_int (λ _, None) sample_engine
           counter_interval sample_trainer sample_norm_diff sample_args
           sample_world_cold "PEMS03/pems03.npz" "PEMS03/distance.csv" sample_data).
  - exact sample_files.
  - apply lookup_singleton_eq.
  - simpl. lia.
  - simpl. lia.
  - apply lookup_singleton_ne. by vm_compute.
Defined.

(** ** Normalisation in exact arithmetic *)

Section NormalizeMore.
Context {F : Type} {arith : Arith F} {stats : Stats F}.

(** What [normalize] returns, when it returns. *)
Lemma normalize_Ok_inv (data0 data : tensor F) (m s : F) :
  normalize data0 = Ok (data, m, s) →
  data = {| nodes := nodes data0; channels := channels data0;
            steps := (λ step : list (list F),
                        (λ v : list F,
                           zip_with fdiv (zip_with fsub v (np_mean01 data0))
                             (np_std01 data0)) <$> step) <$> steps data0 |} ∧
  np_mean01 data0 !! 0 = Some m ∧ np_std01 data0 !! 0 = Some s.
Proof.
  unfold normalize. cbv zeta.
  destruct (getitem (np_mean01 data0) 0) as [m' |] eqn:Hm; [| done].
  cbn [mbind result_bind].
  destruct (getitem (np_std01 data0) 0) as [s' |] eqn:Hs; [| done].
  cbn [mbind result_bind]. intros [= <- <- <-].
  apply getitem_Ok_inv in Hm as [_ Hm]. apply getitem_Ok_inv in Hs as [_ Hs].
  done.
Qed.

(** The values of channel [c] after the normalisation. *)
Lemma channel_values_normalize (data0 data : tensor F) (m s : F) (c : nat) :
  tensor_wf data0 → normalize data0 = Ok (data, m, s) → c < channels data0 →
  channel_values data c
  = (λ x, fdiv (fsub x (fmean (channel_values data0 c)))
               (let values := channel_values data0 c in
                let arrmean := fmean values in
                fsqrt (fmean ((λ x, fmul (fsub x arrmean) (fsub x arrmean)) <$> values))))
    <$> channel_values data0 c.
Proof.
  intros Hwf Hnorm Hc. apply normalize_Ok_inv in Hnorm as (-> & _ & _).
  unfold channel_values at 1 4. cbn [steps].
  assert (Forall (λ v : list F, length v = channels data0) (concat (steps data0))) as Hvs.
  { apply Forall_concat. eapply Forall_impl; [exact Hwf |]. by intros step [_ ?]. }
  assert (∀ (g : list F → list F) (l : list (list (list F))),
            concat ((λ step : list (list F), g <$> step) <$> l) = g <$> concat l)
    as Hconcat.
  { intros g l. induction l as [|step l IH]; [done |].
    rewrite fmap_cons. cbn [concat]. by rewrite fmap_app, IH. }
  rewrite Hconcat, <- !list_fmap_compose.
  apply list_eq. intros i. rewrite !list_lookup_fmap.
  destruct (concat (steps data0) !! i) as [v |] eqn:Hv; [| done]. simpl. f_equal.
  rewrite Forall_lookup in Hvs. pose proof (Hvs i v Hv) as Hl. simpl in Hl.
  destruct (lookup_lt_is_Some_2 v c) as [x Hx]; [lia |].
  rewrite !lookup_zip_with, Hx. unfold np_mean01, np_std01.
  rewrite !list_lookup_fmap, !lookup_seq_lt by done. done.
Qed.
End NormalizeMore.

Lemma Rsum_scale {A : Type} (k : R) (f : A → R) (l : list A) :
  foldr Rplus 0%R ((λ x, k * f x)%R <$> l) = (k * foldr Rplus 0%R (f <$> l))%R.
Proof.
  induction l as [|x l IH]; [simpl; lra |].
  rewrite !fmap_cons. cbn [foldr]. rewrite IH. lra.
Qed.

Lemma Rsum_minus_const (a : R) (l : list R) :
  foldr Rplus 0%R ((λ x, x - a)%R <$> l)
  = (foldr Rplus 0%R l - INR (length l) * a)%R.
Proof.
  induction l as [|x l IH]; [simpl; lra |].
  rewrite fmap_cons. cbn [foldr length]. rewrite IH, S_INR. lra.
Qed.

(** The mean of the differences to the mean is zero. *)
Lemma Rmean_centered (l : list R) :
  foldr Rplus 0%R ((λ x, x - foldr Rplus 0 l / INR (length l))%R <$> l) = 0%R.
Proof.
  rewrite Rsum_minus_const. destruct l as [|x l]; [simpl; lra |].
  assert (INR (length (x :: l)) ≠ 0%R) as Hn by (apply not_0_INR; simpl; lia).
  field. exact Hn.
Qed.

(** X17. In exact arithmetic the normalisation standardises every channel
    whose deviation is not zero: afterwards the mean of the channel over the
    time steps and the nodes is 0 and its deviation is 1. *)
Theorem normalize_standardizes (data0 data : tensor R) (m s : R) (c : nat) :
  tensor_wf data0 → normalize data0 = Ok (data, m, s) → c < channels data0 →
  np_std01 data0 !! c ≠ Some 0%R →
  np_mean01 data !! c = Some 0%R ∧ np_std01 data !! c = Some 1%R.
Proof.
  intros Hwf Hnorm Hc Hsd.
  pose proof (channel_values_normalize data0 data m s c Hwf Hnorm Hc) as Hvals.
  cbv zeta in Hvals.
  assert (channels data = channels data0) as Hch.
  { by apply normalize_Ok_inv in Hnorm as (-> & _ & _). }
  set (vals := channel_values data0 c) in *.
  set (n := INR (length vals)).
  set (mu := fmean vals) in *.
  set (var := fmean ((λ x, fmul (fsub x mu) (fsub x mu)) <$> vals)) in *.
  assert (np_std01 data0 !! c = Some (fsqrt var)) as Hsd0.
  { unfold np_std01. by rewrite list_lookup_fmap, lookup_seq_lt. }
  rewrite Hsd0 in Hsd.
  assert (sqrt var ≠ 0%R) as Hsigma by (intros Heq; apply Hsd; by rewrite <- Heq).
  assert (0 < var)%R as Hvar.
  { destruct (Rlt_le_dec 0 var) as [? | Hle]; [done |].
    exfalso. apply Hsigma. by apply sqrt_neg_0. }
  assert (sqrt var * sqrt var = var)%R as Hsq by (apply sqrt_sqrt; lra).
  assert (foldr Rplus 0%R ((λ x, (x - mu) / sqrt var)%R <$> vals) = 0%R) as Hsum0.
  { transitivity (/ sqrt var * foldr Rplus 0%R
                      ((λ x, x - foldr Rplus 0 vals / INR (length vals))%R <$> vals))%R.
    - rewrite <- Rsum_scale. f_equal. apply list_fmap_ext. intros i x _.
      unfold mu. cbn [fmean real_stats]. unfold Rdiv. ring.
    - rewrite Rmean_centered. ring. }
  assert (fmean (channel_values data c) = 0%R) as Hmean'.
  { rewrite Hvals. cbn [fmean real_stats fdiv fsub fsqrt real_arith].
    rewrite Hsum0. unfold Rdiv. apply Rmult_0_l. }
  split.
  - unfold np_mean01. rewrite list_lookup_fmap, lookup_seq_lt by lia.
    change (Some (fmean (channel_values data c)) = Some 0%R).
    by rewrite Hmean'.
  - unfold np_std01. rewrite list_lookup_fmap, lookup_seq_lt by lia.
    change (Some (fsqrt (fmean ((λ x, fmul (fsub x (fmean (channel_values data c)))
                                         (fsub x (fmean (channel_values data c))))
                                  <$> channel_values data c))) = Some 1%R).
    f_equal. rewrite Hmean'. rewrite Hvals.
    cbn [fmean real_stats fdiv fsub fmul fsqrt real_arith].
    rewrite <- list_fmap_compose, !length_fmap.
    rewrite <- sqrt_1. f_equal.
    assert (foldr Rplus 0%R
              ((λ x, (x - 0) * (x - 0))%R ∘ (λ x, (x - mu) / sqrt var)%R <$> vals)
            = (/ var * foldr Rplus 0%R ((λ x, (x - mu) * (x - mu))%R <$> vals))%R) as ->.
    { rewrite <- (Rsum_scale (/ var) (λ x, (x - mu) * (x - mu))%R).
      f_equal. apply list_fmap_ext. intros i x _. unfold compose.
      rewrite <- Hsq at 3. field. exact Hsigma. }
    fold n.
    assert (foldr Rplus 0%R ((λ x, (x - mu) * (x - mu))%R <$> vals) / n = var)%R as Hv.
    { unfold var, n. cbn [fmean real_stats fsub fmul real_arith].
      by rewrite length_fmap. }
    unfold Rdiv in *. rewrite Rmult_assoc, Hv. field. lra.
Qed.

Lemma sample_data_wf : tensor_wf sample_data.
Proof. repeat constructor. Qed.

Lemma sample_data_std : np_std01 sample_data !! 0 = Some 1%R.
Proof.
  unfold np_std01, channel_values. cbn -[INR]. f_equal.
  transitivity (sqrt 1); [| apply sqrt_1]. f_equal.
  replace (INR 4) with 4%R by (simpl; ring). field.
Qed.

(** Two time steps of two nodes holding 1, 3, 3 and 1. *)
Lemma normalize_standardizes_witness :
  ∃ data m s, normalize sample_data = Ok (data, m, s) ∧
    np_mean01 data !! 0 = Some 0%R ∧ np_std01 data !! 0 = Some 1%R.
Proof.
  destruct (normalize_Ok sample_data) as (data & m & s & Hnorm & _); [simpl; lia |].
  exists data, m, s. split; [exact Hnorm |].
  apply (normalize_standardizes sample_data data m s 0 sample_data_wf Hnorm).
  - simpl. lia.
  - rewrite sample_data_std. intros [= Heq]. lra.
Defined.

(** X18. In exact arithmetic the two scalars [read_data] returns undo the
    normalisation of the first channel: when the deviation is not zero,
    every normalised value [v] of channel 0 comes from the raw value
    [v * std_value + mean_value], at the same time step and node. *)
Theorem normalize_inverse (data0 data : tensor R) (mean_value std_value : R)
    (t n : nat) (v : R) :
  normalize data0 = Ok (data, mean_value, std_value) →
  std_value ≠ 0%R →
  at3 (steps data) t n 0 = Some v →
  at3 (steps data0) t n 0 = Some (v * std_value + mean_value)%R.
Proof.
  intros Hnorm Hs Hv. apply normalize_Ok_inv in Hnorm as (-> & Hm & Hsd).
  unfold at3 in *. cbn [steps] in Hv. rewrite list_lookup_fmap in Hv.
  destruct (steps data0 !! t) as [step |]; [| done]. simpl in *.
  rewrite list_lookup_fmap in Hv.
  destruct (step !! n) as [x |]; [| done]. simpl in *.
  rewrite !lookup_zip_with, Hm, Hsd in Hv.
  destruct (x !! 0) as [x0 |]; [| done]. simpl in Hv. injection Hv as <-.
  f_equal. cbn [fdiv fsub real_arith real_stats]. field. exact Hs.
Qed.

Lemma normalize_inverse_witness :
  ∃ data m s v, normalize sample_data = Ok (data, m, s) ∧
    at3 (steps data) 0 1 0 = Some v ∧
    at3 (steps sample_data) 0 1 0 = Some (v * s + m)%R.
Proof.
  destruct (normalize_Ok sample_data) as (data & m & s & Hnorm & _ & _ & _ & _ & Hs);
    [simpl; lia |].
  rewrite sample_data_std in Hs. injection Hs as <-.
  pose proof Hnorm as Hinv. apply normalize_Ok_inv in Hinv as (Hdata & _ & _).
  assert (∃ v, at3 (steps data) 0 1 0 = Some v) as [v Hv].
  { rewrite Hdata. eexists. reflexivity. }
  exists data, m, 1%R, v. split; [exact Hnorm |]. split; [exact Hv |].
  apply (normalize_inverse sample_data data m 1 0 1 v Hnorm); [lra | exact Hv].
Defined.

(** ** Daily profiles: only complete days count *)

Lemma mapR_fmap {A B : Type} (f : A → result B) (g : A → B) (l : list A) :
  (∀ x, x ∈ l → f x = Ok (g x)) → mapR f l = Ok (g <$> l).
Proof.
  induction l as [|x l IH]; intros Hf; [done |].
  cbn [mapR]. rewrite (Hf x) by left. cbn [mbind result_bind].
  rewrite IH by (intros y Hy; apply Hf; by right). done.
Qed.

Lemma mapR_take {A B : Type} (f : A → result B) (l : list A) (ys : list B) (k : nat) :
  mapR f l = Ok ys → mapR f (take k l) = Ok (take k ys).
Proof.
  revert ys k. induction l as [|x l IH]; intros ys k Hl.
  - simpl in Hl. injection Hl as <-. by rewrite !take_nil.
  - cbn [mapR] in Hl. destruct (f x) as [y |] eqn:Hy; [| done].
    cbn [mbind result_bind] in Hl.
    destruct (mapR f l) as [ys' |] eqn:Hys; [| done].
    cbn [mbind result_bind] in Hl. injection Hl as <-.
    destruct k as [|k]; [done |]. cbn [take mapR]. rewrite Hy.
    cbn [mbind result_bind]. by rewrite (IH ys' k eq_refl).
Qed.

(** A slice inside the first [k] items does not see the others. *)
Lemma py_slice_take {A : Type} (l : list A) (k : nat) (a b : Z) :
  (0 ≤ a)%Z → (a ≤ b)%Z → (b ≤ Z.of_nat k)%Z → k ≤ length l →
  py_slice (take k l) a b = py_slice l a b.
Proof.
  intros Ha Hab Hb Hk. unfold py_slice. rewrite length_take_le by done.
  rewrite !slice_bound_in_range by lia.
  apply list_eq. intros i.
  destruct (decide (i < Z.to_nat b - Z.to_nat a)) as [Hi | Hi].
  - rewrite !lookup_take_lt, !lookup_drop by done.
    rewrite lookup_take_lt by lia. done.
  - rewrite !lookup_take_ge by lia. done.
Qed.

Section DailyProfilesProofs.
Context {F : Type} {arith : Arith F} {stats : Stats F}.

(** X19. The daily profiles are those of the complete days: on data with
    a channel and at least one day of 24 * 12 time steps they are formed, one
    series per node unless there is a single node, and the time steps after
    the last complete day have no part in them. *)
Theorem daily_profiles_whole_days (data : tensor F) :
  tensor_wf data → 0 < channels data → 24 * 12 ≤ length (steps data) →
  let whole := 24 * 12 * (length (steps data) `div` (24 * 12)) in
  ∃ data_mean,
    daily_profiles data = Ok data_mean ∧
    daily_profiles (tensor_slice data 0 (Z.of_nat whole)) = Ok data_mean ∧
    (nodes data ≠ 1 → length data_mean = nodes data).
Proof.
  intros Hwf Hc Hday whole.
  set (T := length (steps data)) in *. set (days := T `div` (24 * 12)) in *.
  assert (whole ≤ T) as Hwhole by (apply Nat.Div0.mul_div_le).
  assert (0 < days) as Hdays by (apply Nat.div_str_pos; lia).
  destruct (channel0_spec data Hwf Hc) as (c0 & Hc0 & Hlen & _ & _).
  assert (steps (tensor_slice data 0 (Z.of_nat whole)) = take whole (steps data))
    as Hsteps.
  { unfold tensor_slice, py_slice. cbn [steps]. fold T.
    rewrite !slice_bound_in_range by lia.
    rewrite Nat2Z.id. simpl. by rewrite Nat.sub_0_r. }
  assert (channel0 (tensor_slice data 0 (Z.of_nat whole)) = Ok (take whole c0)) as Hc0'.
  { unfold channel0 in *. cbn [channels tensor_slice]. rewrite decide_False in * by lia.
    change (steps {| nodes := nodes data; channels := channels data;
                     steps := py_slice (steps data) 0 (Z.of_nat whole) |})
      with (steps (tensor_slice data 0 (Z.of_nat whole))).
    rewrite Hsteps. by apply mapR_take. }
  set (slice_of := λ c i,
         py_slice (A := list F) c (24 * 12 * Z.of_nat i) (24 * 12 * (Z.of_nat i + 1))).
  assert (mapR (λ i, first_channel ← channel0 data;
                     Ok (py_slice first_channel (24 * 12 * Z.of_nat i)
                           (24 * 12 * (Z.of_nat i + 1)))) (seq 0 days)
          = Ok (slice_of c0 <$> seq 0 days)) as Hslices.
  { apply mapR_fmap. intros i _. by rewrite Hc0. }
  assert (mapR (λ i, first_channel ← channel0 (tensor_slice data 0 (Z.of_nat whole));
                     Ok (py_slice first_channel (24 * 12 * Z.of_nat i)
                           (24 * 12 * (Z.of_nat i + 1)))) (seq 0 days)
          = Ok (slice_of c0 <$> seq 0 days)) as Hslices'.
  { apply mapR_fmap. intros i Hi. apply elem_of_seq in Hi. rewrite Hc0'.
    cbn [mbind result_bind]. f_equal. unfold slice_of.
    apply py_slice_take; unfold whole; lia. }
  assert (length (steps (tensor_slice data 0 (Z.of_nat whole))) `div` (24 * 12) = days)
    as Hdays'.
  { rewrite Hsteps, length_take_le by done. unfold whole.
    rewrite Nat.mul_comm. by apply Nat.div_mul. }
  unfold daily_profiles. cbv zeta. rewrite Hdays'. fold T days.
  rewrite Hslices, Hslices'. cbn [mbind result_bind tensor_slice nodes].
  rewrite decide_False by lia.
  destruct (decide (nodes data = 1)) as [H1 | Hn].
  - eexists. split; [reflexivity |]. split; [reflexivity | done].
  - eexists. split; [reflexivity |]. split; [reflexivity |].
    intros _. by rewrite length_fmap, length_seq.
Qed.
End DailyProfilesProofs.

Lemma sample_long_wf : tensor_wf sample_long.
Proof.
  unfold tensor_wf, sample_long. cbn [steps nodes channels].
  apply Forall_replicate. split; [done |]. by repeat constructor.
Qed.

(** The twelve time steps after the first day of [sample_long] are not
    read. *)
Lemma daily_profiles_whole_days_witness :
  ∃ data_mean,
    daily_profiles sample_long = Ok data_mean ∧
    daily_profiles (tensor_slice sample_long 0 288) = Ok data_mean ∧
    length data_mean = 2.
Proof.
  destruct (daily_profiles_whole_days sample_long sample_long_wf)
    as (data_mean & Hrun & Hcut & Hlen).
  - simpl. lia.
  - unfold sample_long. cbn [steps]. rewrite length_replicate. lia.
  - exists data_mean. split; [exact Hrun |]. split.
    + unfold sample_long in Hcut. cbn [steps] in Hcut.
      rewrite length_replicate in Hcut. exact Hcut.
    + apply Hlen. simpl. lia.
Defined.

(** ** [read_data] without its inputs *)

(** X20. [read_data] fails before it writes anything when its input is
    missing: for a dataset name that is not one of the seven keys of
    [files] it raises [KeyError], and for a registered dataset whose archive
    is not on disk it raises [FileNotFoundError]; the world is unchanged in
    both cases, also when the caches exist. *)
Theorem read_data_missing_input {F V Rng : Type} `{EqDecision F} {arith : Arith F}
    {stats : Stats F} (inf : F)
    (py_int : string → option Z) (py_float : string → option F)
    (fastdtw : profile F → profile F → F)
    (random_interval : Rng → nat → nat * Rng)
    (train_node2vec : gmap nat (gmap nat F) → Rng → option (gmap nat V * Rng))
    (norm_diff : V → V → F) (args : Args) (w : world F Rng) :
  let run :=
    read_data inf py_int py_float fastdtw random_interval train_node2vec norm_diff
      args w in
  (filename args ∉ ["pems03"; "pems04"; "pems07"; "pems08"; "pemsbay"; "pemsD7M";
                    "pemsD7L"] →
     run = (Throw KeyError, w)) ∧
  (∀ npz_name csv_name,
     files !! filename args = Some [npz_name; csv_name] →
     disk w !! ((if remote args then "/home/lantu.lqq/ftemp/data/" else "./data/")
                +:+ npz_name) = None →
     run = (Throw FileNotFoundError, w)).
Proof.
  intros run. unfold run, read_data. cbv zeta. split.
  - intros Hname. apply io_bind_Throw. cbv beta.
    assert (files !! filename args = None) as ->; [| done].
    by apply not_elem_of_list_to_map_1.
  - intros npz_name csv_name Hfile Hnpz.
    rewrite (io_bind_Return _ _ w [npz_name; csv_name] w) by (cbv beta; by rewrite Hfile).
    rewrite (io_bind_Return _ _ w npz_name w)
      by (apply pure_Ok; exact (getitem_nat [npz_name; csv_name] 0 npz_name eq_refl)).
    apply io_bind_Throw. unfold np_load_data. by rewrite Hnpz.
Qed.
